(** * A URL shortener in the browser: link store and redirect resolver

    Shallow embedding of [src/App.jsx] and proofs about it.

    The program keeps a collection of link records as one JSON array in a
    [localStorage] slot.  [handleRedirect] reads the navigation fragment,
    looks the code up, logs a visit, rewrites the slot and replaces the
    current page; the form handler [onSubmit] validates a batch of rows and
    prepends the created records.

    Layout of the development:
    - JavaScript strings, numbers and values;
    - [JSON.stringify] and [JSON.parse] on these values;
    - the persisted layout ([LinkRecord], [VisitRecord]) and the browser
      state the program touches, as a state-and-exception monad;
    - the functions of [App.jsx], in the order of the source;
    - the notions the statements use, and the data of the examples;
    - [JSON.parse] reads back what [JSON.stringify] writes;
    - the link store, the redirect resolver, the creation flow and the
      statistics. *)

From Stdlib Require Import List String Ascii Bool Arith ZArith NArith Lia.
From Stdlib Require Import DecimalFacts DecimalPos DecimalN.
Import ListNotations.

Set Implicit Arguments.

(* ===================================================================== *)
(** * JavaScript strings *)
(* ===================================================================== *)

(** A JavaScript string is a sequence of UTF-16 code units.  A code unit is
    an [N]; nothing below depends on it being smaller than 65536. *)
Definition jsstring := list N.

(** String literals of the source, written as Rocq strings. *)
Definition js (s : string) : jsstring :=
  List.map N_of_ascii (list_ascii_of_string s).

Fixpoint str_eqb (a b : jsstring) : bool :=
  match a, b with
  | [], [] => true
  | x :: a', y :: b' => N.eqb x y && str_eqb a' b'
  | _, _ => false
  end.

(** Truthiness of a string: only the empty string is falsy. *)
Definition nonempty (s : jsstring) : bool :=
  match s with [] => false | _ :: _ => true end.

(** [s || d] on strings. *)
Definition str_or (s d : jsstring) : jsstring :=
  if nonempty s then s else d.

Fixpoint starts_with (p s : jsstring) : option jsstring :=
  match p with
  | [] => Some s
  | c :: p' =>
      match s with
      | d :: s' => if N.eqb c d then starts_with p' s' else None
      | [] => None
      end
  end.

(** [new RegExp(p).test(s)] for a pattern [p] without metacharacters:
    [p] occurs somewhere in [s]. *)
Fixpoint contains (p s : jsstring) : bool :=
  match starts_with p s with
  | Some _ => true
  | None => match s with [] => false | _ :: s' => contains p s' end
  end.

(** [String.prototype.toLowerCase] on the letters A-Z.  Other code units are
    left alone: the Unicode case mapping outside ASCII is not modelled, so
    the definition is the function of the language on strings of ASCII
    code units and differs from it elsewhere (the language turns the
    Kelvin sign, code unit 8490, into [k]).  The codes that the program
    makes are ASCII ([sanitizeCode], [randomCode]); what is stated of the
    comparison of codes is stated for stores that hold such codes. *)
Definition lower_unit (c : N) : N :=
  if (65 <=? c)%N && (c <=? 90)%N then (c + 32)%N else c.

Definition toLowerCase (s : jsstring) : jsstring := List.map lower_unit s.

(** White space and line terminators removed by [String.prototype.trim]. *)
Definition is_space (c : N) : bool :=
  ((9 <=? c) && (c <=? 13) || (c =? 32) || (c =? 160) || (c =? 5760)
   || (8192 <=? c) && (c <=? 8202) || (c =? 8232) || (c =? 8233)
   || (c =? 8239) || (c =? 8287) || (c =? 12288) || (c =? 65279))%N.

Fixpoint trim_start (s : jsstring) : jsstring :=
  match s with
  | c :: s' => if is_space c then trim_start s' else s
  | [] => []
  end.

Definition trim (s : jsstring) : jsstring :=
  rev (trim_start (rev (trim_start s))).

(* ===================================================================== *)
(** * Decimal digits *)
(* ===================================================================== *)

Definition is_digit (c : N) : bool := ((48 <=? c) && (c <=? 57))%N.

Fixpoint uint_chars (u : Decimal.uint) : jsstring :=
  match u with
  | Decimal.Nil => []
  | Decimal.D0 u => 48%N :: uint_chars u
  | Decimal.D1 u => 49%N :: uint_chars u
  | Decimal.D2 u => 50%N :: uint_chars u
  | Decimal.D3 u => 51%N :: uint_chars u
  | Decimal.D4 u => 52%N :: uint_chars u
  | Decimal.D5 u => 53%N :: uint_chars u
  | Decimal.D6 u => 54%N :: uint_chars u
  | Decimal.D7 u => 55%N :: uint_chars u
  | Decimal.D8 u => 56%N :: uint_chars u
  | Decimal.D9 u => 57%N :: uint_chars u
  end.

Definition digit_cons (c : N) : Decimal.uint -> Decimal.uint :=
  match (c - 48)%N with
  | 0 => Decimal.D0 | 1 => Decimal.D1 | 2 => Decimal.D2 | 3 => Decimal.D3
  | 4 => Decimal.D4 | 5 => Decimal.D5 | 6 => Decimal.D6 | 7 => Decimal.D7
  | 8 => Decimal.D8 | _ => Decimal.D9
  end%N.

(** The longest prefix of decimal digits, and what follows it. *)
Fixpoint read_uint (s : jsstring) : Decimal.uint * jsstring :=
  match s with
  | c :: s' =>
      if is_digit c
      then let (u, r) := read_uint s' in (digit_cons c u, r)
      else (Decimal.Nil, s)
  | [] => (Decimal.Nil, [])
  end.

(** The decimal digits of a natural number, without leading zeros. *)
Definition digits (n : N) : jsstring := uint_chars (N.to_uint n).

(* ===================================================================== *)
(** * Numbers *)
(* ===================================================================== *)

(** A JavaScript number is an IEEE-754 double.  The model keeps the exact
    decimal value instead: an integer, or [m / 10^k] with [m] not a multiple
    of ten, besides NaN and the two infinities.  Every double is such a
    value; rounding to the nearest double and overflow are not modelled, and
    [-0] is [0].  On integers of magnitude at most 2^53, which is where the
    timestamps of the program live, the model and the doubles agree. *)
Inductive number : Type :=
| NInt (z : Z)
| NDec (m : Z) (k : positive)
| NNaN
| NInf (negative : bool).

(** Divide [m / 10^k] out as far as it goes. *)
Fixpoint reduce_dec (k : nat) (m : Z) : number :=
  match k with
  | O => NInt m
  | S k' =>
      if (m mod 10 =? 0)%Z then reduce_dec k' (m / 10)%Z
      else NDec m (Pos.of_succ_nat k')
  end.

(** The number [m * 10^e]. *)
Definition mk_number (m e : Z) : number :=
  if (m =? 0)%Z then NInt 0
  else if (0 <=? e)%Z then NInt (m * 10 ^ e)
  else reduce_dec (Z.to_nat (- e)) m.

(** [!!v] for a number: zero and NaN are falsy. *)
Definition num_truthy (v : number) : bool :=
  match v with
  | NInt z => negb (z =? 0)%Z
  | NNaN => false
  | _ => true
  end.

Definition Number_isInteger (v : number) : bool :=
  match v with NInt _ => true | _ => false end.

(** [v <= 0]. *)
Definition num_le_zero (v : number) : bool :=
  match v with
  | NInt z => (z <=? 0)%Z
  | NDec m _ => (m <=? 0)%Z
  | NNaN => false
  | NInf negative => negative
  end.

(** [v > t] for an integer [t]. *)
Definition num_gt (v : number) (t : Z) : bool :=
  match v with
  | NInt z => (t <? z)%Z
  | NDec m k => (t * 10 ^ Z.pos k <? m)%Z
  | NNaN => false
  | NInf negative => negb negative
  end.

(** [c + v * a] for integers [c] and [a > 0], as an exact value.  The
    program computes the nearest double: the same number as long as the
    product and the sum are integers of magnitude at most 2^53
    ([safe_integer] below), and a neighbour of it beyond.  What is stated
    of a computed expiry is stated within that bound. *)
Definition num_scale_add (c : Z) (v : number) (a : Z) : number :=
  match v with
  | NInt z => NInt (c + z * a)
  | NDec m k => mk_number (c * 10 ^ Z.pos k + m * a) (- Z.pos k)
  | NNaN => NNaN
  | NInf negative => NInf negative
  end.

Fixpoint strip_zeros (rev_digits : jsstring) : jsstring :=
  match rev_digits with
  | c :: r => if (c =? 48)%N then strip_zeros r else rev_digits
  | [] => []
  end.

Definition signed_digits (z : Z) : jsstring :=
  (if (z <? 0)%Z then [45%N] else []) ++ digits (Z.abs_N z).

(** Scientific notation of [Number::toString]: the digits [ds], of which
    [n] stand before the decimal point. *)
Definition exponential (ds : jsstring) (n : Z) : jsstring :=
  match ds with
  | [] => []
  | d :: frac =>
      d :: (match frac with [] => [] | _ => 46%N :: frac end)
        ++ 101%N :: (if (n - 1 <? 0)%Z then 45%N else 43%N)
        :: digits (Z.abs_N (n - 1))
  end.

(** [Number::toString] on a positive value with significant digits [ds]
    (no trailing zero) and [n] digits before the decimal point. *)
Definition positional (ds : jsstring) (n : Z) : jsstring :=
  let k := Z.of_nat (List.length ds) in
  if (k <=? n)%Z && (n <=? 21)%Z then ds ++ repeat 48%N (Z.to_nat (n - k))
  else if (0 <? n)%Z && (n <=? 21)%Z
  then firstn (Z.to_nat n) ds ++ 46%N :: skipn (Z.to_nat n) ds
  else if (-6 <? n)%Z && (n <=? 0)%Z
  then 48%N :: 46%N :: repeat 48%N (Z.to_nat (- n)) ++ ds
  else exponential ds n.

(** [Number::toString], radix ten. *)
Definition number_to_string (v : number) : jsstring :=
  match v with
  | NInt z =>
      let ds := digits (Z.abs_N z) in
      if (List.length ds <=? 21)%nat then signed_digits z
      else (if (z <? 0)%Z then [45%N] else [])
             ++ exponential (rev (strip_zeros (rev ds)))
                  (Z.of_nat (List.length ds))
  | NDec m k =>
      let ds := digits (Z.abs_N m) in
      (if (m <? 0)%Z then [45%N] else [])
        ++ positional ds (Z.of_nat (List.length ds) - Z.pos k)
  | NNaN => js "NaN"
  | NInf negative => (if negative then [45%N] else []) ++ js "Infinity"
  end.

(* ===================================================================== *)
(** * Values *)
(* ===================================================================== *)

(** The values the program handles: what [JSON.parse] can return, and
    numbers that are not finite.  An object is the list of its own
    properties in enumeration order; [undefined] is [None] where a value is
    optional. *)
#[local] Unset Elimination Schemes.
Inductive value : Type :=
| VNull
| VBool (b : bool)
| VNum (n : number)
| VStr (s : jsstring)
| VArr (items : list value)
| VObj (props : list (jsstring * value)).
#[local] Set Elimination Schemes.

(** Own property [k] of an object.  On arrays, strings, numbers and booleans
    the property names the program reads ([code], [visits], [longUrl]) are
    not defined, neither on the value nor on its prototype. *)
Fixpoint lookup (k : jsstring) (props : list (jsstring * value))
  : option value :=
  match props with
  | [] => None
  | (k', v) :: props' => if str_eqb k k' then Some v else lookup k props'
  end.

Definition get (v : value) (k : jsstring) : option value :=
  match v with
  | VObj props => lookup k props
  | _ => None
  end.

(** Assignment to an own property that exists keeps its place. *)
Fixpoint replace_prop (k : jsstring) (v : value)
  (props : list (jsstring * value)) : list (jsstring * value) :=
  match props with
  | [] => []
  | (k', v') :: props' =>
      if str_eqb k k' then (k', v) :: props'
      else (k', v') :: replace_prop k v props'
  end.

(** An array index: a canonical numeric string below 2^32 - 1. *)
Definition array_index (k : jsstring) : option N :=
  match read_uint k with
  | (u, []) =>
      if Decimal.uint_beq (Decimal.unorm u) u
      then if (N.of_uint u <? 4294967295)%N then Some (N.of_uint u) else None
      else None
  | _ => None
  end.

(** Own properties are enumerated with the array indices first, in
    ascending order, and then the other names in creation order. *)
Definition goes_before (k k' : jsstring) : bool :=
  match array_index k, array_index k' with
  | Some n, Some n' => (n <? n')%N
  | Some _, None => true
  | None, _ => false
  end.

Fixpoint insert_prop (k : jsstring) (v : value)
  (props : list (jsstring * value)) : list (jsstring * value) :=
  match props with
  | [] => [(k, v)]
  | (k', v') :: props' =>
      if goes_before k k' then (k, v) :: props
      else (k', v') :: insert_prop k v props'
  end.

(** [CreateDataProperty(o, k, v)]. *)
Definition define_prop (props : list (jsstring * value)) (kv : jsstring * value)
  : list (jsstring * value) :=
  match lookup (fst kv) props with
  | Some _ => replace_prop (fst kv) (snd kv) props
  | None => insert_prop (fst kv) (snd kv) props
  end.

(** The object built from the members of an object literal of a JSON text,
    taken left to right: a repeated name keeps its first place and its last
    value. *)
Definition object_of_members (ms : list (jsstring * value))
  : list (jsstring * value) :=
  fold_left define_prop ms [].

(* ===================================================================== *)
(** * JSON.stringify *)
(* ===================================================================== *)

Definition is_lead (c : N) : bool := ((55296 <=? c) && (c <=? 56319))%N.
Definition is_trail (c : N) : bool := ((56320 <=? c) && (c <=? 57343))%N.

Definition hex_digit (d : N) : N := (if d <? 10 then 48 + d else 87 + d)%N.

(** [\uXXXX] with four lower-case hexadecimal digits. *)
Definition unicode_escape (c : N) : jsstring :=
  [92; 117;
   hex_digit (N.shiftr c 12 mod 16); hex_digit (N.shiftr c 8 mod 16);
   hex_digit (N.shiftr c 4 mod 16); hex_digit (c mod 16)]%N.

(** One code unit inside a quoted JSON string.  [paired] tells whether a
    surrogate is half of a well-formed pair: only then is it copied. *)
Definition quote_unit (paired : bool) (c : N) : jsstring :=
  (if c =? 8 then [92; 98]
   else if c =? 9 then [92; 116]
   else if c =? 10 then [92; 110]
   else if c =? 12 then [92; 102]
   else if c =? 13 then [92; 114]
   else if c =? 34 then [92; 34]
   else if c =? 92 then [92; 92]
   else if c <? 32 then unicode_escape c
   else if (is_lead c || is_trail c) && negb paired then unicode_escape c
   else [c])%N.

(** [after_lead]: the code unit before this one is a leading surrogate.  A
    leading surrogate is paired when a trailing one follows it, a trailing
    one when it follows a leading one. *)
Fixpoint quote_units (after_lead : bool) (s : jsstring) : jsstring :=
  match s with
  | [] => []
  | c :: s' =>
      let paired :=
        if is_lead c
        then match s' with d :: _ => is_trail d | [] => false end
        else after_lead in
      quote_unit paired c ++ quote_units (is_lead c) s'
  end.

(** [QuoteJSONString]. *)
Definition quote (s : jsstring) : jsstring :=
  34%N :: quote_units false s ++ [34%N].

Fixpoint join_comma (parts : list jsstring) : jsstring :=
  match parts with
  | [] => []
  | [p] => p
  | p :: parts' => p ++ 44%N :: join_comma parts'
  end.

(** [JSON.stringify(v)] without indentation.  A number that is not finite is
    written [null]. *)
Fixpoint stringify (v : value) : jsstring :=
  match v with
  | VNull => js "null"
  | VBool true => js "true"
  | VBool false => js "false"
  | VNum (NInt z) => number_to_string (NInt z)
  | VNum (NDec m k) => number_to_string (NDec m k)
  | VNum _ => js "null"
  | VStr s => quote s
  | VArr items => 91%N :: join_comma (List.map stringify items) ++ [93%N]
  | VObj props =>
      123%N
        :: join_comma
             (List.map (fun kv => quote (fst kv) ++ 58%N :: stringify (snd kv))
                props)
        ++ [125%N]
  end.

Definition JSON_stringify : value -> jsstring := stringify.

(* ===================================================================== *)
(** * JSON.parse *)
(* ===================================================================== *)

Definition is_ws (c : N) : bool :=
  ((c =? 9) || (c =? 10) || (c =? 13) || (c =? 32))%N.

Fixpoint skip_ws (s : jsstring) : jsstring :=
  match s with
  | c :: s' => if is_ws c then skip_ws s' else s
  | [] => []
  end.

Definition hex_value (c : N) : option N :=
  (if (48 <=? c) && (c <=? 57) then Some (c - 48)
   else if (97 <=? c) && (c <=? 102) then Some (c - 87)
   else if (65 <=? c) && (c <=? 70) then Some (c - 55)
   else None)%N.

Definition hex4 (a b c d : N) : option N :=
  match hex_value a, hex_value b, hex_value c, hex_value d with
  | Some x, Some y, Some z, Some w => Some (((x * 16 + y) * 16 + z) * 16 + w)%N
  | _, _, _, _ => None
  end.

(** The character a single-letter escape stands for. *)
Definition unescape (c : N) : option N :=
  (if c =? 34 then Some 34
   else if c =? 92 then Some 92
   else if c =? 47 then Some 47
   else if c =? 98 then Some 8
   else if c =? 102 then Some 12
   else if c =? 110 then Some 10
   else if c =? 114 then Some 13
   else if c =? 116 then Some 9
   else None)%N.

Definition prepend {A B : Type} (a : A) (r : option (list A * B))
  : option (list A * B) :=
  match r with
  | Some (l, b) => Some (a :: l, b)
  | None => None
  end.

(** A string literal after its opening quote: its value and what follows the
    closing quote. *)
Fixpoint read_string (s : jsstring) : option (jsstring * jsstring) :=
  match s with
  | [] => None
  | c :: s' =>
      if (c =? 34)%N then Some ([], s')
      else if (c =? 92)%N then
        match s' with
        | e :: s'' =>
            if (e =? 117)%N then
              match s'' with
              | h1 :: h2 :: h3 :: h4 :: s3 =>
                  match hex4 h1 h2 h3 h4 with
                  | Some u => prepend u (read_string s3)
                  | None => None
                  end
              | _ => None
              end
            else
              match unescape e with
              | Some u => prepend u (read_string s'')
              | None => None
              end
        | [] => None
        end
      else if (c <? 32)%N then None
      else prepend c (read_string s')
  end.

Definition read_fraction (s : jsstring) : option (Decimal.uint * jsstring) :=
  match s with
  | c :: r =>
      if (c =? 46)%N then
        match read_uint r with
        | (Decimal.Nil, _) => None
        | (u, r') => Some (u, r')
        end
      else Some (Decimal.Nil, s)
  | [] => Some (Decimal.Nil, s)
  end.

Definition read_exponent (s : jsstring) : option (Z * jsstring) :=
  match s with
  | c :: r =>
      if ((c =? 101) || (c =? 69))%N then
        let (negative, r1) :=
          match r with
          | d :: r' =>
              if (d =? 43)%N then (false, r')
              else if (d =? 45)%N then (true, r') else (false, r)
          | [] => (false, r)
          end in
        match read_uint r1 with
        | (Decimal.Nil, _) => None
        | (u, r2) =>
            Some (if negative then (- Z.of_N (N.of_uint u))%Z
                  else Z.of_N (N.of_uint u), r2)
        end
      else Some (0%Z, s)
  | [] => Some (0%Z, s)
  end.

(** A number literal: an optional minus sign; zero, or a non-zero digit and
    more digits; an optional fraction of a point and digits; an optional
    exponent of [e] or [E], an optional sign and digits. *)
Definition read_unsigned (negative : bool) (s : jsstring)
  : option (number * jsstring) :=
  match s with
  | c :: r =>
      if is_digit c then
        let (int_part, s2) :=
          if (c =? 48)%N then (Decimal.D0 Decimal.Nil, r) else read_uint s in
        match read_fraction s2 with
        | None => None
        | Some (frac, s3) =>
            match read_exponent s3 with
            | None => None
            | Some (e, s4) =>
                let m := Z.of_N (N.of_uint (Decimal.app int_part frac)) in
                Some (mk_number (if negative then (- m)%Z else m)
                        (e - Z.of_nat (Decimal.nb_digits frac)), s4)
            end
        end
      else None
  | [] => None
  end.

Definition read_number (s : jsstring) : option (number * jsstring) :=
  match s with
  | c :: r =>
      if (c =? 45)%N then read_unsigned true r else read_unsigned false s
  | [] => None
  end.

Definition keyword (word : string) (v : value) (s : jsstring)
  : option (value * jsstring) :=
  match starts_with (js word) s with
  | Some r => Some (v, r)
  | None => None
  end.

Definition wrap {A B C : Type} (f : A -> B) (r : option (A * C))
  : option (B * C) :=
  match r with
  | Some (a, c) => Some (f a, c)
  | None => None
  end.

(** Recursive descent on the text.  [fuel] bounds the number of nested
    calls; each call consumes at least one code unit, so the length of the
    text plus one is always enough. *)
Fixpoint parse_value (fuel : nat) (s : jsstring) {struct fuel}
  : option (value * jsstring) :=
  match fuel with
  | O => None
  | S fuel' =>
      match skip_ws s with
      | [] => None
      | c :: r =>
          if (c =? 34)%N then wrap VStr (read_string r)
          else if (c =? 91)%N then
            match skip_ws r with
            | [] => None
            | c' :: r' =>
                if (c' =? 93)%N then Some (VArr [], r')
                else wrap VArr (parse_elements fuel' r)
            end
          else if (c =? 123)%N then
            match skip_ws r with
            | [] => None
            | c' :: r' =>
                if (c' =? 125)%N then Some (VObj [], r')
                else wrap (fun ms => VObj (object_of_members ms))
                       (parse_members fuel' r)
            end
          else if (c =? 110)%N then keyword "null" VNull (c :: r)
          else if (c =? 116)%N then keyword "true" (VBool true) (c :: r)
          else if (c =? 102)%N then keyword "false" (VBool false) (c :: r)
          else wrap VNum (read_number (c :: r))
      end
  end

with parse_elements (fuel : nat) (s : jsstring) {struct fuel}
  : option (list value * jsstring) :=
  match fuel with
  | O => None
  | S fuel' =>
      match parse_value fuel' s with
      | None => None
      | Some (v, s1) =>
          match skip_ws s1 with
          | [] => None
          | c :: s2 =>
              if (c =? 44)%N then prepend v (parse_elements fuel' s2)
              else if (c =? 93)%N then Some ([v], s2)
              else None
          end
      end
  end

with parse_members (fuel : nat) (s : jsstring) {struct fuel}
  : option (list (jsstring * value) * jsstring) :=
  match fuel with
  | O => None
  | S fuel' =>
      match skip_ws s with
      | [] => None
      | q :: s1 =>
          if (q =? 34)%N then
            match read_string s1 with
            | None => None
            | Some (k, s2) =>
                match skip_ws s2 with
                | [] => None
                | colon :: s3 =>
                    if (colon =? 58)%N then
                      match parse_value fuel' s3 with
                      | None => None
                      | Some (v, s4) =>
                          match skip_ws s4 with
                          | [] => None
                          | c :: s5 =>
                              if (c =? 44)%N
                              then prepend (k, v) (parse_members fuel' s5)
                              else if (c =? 125)%N then Some ([(k, v)], s5)
                              else None
                          end
                      end
                    else None
                end
            end
          else None
      end
  end.

(** [JSON.parse(text)]: [None] stands for the [SyntaxError] it throws. *)
Definition JSON_parse (text : jsstring) : option value :=
  match parse_value (S (List.length text)) text with
  | Some (v, r) => match skip_ws r with [] => Some v | _ :: _ => None end
  | None => None
  end.

(* ===================================================================== *)
(** * The persisted layout *)
(* ===================================================================== *)

(** One recorded access to a short link. *)
Record VisitRecord : Type := mkVisit {
  ts : Z;
  ref : jsstring;
  os : jsstring;
  lang : jsstring;
  tz : jsstring;
  screen : jsstring
}.

(** One shortened link.  [expiryTs] is [None] for [null]. *)
Record LinkRecord : Type := mkLink {
  code : jsstring;
  longUrl : jsstring;
  createdAt : Z;
  expiryTs : option number;
  visits : list VisitRecord
}.

(** The objects the program builds for them, key by key in the order of the
    object literals of the source. *)
Definition visit_value (v : VisitRecord) : value :=
  VObj [ (js "ts", VNum (NInt (ts v)));
         (js "ref", VStr (ref v));
         (js "os", VStr (os v));
         (js "lang", VStr (lang v));
         (js "tz", VStr (tz v));
         (js "screen", VStr (screen v)) ].

Definition link_value (l : LinkRecord) : value :=
  VObj [ (js "code", VStr (code l));
         (js "longUrl", VStr (longUrl l));
         (js "createdAt", VNum (NInt (createdAt l)));
         (js "expiryTs",
           match expiryTs l with Some e => VNum e | None => VNull end);
         (js "visits", VArr (List.map visit_value (visits l))) ].

Definition links_value (links : list LinkRecord) : value :=
  VArr (List.map link_value links).

(* ===================================================================== *)
(** * The browser *)
(* ===================================================================== *)

(** A request to navigate: [location.replace] puts the target in the place
    of the current entry of the session history, [location.assign] would add
    an entry.  The target is the argument as it was passed, [None] for
    [undefined]. *)
Inductive navigation : Type :=
| NavReplace (target : option value)
| NavAssign (target : option value).


(** What the program reads and writes of its environment.  [Date.now()] and
    [crypto.getRandomValues] are oracles: the n-th call gets the n-th
    reading.  Storage has no quota. *)
Record World : Type := mkWorld {
  localStorage : jsstring -> option jsstring;
  location_hash : jsstring;
  document_referrer : jsstring;
  navigator_userAgent : jsstring;
  navigator_language : jsstring;
  resolved_timeZone : jsstring;
  screen_width : option N;
  screen_height : option N;
  clock : nat -> Z;
  ticks : nat;
  entropy : nat -> N;
  drawn : nat;
  navigations : list navigation;
  alerts : list jsstring
}.

Inductive exn : Type := TypeError.

Inductive outcome (A : Type) : Type :=
| Returned (a : A)
| Thrown (e : exn).
Arguments Returned {A} a.
Arguments Thrown {A} e.

(** Computations on the browser state that return or throw. *)
Definition M (A : Type) : Type := World -> outcome A * World.

Definition ret {A : Type} (a : A) : M A := fun w => (Returned a, w).

Definition throw {A : Type} (e : exn) : M A := fun w => (Thrown e, w).

Definition bind {A B : Type} (c : M A) (k : A -> M B) : M B :=
  fun w =>
    match c w with
    | (Returned a, w') => k a w'
    | (Thrown e, w') => (Thrown e, w')
    end.

Declare Scope js_scope.
Delimit Scope js_scope with js.
Notation "x <- c ;; k" := (bind c (fun x => k))
  (at level 61, c at next level, right associativity) : js_scope.
Notation "c ;; k" := (bind c (fun _ => k))
  (at level 61, right associativity) : js_scope.
Local Open Scope js_scope.

Definition getItem (key : jsstring) : M (option jsstring) :=
  fun w => (Returned (localStorage w key), w).

Definition setItem (key text : jsstring) : M unit :=
  fun w =>
    (Returned tt,
     mkWorld (fun k => if str_eqb k key then Some text else localStorage w k)
       (location_hash w) (document_referrer w) (navigator_userAgent w)
       (navigator_language w) (resolved_timeZone w) (screen_width w)
       (screen_height w) (clock w) (ticks w) (entropy w) (drawn w)
       (navigations w) (alerts w)).

Definition Date_now : M Z :=
  fun w =>
    (Returned (clock w (ticks w)),
     mkWorld (localStorage w) (location_hash w) (document_referrer w)
       (navigator_userAgent w) (navigator_language w) (resolved_timeZone w)
       (screen_width w) (screen_height w) (clock w) (S (ticks w)) (entropy w)
       (drawn w) (navigations w) (alerts w)).

(** One byte of [crypto.getRandomValues]. *)
Definition random_byte : M N :=
  fun w =>
    (Returned (entropy w (drawn w) mod 256)%N,
     mkWorld (localStorage w) (location_hash w) (document_referrer w)
       (navigator_userAgent w) (navigator_language w) (resolved_timeZone w)
       (screen_width w) (screen_height w) (clock w) (ticks w) (entropy w)
       (S (drawn w)) (navigations w) (alerts w)).

Definition location_replace (target : option value) : M unit :=
  fun w =>
    (Returned tt,
     mkWorld (localStorage w) (location_hash w) (document_referrer w)
       (navigator_userAgent w) (navigator_language w) (resolved_timeZone w)
       (screen_width w) (screen_height w) (clock w) (ticks w) (entropy w)
       (drawn w) (NavReplace target :: navigations w) (alerts w)).

Definition alert (message : jsstring) : M unit :=
  fun w =>
    (Returned tt,
     mkWorld (localStorage w) (location_hash w) (document_referrer w)
       (navigator_userAgent w) (navigator_language w) (resolved_timeZone w)
       (screen_width w) (screen_height w) (clock w) (ticks w) (entropy w)
       (drawn w) (navigations w) (message :: alerts w)).

Definition read {A : Type} (field : World -> A) : M A :=
  fun w => (Returned (field w), w).

(* ===================================================================== *)
(** * App.jsx *)
(* ===================================================================== *)

Definition STORAGE_KEY : jsstring := js "urlshort:v3".

(** [loadLinks]: the [SyntaxError] of [JSON.parse] is caught. *)
Definition loadLinks : M value :=
  stored <- getItem STORAGE_KEY ;;
  let text :=
    match stored with
    | Some t => str_or t (js "[]")
    | None => js "[]"
    end in
  match JSON_parse text with
  | Some v => ret v
  | None => ret (VArr [])
  end.

Definition saveLinks (links : value) : M unit :=
  setItem STORAGE_KEY (JSON_stringify links).

Definition is_code_char (c : N) : bool :=
  (is_digit c || (65 <=? c) && (c <=? 90) || (97 <=? c) && (c <=? 122)
   || (c =? 95) || (c =? 45))%N.

Definition sanitizeCode (code : jsstring) : jsstring :=
  trim (filter is_code_char code).

Definition chars : jsstring :=
  js "0123456789abcdefghijklmnopqrstuvwxyzABCDEFGHIJKLMNOPQRSTUVWXYZ".

Fixpoint randomCode (len : nat) : M jsstring :=
  match len with
  | O => ret []
  | S len' =>
      n <- random_byte ;;
      rest <- randomCode len' ;;
      ret (nth (N.to_nat (n mod N.of_nat (List.length chars))) chars 0%N
             :: rest)
  end.

Definition now : M Z := Date_now.

Definition dimension (d : option N) : jsstring :=
  match d with
  | Some n => if (n =? 0)%N then js "?" else digits n
  | None => js "?"
  end.

(** The chain of tests on the lower-cased user agent. *)
Definition os_family (ua : jsstring) : jsstring :=
  if contains (js "windows") ua then js "Windows"
  else if contains (js "mac") ua then js "macOS"
  else if contains (js "android") ua then js "Android"
  else if contains (js "iphone") ua || contains (js "ipad") ua
          || contains (js "ipod") ua then js "iOS"
  else if contains (js "linux") ua then js "Linux"
  else js "Other".

Definition deviceMeta : M (list (jsstring * value)) :=
  agent <- read navigator_userAgent ;;
  let ua := toLowerCase agent in
  let os := os_family ua in
  language <- read navigator_language ;;
  zone <- read resolved_timeZone ;;
  width <- read screen_width ;;
  height <- read screen_height ;;
  ret [ (js "os", VStr os);
        (js "lang", VStr (str_or language (js "en")));
        (js "tz", VStr (str_or zone (js "UTC")));
        (js "screen", VStr (dimension width ++ 120%N :: dimension height)) ].

(** One item of the batch handed to [submitToBackend]. *)
Record BatchItem : Type := mkItem {
  item_longUrl : jsstring;
  item_validityMinutes : option number;
  item_preferredCode : option jsstring
}.

Definition create (item : BatchItem) : M LinkRecord :=
  code <- match item_preferredCode item with
          | Some c => if nonempty c then ret c else randomCode 6
          | None => randomCode 6
          end ;;
  createdAt <- now ;;
  let expiryTs :=
    match item_validityMinutes item with
    | Some v =>
        if num_truthy v then Some (num_scale_add createdAt v 60000) else None
    | None => None
    end in
  ret (mkLink code (item_longUrl item) createdAt expiryTs []).

Fixpoint map_M {A B : Type} (f : A -> M B) (l : list A) : M (list B) :=
  match l with
  | [] => ret []
  | a :: l' => b <- f a ;; bs <- map_M f l' ;; ret (b :: bs)
  end.

(** [submitToBackend]: [success] is always true, so only [created] is
    returned; the delay of 300 ms is not modelled. *)
Definition submitToBackend (batch : list BatchItem) : M (list LinkRecord) :=
  map_M create batch.

(** [hash.replace(/^#\/?/, '')]. *)
Definition strip_hash (hash : jsstring) : jsstring :=
  match hash with
  | c :: r =>
      if (c =? 35)%N then
        match r with
        | d :: r' => if (d =? 47)%N then r' else r
        | [] => r
        end
      else hash
  | [] => hash
  end.

(** A code unit that [.] of a regular expression does not match. *)
Definition is_line_terminator (c : N) : bool :=
  ((c =? 10) || (c =? 13) || (c =? 8232) || (c =? 8233))%N.

(** [hash.match(/^r\/(.+)$/)], giving the captured group. *)
Definition match_redirect (hash : jsstring) : option jsstring :=
  match starts_with (js "r/") hash with
  | Some rest =>
      if nonempty rest && forallb (fun c => negb (is_line_terminator c)) rest
      then Some rest else None
  | None => None
  end.

(** [l.code === code]. *)
Definition has_code (code : jsstring) (l : value) : bool :=
  match get l (js "code") with
  | Some (VStr c) => str_eqb c code
  | _ => false
  end.

(** [links.find(l => l.code === code)] on the items of an array, from
    position [i] on: the position and the item found.  Reading [l.code]
    throws when [l] is [null]. *)
Fixpoint find_code (code : jsstring) (items : list value) (i : nat)
  : outcome (option (nat * value)) :=
  match items with
  | [] => Returned None
  | l :: items' =>
      match l with
      | VNull => Thrown TypeError
      | _ =>
          if has_code code l then Returned (Some (i, l))
          else find_code code items' (S i)
      end
  end.

(** [links.find(...)]: only an array has [find]. *)
Definition find_link (code : jsstring) (links : value)
  : M (option (nat * value)) :=
  match links with
  | VArr items => fun w => (find_code code items 0, w)
  | _ => throw TypeError
  end.

Fixpoint set_nth {A : Type} (i : nat) (a : A) (l : list A) : list A :=
  match l, i with
  | [], _ => []
  | _ :: l', O => a :: l'
  | x :: l', S i' => x :: set_nth i' a l'
  end.

(** The visit logged by [handleRedirect]. *)
Definition new_visit : M value :=
  t <- now ;;
  referrer <- read document_referrer ;;
  meta <- deviceMeta ;;
  ret (VObj ((js "ts", VNum (NInt t))
             :: (js "ref", VStr (str_or referrer (js "(direct)")))
             :: meta)).

(** [link.visits.push(visit)]: the link after the call.  Reading [push] off
    [undefined] or [null] throws before the argument is evaluated; a value
    that is not an array has no [push] to call. *)
Definition push_visit (link : value) : M value :=
  match get link (js "visits") with
  | None | Some VNull => throw TypeError
  | Some (VArr visits) =>
      visit <- new_visit ;;
      match link with
      | VObj props =>
          ret (VObj (replace_prop (js "visits") (VArr (visits ++ [visit]))
                       props))
      | _ => ret link
      end
  | Some _ => _ <- new_visit ;; throw TypeError
  end.

(** [handleRedirect].  The array comes fresh from [JSON.parse], so the item
    found is referenced from its place in the array only, and the in-place
    [push] is the update of that place. *)
Definition handleRedirect : M unit :=
  fragment <- read location_hash ;;
  let hash := strip_hash fragment in
  match match_redirect hash with
  | None => ret tt
  | Some code =>
      links <- loadLinks ;;
      found <- find_link code links ;;
      match found with
      | None => ret tt
      | Some (i, link) =>
          link' <- push_visit link ;;
          saveLinks
            (match links with
             | VArr items => VArr (set_nth i link' items)
             | _ => links
             end) ;;
          location_replace (get link' (js "longUrl"))
      end
  end.

(** The errors [validate] attaches to a row: a key is present when the
    option is [Some]. *)
Record Errors : Type := mkErrors {
  err_longUrl : option jsstring;
  err_validityMinutes : option jsstring;
  err_preferredCode : option jsstring
}.

Definition no_errors : Errors := mkErrors None None None.

(** [Object.keys(e).length], as a truth value. *)
Definition has_errors (e : Errors) : bool :=
  match err_longUrl e, err_validityMinutes e, err_preferredCode e with
  | None, None, None => false
  | _, _, _ => true
  end.

(** A row of the form. *)
Record Row : Type := mkRow {
  row_longUrl : jsstring;
  row_validityMinutes : jsstring;
  row_preferredCode : jsstring;
  row_errors : Errors
}.

Definition blank_row : Row := mkRow [] [] [] no_errors.

(** The state of the component [App].  [links] starts as what [loadLinks]
    returned and is taken here to be a collection of records, as
    [submitToBackend] builds them. *)
Record AppState : Type := mkApp {
  links : list LinkRecord;
  rows : list Row;
  createdBatch : list LinkRecord;
  creating : bool
}.

(** [new Set(links.map(l => l.code.toLowerCase()))], as a list. *)
Definition existing_codes (links : list LinkRecord) : list jsstring :=
  List.map (fun l => toLowerCase (code l)) links.

Section Creation.

(** Two functions of the platform are taken as they are:
    [new URL(u).protocol], with [None] when the constructor throws, and
    the conversion [Number(s)] of a string. *)
Variable URL_protocol : jsstring -> option jsstring.
Variable StringToNumber : jsstring -> number.

Definition isValidUrl (u : jsstring) : bool :=
  match URL_protocol u with
  | Some protocol =>
      str_eqb protocol (js "http:") || str_eqb protocol (js "https:")
  | None => false
  end.

(** [validate(row, existing)], with the set [existing] as a list. *)
Definition validate (row : Row) (existing : list jsstring) : Errors :=
  mkErrors
    (if isValidUrl (row_longUrl row) then None else Some (js "Invalid URL"))
    (if nonempty (row_validityMinutes row) then
       let v := StringToNumber (row_validityMinutes row) in
       if negb (Number_isInteger v) || num_le_zero v
       then Some (js "Must be positive integer") else None
     else None)
    (if nonempty (row_preferredCode row) then
       let sc := sanitizeCode (row_preferredCode row) in
       if negb (nonempty sc) then Some (js "Invalid characters")
       else if existsb (str_eqb (toLowerCase sc)) existing
            then Some (js "Code taken")
            else None
     else None).

Definition batch_item (r : Row) : BatchItem :=
  mkItem (trim (row_longUrl r))
    (if nonempty (row_validityMinutes r)
     then Some (StringToNumber (row_validityMinutes r)) else None)
    (let sc := sanitizeCode (row_preferredCode r) in
     if nonempty sc then Some sc else None).

(** [onSubmit], with the effect that React runs once [setLinks] has
    changed [links]: [saveLinks(links)]. *)
Definition onSubmit (app : AppState) : M AppState :=
  let existing := existing_codes (links app) in
  let validated :=
    List.map
      (fun r =>
         mkRow (row_longUrl r) (row_validityMinutes r) (row_preferredCode r)
           (validate r existing))
      (rows app) in
  if existsb (fun r => has_errors (row_errors r)) validated then
    alert (js "Fix errors first.") ;;
    ret (mkApp (links app) validated (createdBatch app) (creating app))
  else
    let batch := List.map batch_item validated in
    created <- submitToBackend batch ;;
    saveLinks (links_value (created ++ links app)) ;;
    ret (mkApp (created ++ links app) [blank_row] created false).

End Creation.

(** [!l.expiryTs || l.expiryTs > now()]. *)
Definition is_active (l : LinkRecord) : M bool :=
  match expiryTs l with
  | None => ret true
  | Some e =>
      if num_truthy e then t <- now ;; ret (num_gt e t) else ret true
  end.

Fixpoint count_active (links : list LinkRecord) : M nat :=
  match links with
  | [] => ret O
  | l :: links' =>
      a <- is_active l ;;
      n <- count_active links' ;;
      ret (if a then S n else n)
  end.

(** The statistics shown on the second tab. *)
Record Stats : Type := mkStats {
  total : nat;
  active : nat;
  expired : nat;
  clicks : nat
}.

Definition stats (links : list LinkRecord) : M Stats :=
  let total := List.length links in
  active <- count_active links ;;
  let expired := (total - active)%nat in
  let clicks :=
    fold_left (fun s l => (s + List.length (visits l))%nat) links O in
  ret (mkStats total active expired clicks).

(* ===================================================================== *)
(** * Notions used in the statements *)
(* ===================================================================== *)

(** What may follow a token of digits without being read into it. *)
Definition no_digit_ahead (rest : jsstring) : Prop :=
  match rest with
  | [] => True
  | c :: _ => is_digit c = false
  end.

(** What may follow a number without being read into it. *)
Definition number_ends (rest : jsstring) : Prop :=
  match rest with
  | [] => True
  | c :: _ => is_digit c = false /\ c <> 46%N /\ c <> 101%N /\ c <> 69%N
  end.

(** The integers that a double holds exactly. *)
Definition safe_integer (z : Z) : Prop :=
  (Z.abs z <= 9007199254740992)%Z.

(** The names of an object as [object_of_members] leaves them: distinct, and
    none that would have been put before an earlier one. *)
Fixpoint keys_ok (keys : list jsstring) : bool :=
  match keys with
  | [] => true
  | k :: keys' =>
      forallb (fun k' => negb (str_eqb k' k) && negb (goes_before k' k)) keys'
      && keys_ok keys'
  end.

(** The values that a JSON text holds exactly: the numbers are safe
    integers, and the names of every object are distinct and in enumeration
    order. *)
#[local] Unset Elimination Schemes.
Inductive json_exact : value -> Prop :=
| exact_null : json_exact VNull
| exact_bool b : json_exact (VBool b)
| exact_num z : safe_integer z -> json_exact (VNum (NInt z))
| exact_str s : json_exact (VStr s)
| exact_arr items : Forall json_exact items -> json_exact (VArr items)
| exact_obj props :
    keys_ok (List.map fst props) = true ->
    Forall (fun kv => json_exact (snd kv)) props ->
    json_exact (VObj props).
#[local] Set Elimination Schemes.

(** Calls of the parser that reading a value back takes. *)
Fixpoint weight (v : value) : nat :=
  match v with
  | VArr items => S (list_sum (List.map (fun x => S (weight x)) items))
  | VObj props =>
      S (list_sum (List.map (fun kv => S (weight (snd kv))) props))
  | _ => 1
  end.

(** A text is JSON for the value [v] when the parser reads [v] off it, with
    some fuel, and only white space is left. *)
Definition json_text (text : jsstring) (v : value) : Prop :=
  exists fuel r, parse_value fuel text = Some (v, r) /\ skip_ws r = [].

(** The numbers of a well-formed record are integer timestamps that a double
    holds exactly. *)
Definition well_formed_visit (v : VisitRecord) : Prop := safe_integer (ts v).

Definition well_formed_link (l : LinkRecord) : Prop :=
  safe_integer (createdAt l)
  /\ match expiryTs l with
     | None => True
     | Some (NInt z) => safe_integer z
     | Some _ => False
     end
  /\ Forall well_formed_visit (visits l).

Definition well_formed (links : list LinkRecord) : Prop :=
  Forall well_formed_link links.

(** The visit that [handleRedirect] logs in the browser [w]. *)
Definition visit_now (w : World) : VisitRecord :=
  mkVisit (clock w (ticks w))
    (str_or (document_referrer w) (js "(direct)"))
    (os_family (toLowerCase (navigator_userAgent w)))
    (str_or (navigator_language w) (js "en"))
    (str_or (resolved_timeZone w) (js "UTC"))
    (dimension (screen_width w) ++ 120%N :: dimension (screen_height w)).

(** A record with one more visit at the end of its [visits]. *)
Definition log_visit (v : VisitRecord) (l : LinkRecord) : LinkRecord :=
  mkLink (code l) (longUrl l) (createdAt l) (expiryTs l) (visits l ++ [v]).

(** The reasons for which a row is refused: the URL is not an http or https
    URL; a validity is given and is not a positive integer; a preferred code
    is given and nothing of it is left by [sanitizeCode], or it is, up to
    letter case, the code of a record of the store. *)
Definition invalid_row (URL_protocol : jsstring -> option jsstring)
  (StringToNumber : jsstring -> number) (links : list LinkRecord) (r : Row)
  : Prop :=
  isValidUrl URL_protocol (row_longUrl r) = false
  \/ (row_validityMinutes r <> []
      /\ forall z, StringToNumber (row_validityMinutes r) = NInt z ->
                   (z <= 0)%Z)
  \/ (row_preferredCode r <> []
      /\ (sanitizeCode (row_preferredCode r) = []
          \/ exists l,
               In l links
               /\ toLowerCase (sanitizeCode (row_preferredCode r))
                  = toLowerCase (code l))).

(* ===================================================================== *)
(** * The data of the examples *)
(* ===================================================================== *)

(** JSON text written with apostrophes for its quotation marks. *)
Definition json (s : string) : jsstring :=
  List.map (fun c => if (c =? 39)%N then 34%N else c) (js s).

(** A browser with [stored] in the slot of the program and [hash] as the
    navigation fragment. *)
Definition example_browser (stored : option jsstring) (hash : jsstring)
  : World :=
  mkWorld (fun k => if str_eqb k STORAGE_KEY then stored else None)
    hash [] (js "Mozilla/5.0 (X11; Linux x86_64)") (js "en-US")
    (js "Europe/Paris") (Some 1920%N) (Some 1080%N)
    (fun n => (1700000000000 + Z.of_nat n)%Z) 0
    (fun n => N.of_nat n) 0 [] [].

Definition example_visit : VisitRecord :=
  mkVisit 1700000100000 (js "(direct)") (js "macOS") (js "en-US")
    (js "America/New_York") (js "1920x1080").

Definition example_links : list LinkRecord :=
  [ mkLink (js "abc123") (js "https://example.com/page") 1700000000000
      (Some (NInt 1700003600000)) [example_visit];
    mkLink (js "AbC123") (js "https://example.org/") 1700000000001 None [] ].

(** The text of [example_links] in the slot. *)
Definition example_store : jsstring :=
  JSON_stringify (links_value example_links).

(** A platform: a URL parser that drops the white space around its input,
    knows the two schemes and nothing else of a URL, and a [Number] that
    reads strings of decimal digits only. *)
Definition scheme_only (u : jsstring) : option jsstring :=
  match starts_with (js "https://") (trim u),
        starts_with (js "http://") (trim u) with
  | Some _, _ => Some (js "https:")
  | None, Some _ => Some (js "http:")
  | None, None => None
  end.

Definition decimal_only (s : jsstring) : number :=
  match read_uint s with
  | (Decimal.Nil, _) => NNaN
  | (u, []) => NInt (Z.of_N (N.of_uint u))
  | (_, _ :: _) => NNaN
  end.

(** Two rows that ask for the same code. *)
Definition duplicate_rows : list Row :=
  [ mkRow (js "https://example.com/a") [] (js "abc") no_errors;
    mkRow (js "https://example.com/b") [] (js "abc") no_errors ].

(** A store with one record, and a row that asks for its code in another
    letter case. *)
Definition mixed_case_store : list LinkRecord :=
  [ mkLink (js "AbC123") (js "https://example.org/") 1700000000001 None [] ].

Definition taken_row : Row :=
  mkRow (js "https://example.com/c") (js "30") (js "abc123") no_errors.

Definition fine_row : Row :=
  mkRow (js "https://example.com/d") (js "30") [] no_errors.

(* ===================================================================== *)
(** * App.jsx: the form, the page load and the rendered links *)
(* ===================================================================== *)

(** The keys a change of the form sets in a row: in [{...row, ...patch}] a
    key of [patch] replaces the key of [row], the other keys of [row]
    stay. *)
Record Patch : Type := mkPatch {
  patch_longUrl : option jsstring;
  patch_validityMinutes : option jsstring;
  patch_preferredCode : option jsstring;
  patch_errors : option Errors
}.

Definition spread (row : Row) (patch : Patch) : Row :=
  mkRow
    (match patch_longUrl patch with Some v => v | None => row_longUrl row end)
    (match patch_validityMinutes patch with
     | Some v => v
     | None => row_validityMinutes row
     end)
    (match patch_preferredCode patch with
     | Some v => v
     | None => row_preferredCode row
     end)
    (match patch_errors patch with Some e => e | None => row_errors row end).

(** [r.map((row, idx) => f(row, idx))], counting from [idx]. *)
Fixpoint map_indexed {A B : Type} (f : A -> nat -> B) (l : list A) (idx : nat)
  : list B :=
  match l with
  | [] => []
  | a :: l' => f a idx :: map_indexed f l' (S idx)
  end.

(** [r.filter((row, idx) => keep(row, idx))], counting from [idx]. *)
Fixpoint filter_indexed {A : Type} (keep : A -> nat -> bool) (l : list A)
  (idx : nat) : list A :=
  match l with
  | [] => []
  | a :: l' =>
      if keep a idx then a :: filter_indexed keep l' (S idx)
      else filter_indexed keep l' (S idx)
  end.

Definition setRow (i : nat) (patch : Patch) (app : AppState) : AppState :=
  mkApp (links app)
    (map_indexed
       (fun row idx => if Nat.eqb idx i then spread row patch else row)
       (rows app) 0)
    (createdBatch app) (creating app).

Definition addRow (app : AppState) : AppState :=
  if Nat.ltb (List.length (rows app)) 5
  then mkApp (links app) (rows app ++ [blank_row]) (createdBatch app)
         (creating app)
  else app.

Definition removeRow (i : nat) (app : AppState) : AppState :=
  mkApp (links app)
    (filter_indexed (fun _ idx => negb (Nat.eqb idx i)) (rows app) 0)
    (createdBatch app) (creating app).

(** The address under which a created link is shown, [`#/r/${l.code}`]. *)
Definition short_link (l : LinkRecord) : jsstring := js "#/r/" ++ code l.

(** The first render of [App] and the effects that follow it.  The state
    [links] is what [loadLinks] returns during the render; the two effects
    then run in the order of the source, [handleRedirect()] and
    [saveLinks(links)], and the second does not run when the first
    throws. *)
Definition App_mount : M value :=
  links <- loadLinks ;;
  handleRedirect ;;
  saveLinks links ;;
  ret links.

(** A code as the store is meant to hold it: not empty, and made of the
    characters that [sanitizeCode] keeps. *)
Definition valid_code (c : jsstring) : bool :=
  nonempty c && forallb is_code_char c.

(** The state of [App] as the component holds it.  [links] is the value
    that [loadLinks] returned at the first render, whatever it is, with the
    records created since then put before its items. *)
Record PageState : Type := mkPage {
  page_links : value;
  page_rows : list Row;
  page_createdBatch : list LinkRecord;
  page_creating : bool
}.

(** [l.code.toLowerCase()] on an item of the collection.  Reading [code]
    off [null] throws, and so does the call of [toLowerCase] on what is not
    a string: a missing [code], a number, [null]. *)
Definition lower_code (l : value) : outcome jsstring :=
  match get l (js "code") with
  | Some (VStr c) => Returned (toLowerCase c)
  | _ => Thrown TypeError
  end.

(** [items.map(l => l.code.toLowerCase())]. *)
Fixpoint lower_codes (items : list value) : outcome (list jsstring) :=
  match items with
  | [] => Returned []
  | l :: items' =>
      match lower_code l with
      | Returned c =>
          match lower_codes items' with
          | Returned cs => Returned (c :: cs)
          | Thrown e => Thrown e
          end
      | Thrown e => Thrown e
      end
  end.

(** An item with a string as its [code], and a collection of such items:
    the values on which the first line of [onSubmit] does not throw. *)
Definition has_string_code (l : value) : bool :=
  match get l (js "code") with
  | Some (VStr _) => true
  | _ => false
  end.

Definition with_codes (links : value) : bool :=
  match links with
  | VArr items => forallb has_string_code items
  | _ => false
  end.

(** An item whose code is a code as the program makes them. *)
Definition item_code_ok (l : value) : bool :=
  match get l (js "code") with
  | Some (VStr c) => valid_code c
  | _ => false
  end.

(** The part of the state that the three row handlers work on, and the
    state with that part put back: they neither read nor write [links]. *)
Definition form_of (p : PageState) : AppState :=
  mkApp [] (page_rows p) (page_createdBatch p) (page_creating p).

Definition with_form (p : PageState) (app : AppState) : PageState :=
  mkPage (page_links p) (rows app) (createdBatch app) (creating app).

(** What the user does with the form.  The events are handled one after the
    other, a submission to its end before the next event. *)
Inductive event : Type :=
| EvSetRow (i : nat) (patch : Patch)
| EvAddRow
| EvRemoveRow (i : nat)
| EvSubmit.

(** What the page offers in a state: an input of a row that is shown,
    [Add another] below five rows, [Remove] on a row that is shown when
    there are two rows or more, [Create] unless a creation is under way. *)
Definition offered (ev : event) (p : PageState) : bool :=
  match ev with
  | EvSetRow i _ => Nat.ltb i (List.length (page_rows p))
  | EvAddRow => Nat.ltb (List.length (page_rows p)) 5
  | EvRemoveRow i =>
      Nat.ltb 1 (List.length (page_rows p))
      && Nat.ltb i (List.length (page_rows p))
  | EvSubmit => negb (page_creating p)
  end.

Section Events.

Variable URL_protocol : jsstring -> option jsstring.
Variable StringToNumber : jsstring -> number.

(** [onSubmit] on the state of the page.  Its first line,
    [new Set(links.map(l => l.code.toLowerCase()))], throws when [links] is
    no array ([map] is missing) and when an item has no string as its
    [code]; nothing has been done by then.  [[...created, ...links]] puts
    the new records before the items.  The effect [saveLinks(links)] that
    React runs once [setLinks] has changed [links] is part of the run; the
    readings of the clock that the render before it takes for the
    statistics are left out. *)
Definition onSubmit_page (p : PageState) : M PageState :=
  match page_links p with
  | VArr items =>
      match lower_codes items with
      | Returned existing =>
          let validated :=
            List.map
              (fun r =>
                 mkRow (row_longUrl r) (row_validityMinutes r)
                   (row_preferredCode r)
                   (validate URL_protocol StringToNumber r existing))
              (page_rows p) in
          if existsb (fun r => has_errors (row_errors r)) validated then
            alert (js "Fix errors first.") ;;
            ret (mkPage (page_links p) validated (page_createdBatch p)
                   (page_creating p))
          else
            let batch := List.map (batch_item StringToNumber) validated in
            created <- submitToBackend batch ;;
            let links' := VArr (List.map link_value created ++ items) in
            saveLinks links' ;;
            ret (mkPage links' [blank_row] created false)
      | Thrown e => throw e
      end
  | _ => throw TypeError
  end.

Definition handle (ev : event) (p : PageState) : M PageState :=
  match ev with
  | EvSetRow i patch => ret (with_form p (setRow i patch (form_of p)))
  | EvAddRow => ret (with_form p (addRow (form_of p)))
  | EvRemoveRow i => ret (with_form p (removeRow i (form_of p)))
  | EvSubmit => onSubmit_page p
  end.

Fixpoint handle_all (evs : list event) (p : PageState) : M PageState :=
  match evs with
  | [] => ret p
  | ev :: evs' => p' <- handle ev p ;; handle_all evs' p'
  end.

(** Every event is offered in the state it meets. *)
Fixpoint all_offered (evs : list event) (p : PageState) (w : World)
  : bool :=
  match evs with
  | [] => true
  | ev :: evs' =>
      offered ev p
      && match handle ev p w with
         | (Returned p', w') => all_offered evs' p' w'
         | (Thrown _, _) => false
         end
  end.

End Events.

(** The browser after [t] more readings of the clock and [d] more random
    bytes. *)
Definition advance (t d : nat) (w : World) : World :=
  mkWorld (localStorage w) (location_hash w) (document_referrer w)
    (navigator_userAgent w) (navigator_language w) (resolved_timeZone w)
    (screen_width w) (screen_height w) (clock w) (t + ticks w) (entropy w)
    (d + drawn w) (navigations w) (alerts w).

(** The browser with another navigation fragment. *)
Definition with_hash (hash : jsstring) (w : World) : World :=
  mkWorld (localStorage w) hash (document_referrer w)
    (navigator_userAgent w) (navigator_language w) (resolved_timeZone w)
    (screen_width w) (screen_height w) (clock w) (ticks w) (entropy w)
    (drawn w) (navigations w) (alerts w).

(** The state of the page whose [links] are a collection of records. *)
Definition page_of (app : AppState) : PageState :=
  mkPage (links_value (links app)) (rows app) (createdBatch app)
    (creating app).

(** The state of [App] after the first render, over the value loaded. *)
Definition initial_page (links : value) : PageState :=
  mkPage links [blank_row] [] false.

(** One of the 62 characters of [randomCode]. *)
Definition is_random_char (c : N) : bool := existsb (N.eqb c) chars.

(** The record that [submitToBackend] makes of an item at clock reading
    [t]: the code is the preferred one, or six of the letters and digits of
    [randomCode]. *)
Definition created_from (item : BatchItem) (t : Z) (l : LinkRecord) : Prop :=
  longUrl l = item_longUrl item
  /\ createdAt l = t
  /\ visits l = []
  /\ expiryTs l
     = match item_validityMinutes item with
       | Some v => if num_truthy v then Some (num_scale_add t v 60000) else None
       | None => None
       end
  /\ match item_preferredCode item with
     | Some p =>
         if nonempty p then code l = p
         else List.length (code l) = 6%nat
              /\ forallb is_random_char (code l) = true
     | None =>
         List.length (code l) = 6%nat /\ forallb is_random_char (code l) = true
     end.


(** The browser with another source of random bytes. *)
Definition with_entropy (bytes : nat -> N) (w : World) : World :=
  mkWorld (localStorage w) (location_hash w) (document_referrer w)
    (navigator_userAgent w) (navigator_language w) (resolved_timeZone w)
    (screen_width w) (screen_height w) (clock w) (ticks w) bytes
    (drawn w) (navigations w) (alerts w).

(** The place of the first [c] in [l]. *)
Fixpoint index_of (c : N) (l : jsstring) : nat :=
  match l with
  | [] => O
  | d :: l' => if N.eqb d c then O else S (index_of c l')
  end.

(** Random bytes that spell [s] from the byte number [from] on. *)
Definition bytes_for (s : jsstring) (from : nat) : nat -> N :=
  fun n => N.of_nat (index_of (nth (n - from) s 0%N) chars).

(** A record whose validity of one minute ended long before the clock of
    the examples starts, and the store that holds it. *)
Definition expired_link : LinkRecord :=
  mkLink (js "old001") (js "https://example.com/old") 1600000000000
    (Some (NInt 1600000060000)) [].

Definition expired_store : jsstring :=
  JSON_stringify (links_value [expired_link]).

(* ===================================================================== *)
(** * Induction on values *)
(* ===================================================================== *)

Section ValueInduction.

Variable P : value -> Prop.
Hypothesis Hnull : P VNull.
Hypothesis Hbool : forall b, P (VBool b).
Hypothesis Hnum : forall n, P (VNum n).
Hypothesis Hstr : forall s, P (VStr s).
Hypothesis Harr : forall items, Forall P items -> P (VArr items).
Hypothesis Hobj :
  forall props, Forall (fun kv => P (snd kv)) props -> P (VObj props).

Fixpoint value_induction (v : value) : P v :=
  match v with
  | VNull => Hnull
  | VBool b => Hbool b
  | VNum n => Hnum n
  | VStr s => Hstr s
  | VArr items =>
      Harr
        ((fix all (l : list value) : Forall P l :=
            match l with
            | [] => Forall_nil P
            | x :: l' => Forall_cons x (value_induction x) (all l')
            end) items)
  | VObj props =>
      Hobj
        ((fix all (l : list (jsstring * value))
            : Forall (fun kv => P (snd kv)) l :=
            match l with
            | [] => Forall_nil _
            | kv :: l' =>
                Forall_cons kv (value_induction (snd kv)) (all l')
            end) props)
  end.

End ValueInduction.

(* ===================================================================== *)
(** * Strings and digits: basic facts *)
(* ===================================================================== *)

Lemma str_eqb_refl (s : jsstring) : str_eqb s s = true.
Proof.
  induction s as [|c s IH]; simpl; [reflexivity|].
  now rewrite N.eqb_refl, IH.
Qed.

Lemma str_eqb_eq (a b : jsstring) : str_eqb a b = true <-> a = b.
Proof.
  split.
  - revert b. induction a as [|x a IH]; intros [|y b] H; simpl in H;
      try discriminate; [reflexivity|].
    apply andb_true_iff in H. destruct H as [Hx Hab].
    apply N.eqb_eq in Hx. subst y. f_equal. now apply IH.
  - intros ->. apply str_eqb_refl.
Qed.

Lemma str_eqb_neq (a b : jsstring) : str_eqb a b = false <-> a <> b.
Proof.
  split.
  - intros H E. apply str_eqb_eq in E. congruence.
  - intro H. destruct (str_eqb a b) eqn:E; [|reflexivity].
    apply str_eqb_eq in E. contradiction.
Qed.

Lemma read_uint_stop (rest : jsstring) :
  no_digit_ahead rest -> read_uint rest = (Decimal.Nil, rest).
Proof.
  destruct rest as [|c r]; simpl; [reflexivity|]. now intros ->.
Qed.

Lemma read_uint_chars (u : Decimal.uint) (rest : jsstring) :
  no_digit_ahead rest -> read_uint (uint_chars u ++ rest) = (u, rest).
Proof.
  intro H. induction u; simpl; try rewrite IHu; try reflexivity.
  now apply read_uint_stop.
Qed.

Lemma to_uint_unorm (n : N) : Decimal.unorm (N.to_uint n) = N.to_uint n.
Proof.
  rewrite <- (DecimalN.Unsigned.of_to n) at 2.
  now rewrite DecimalN.Unsigned.to_of.
Qed.

(** The digits of a number start with a digit; it is zero only for zero. *)
Lemma digits_head (n : N) :
  exists c tl, digits n = c :: tl /\ is_digit c = true
               /\ (c = 48%N -> n = 0%N).
Proof.
  unfold digits. pose proof (to_uint_unorm n) as Hn.
  destruct (N.to_uint n) as [|u|u|u|u|u|u|u|u|u|u] eqn:E; simpl;
    try (eexists; eexists; split; [reflexivity|split; [reflexivity|]];
         discriminate).
  - exfalso. revert Hn. apply unorm_nonnil.
  - eexists; eexists; split; [reflexivity|split; [reflexivity|]].
    intros _. rewrite unorm_D0 in Hn.
    assert (Hz : Decimal.nzhead u = Decimal.Nil).
    { unfold Decimal.unorm in Hn. destruct (Decimal.nzhead u) eqn:Eh;
        try reflexivity; exfalso; revert Eh; rewrite Hn;
        apply nzhead_nonzero. }
    rewrite <- (DecimalN.Unsigned.of_to n), E.
    change (N.of_uint (Decimal.D0 u)) with (N.of_uint u).
    rewrite <- DecimalN.Unsigned.of_uint_norm.
    unfold Decimal.unorm. now rewrite Hz.
Qed.

Lemma of_uint_acc_lower (u : Decimal.uint) (acc : positive) :
  (Npos acc * 10 ^ N.of_nat (Decimal.nb_digits u)
   <= Npos (Pos.of_uint_acc u acc))%N.
Proof.
  revert acc. induction u; intro acc; cbn [Pos.of_uint_acc Decimal.nb_digits];
    [rewrite N.pow_0_r; lia | ..].
  all: etransitivity; [|apply IHu].
  all: rewrite Nat2N.inj_succ, N.pow_succ_r', N.mul_assoc.
  all: apply N.mul_le_mono_r; lia.
Qed.

(** A number with [S d] digits is at least [10^d]. *)
Lemma digits_lower (n : N) :
  n <> 0%N -> (10 ^ N.of_nat (Nat.pred (List.length (digits n))) <= n)%N.
Proof.
  intro Hn.
  assert (Hlen : forall u, List.length (uint_chars u) = Decimal.nb_digits u)
    by (induction u; simpl; congruence).
  destruct (digits_head n) as (c & tl & E & _ & Hz).
  unfold digits in *. rewrite Hlen.
  rewrite <- (DecimalN.Unsigned.of_to n) at 2.
  destruct (N.to_uint n) as [|u|u|u|u|u|u|u|u|u|u]; simpl in E;
    inversion E; subst c;
    try (cbn [Decimal.nb_digits Nat.pred N.of_uint];
         etransitivity; [|apply of_uint_acc_lower]; lia).
  now elim Hn; apply Hz.
Qed.

Lemma digits_length (n : N) :
  (n < 10 ^ 21)%N -> (List.length (digits n) <= 21)%nat.
Proof.
  intro H. destruct (N.eq_dec n 0) as [->|Hn]; [cbn; lia|].
  pose proof (digits_lower Hn) as L.
  destruct (le_lt_dec (List.length (digits n)) 21) as [|Hgt]; [assumption|].
  exfalso. apply (N.lt_irrefl n).
  eapply N.lt_le_trans; [exact H|]. etransitivity; [|exact L].
  apply N.pow_le_mono_r; lia.
Qed.

(* ===================================================================== *)
(** * JSON: what is written is read back *)
(* ===================================================================== *)

Lemma number_ends_no_digit (rest : jsstring) :
  number_ends rest -> no_digit_ahead rest.
Proof. destruct rest; simpl; tauto. Qed.

Lemma read_fraction_none (rest : jsstring) :
  number_ends rest -> read_fraction rest = Some (Decimal.Nil, rest).
Proof.
  destruct rest as [|c r]; simpl; [reflexivity|].
  intros (_ & H & _). apply N.eqb_neq in H. now rewrite H.
Qed.

Lemma read_exponent_none (rest : jsstring) :
  number_ends rest -> read_exponent rest = Some (0%Z, rest).
Proof.
  destruct rest as [|c r]; simpl; [reflexivity|].
  intros (_ & _ & H1 & H2). apply N.eqb_neq in H1, H2.
  now rewrite H1, H2.
Qed.

Lemma number_to_string_safe (z : Z) :
  safe_integer z -> number_to_string (NInt z) = signed_digits z.
Proof.
  intro H. unfold number_to_string.
  assert (L : (List.length (digits (Z.abs_N z)) <= 21)%nat).
  { apply digits_length. unfold safe_integer in H.
    change (10 ^ 21)%N with 1000000000000000000000%N. lia. }
  apply Nat.leb_le in L. now rewrite L.
Qed.

Lemma digit_not_minus (c : N) : is_digit c = true -> (c =? 45)%N = false.
Proof.
  intro Hd. apply N.eqb_neq. intros ->. discriminate.
Qed.

Lemma read_unsigned_digits (negative : bool) (n : N) (rest : jsstring) :
  number_ends rest ->
  read_unsigned negative (digits n ++ rest)
  = Some (NInt (if negative then - Z.of_N n else Z.of_N n), rest).
Proof.
  intro Hr. destruct (digits_head n) as (c & tl & E & Hd & Hz).
  unfold read_unsigned. rewrite E. cbn [app]. rewrite Hd.
  destruct (N.eqb_spec c 48) as [Hc|Hc].
  - specialize (Hz Hc). subst n. cbn in E. inversion E; subst. cbn [app].
    rewrite (read_fraction_none _ Hr), (read_exponent_none _ Hr).
    now destruct negative.
  - change (c :: tl ++ rest) with ((c :: tl) ++ rest). rewrite <- E.
    unfold digits. rewrite read_uint_chars by now apply number_ends_no_digit.
    rewrite (read_fraction_none _ Hr), (read_exponent_none _ Hr).
    rewrite DecimalFacts.app_nil_r, DecimalN.Unsigned.of_to.
    cbn [Decimal.nb_digits Z.of_nat]. unfold mk_number.
    assert (Hn : n <> 0%N).
    { intros ->. cbn in E. inversion E. congruence. }
    destruct negative.
    + destruct (Z.eqb_spec (- Z.of_N n) 0) as [H0|H0]; [lia|].
      cbn. now rewrite Z.mul_1_r.
    + destruct (Z.eqb_spec (Z.of_N n) 0) as [H0|H0]; [lia|].
      cbn. now rewrite Z.mul_1_r.
Qed.

Lemma read_number_string (z : Z) (rest : jsstring) :
  number_ends rest ->
  read_number (signed_digits z ++ rest) = Some (NInt z, rest).
Proof.
  intro Hr. unfold signed_digits, read_number.
  destruct (Z.ltb_spec z 0) as [Hneg|Hpos].
  - cbn [app]. rewrite N.eqb_refl, read_unsigned_digits by assumption.
    do 3 f_equal. lia.
  - destruct (digits_head (Z.abs_N z)) as (c & tl & E & Hd & _).
    cbn [app]. rewrite E. cbn [app]. rewrite (digit_not_minus _ Hd).
    change (c :: tl ++ rest) with ((c :: tl) ++ rest). rewrite <- E.
    rewrite read_unsigned_digits by assumption. do 3 f_equal. lia.
Qed.

Lemma hex_value_digit (d : N) :
  (d < 16)%N -> hex_value (hex_digit d) = Some d.
Proof.
  intro H. unfold hex_digit, hex_value.
  destruct (N.ltb_spec d 10) as [L|L].
  - replace ((48 <=? 48 + d) && (48 + d <=? 57))%N with true.
    + f_equal. lia.
    + symmetry. apply andb_true_iff. split; apply N.leb_le; lia.
  - replace (87 + d <=? 57)%N with false by (symmetry; apply N.leb_gt; lia).
    rewrite andb_false_r.
    replace ((97 <=? 87 + d) && (87 + d <=? 102))%N with true.
    + f_equal. lia.
    + symmetry. apply andb_true_iff. split; apply N.leb_le; lia.
Qed.

Lemma hex4_escape (c : N) :
  (c < 65536)%N ->
  hex4 (hex_digit (N.shiftr c 12 mod 16)) (hex_digit (N.shiftr c 8 mod 16))
       (hex_digit (N.shiftr c 4 mod 16)) (hex_digit (c mod 16))
  = Some c.
Proof.
  intro H. unfold hex4.
  rewrite !hex_value_digit by (apply N.mod_lt; discriminate).
  f_equal. rewrite !N.shiftr_div_pow2.
  change (2 ^ 12)%N with 4096%N. change (2 ^ 8)%N with 256%N.
  change (2 ^ 4)%N with 16%N.
  pose proof (N.div_mod c 16 ltac:(discriminate)).
  pose proof (N.div_mod (c / 16) 16 ltac:(discriminate)).
  pose proof (N.div_mod (c / 16 / 16) 16 ltac:(discriminate)).
  pose proof (N.mod_lt c 16 ltac:(discriminate)).
  pose proof (N.mod_lt (c / 16) 16 ltac:(discriminate)).
  pose proof (N.mod_lt (c / 16 / 16) 16 ltac:(discriminate)).
  assert (E1 : (c / 256 = c / 16 / 16)%N) by (now rewrite N.Div0.div_div).
  assert (E2 : (c / 4096 = c / 16 / 16 / 16)%N)
    by (now rewrite !N.Div0.div_div).
  assert (E3 : (c / 16 / 16 / 16 < 16)%N).
  { rewrite <- E2. apply N.Div0.div_lt_upper_bound. exact H. }
  rewrite E1, E2, (N.mod_small _ _ E3).
  lia.
Qed.

Lemma read_string_unit (paired : bool) (c : N) (tail : jsstring) :
  read_string (quote_unit paired c ++ tail) = prepend c (read_string tail).
Proof.
  assert (Hesc : (c < 65536)%N ->
    read_string (unicode_escape c ++ tail) = prepend c (read_string tail)).
  { intro H. unfold unicode_escape. cbn [app read_string N.eqb Pos.eqb].
    now rewrite hex4_escape. }
  unfold quote_unit.
  destruct (N.eqb_spec c 8) as [->|H8]; [reflexivity|].
  destruct (N.eqb_spec c 9) as [->|H9]; [reflexivity|].
  destruct (N.eqb_spec c 10) as [->|H10]; [reflexivity|].
  destruct (N.eqb_spec c 12) as [->|H12]; [reflexivity|].
  destruct (N.eqb_spec c 13) as [->|H13]; [reflexivity|].
  destruct (N.eqb_spec c 34) as [->|H34]; [reflexivity|].
  destruct (N.eqb_spec c 92) as [->|H92]; [reflexivity|].
  destruct (N.ltb_spec c 32) as [L|L]; [apply Hesc; lia|].
  assert (Hraw : read_string ([c] ++ tail) = prepend c (read_string tail)).
  { cbn [app read_string]. apply N.eqb_neq in H34, H92.
    apply N.ltb_ge in L. now rewrite H34, H92, L. }
  destruct ((is_lead c || is_trail c) && negb paired) eqn:S; [|exact Hraw].
  apply Hesc. apply andb_true_iff in S. destruct S as [S _].
  unfold is_lead, is_trail in S.
  apply orb_true_iff in S. destruct S as [S|S];
    apply andb_true_iff in S; destruct S as [_ S]; apply N.leb_le in S; lia.
Qed.

Lemma read_string_units (after_lead : bool) (s rest : jsstring) :
  read_string (quote_units after_lead s ++ 34%N :: rest) = Some (s, rest).
Proof.
  revert after_lead. induction s as [|c s IH]; intro after_lead.
  - reflexivity.
  - cbn [quote_units]. rewrite <- app_assoc, read_string_unit, IH.
    reflexivity.
Qed.

Lemma read_string_quote (s rest : jsstring) :
  exists tl, quote s ++ rest = 34%N :: tl /\ read_string tl = Some (s, rest).
Proof.
  eexists. split.
  - unfold quote. cbn [app]. rewrite <- app_assoc. reflexivity.
  - apply read_string_units.
Qed.

(** ** Objects *)

Lemma keys_ok_later (l1 l2 : list jsstring) (k : jsstring) :
  keys_ok (l1 ++ k :: l2) = true ->
  Forall (fun k1 => str_eqb k k1 = false /\ goes_before k k1 = false) l1.
Proof.
  induction l1 as [|k1 l1 IH]; simpl; intro H; constructor.
  - apply andb_true_iff in H. destruct H as [H _].
    rewrite forallb_app in H. apply andb_true_iff in H. destruct H as [_ H].
    simpl in H. apply andb_true_iff in H. destruct H as [H _].
    apply andb_true_iff in H. now rewrite !negb_true_iff in H.
  - apply IH. apply andb_true_iff in H. tauto.
Qed.

Lemma define_prop_last (props : list (jsstring * value))
  (kv : jsstring * value) :
  Forall (fun k1 => str_eqb (fst kv) k1 = false
                    /\ goes_before (fst kv) k1 = false) (List.map fst props) ->
  define_prop props kv = props ++ [kv].
Proof.
  destruct kv as [k v]. unfold define_prop. cbn [fst snd].
  induction props as [|[k1 v1] props IH]; intro H; [reflexivity|].
  inversion H as [|? ? [He Hg] Hrest]; subst. cbn [fst] in *.
  specialize (IH Hrest). cbn [lookup]. rewrite He.
  destruct (lookup k props).
  - cbn [replace_prop insert_prop app]. rewrite He. now rewrite IH.
  - cbn [replace_prop insert_prop app]. rewrite Hg. now rewrite IH.
Qed.

Lemma object_of_members_ok (ms : list (jsstring * value)) :
  keys_ok (List.map fst ms) = true -> object_of_members ms = ms.
Proof.
  unfold object_of_members. change ms with ([] ++ ms) at 1 3.
  generalize (@nil (jsstring * value)) as acc.
  induction ms as [|kv ms IH]; intros acc H; cbn [fold_left].
  - now rewrite List.app_nil_r.
  - rewrite define_prop_last.
    + replace (acc ++ kv :: ms) with ((acc ++ [kv]) ++ ms)
        by (now rewrite <- app_assoc).
      apply IH. now rewrite <- app_assoc.
    + rewrite map_app in H. cbn [List.map] in H.
      now apply keys_ok_later in H.
Qed.

(** ** Values *)

Lemma signed_digits_head (z : Z) :
  exists c tl, signed_digits z = c :: tl
               /\ (c = 45%N \/ is_digit c = true).
Proof.
  unfold signed_digits. destruct (z <? 0)%Z.
  - eexists; eexists; split; [reflexivity|now left].
  - destruct (digits_head (Z.abs_N z)) as (c & tl & E & Hd & _).
    exists c, tl. split; [exact E|now right].
Qed.

(** The first code unit of a written value: no white space, and none of the
    closing brackets. *)
Lemma stringify_head (v : value) :
  json_exact v ->
  exists c tl, stringify v = c :: tl /\ is_ws c = false
               /\ c <> 93%N /\ c <> 125%N.
Proof.
  intro H. destruct H as [|b|z Hz|s|items Hi|props Hk Hp].
  - eexists; eexists; split; [reflexivity|]. repeat split; discriminate.
  - destruct b; eexists; eexists; (split; [reflexivity|]);
      repeat split; discriminate.
  - cbn [stringify]. rewrite number_to_string_safe by assumption.
    destruct (signed_digits_head z) as (c & tl & E & Hc).
    exists c, tl. split; [exact E|].
    destruct Hc as [->|Hd]; [repeat split; discriminate|].
    unfold is_digit in Hd. apply andb_true_iff in Hd.
    destruct Hd as [L U]. apply N.leb_le in L, U.
    repeat split; try lia. unfold is_ws.
    repeat (apply orb_false_iff; split); apply N.eqb_neq; lia.
  - eexists; eexists; split; [reflexivity|]. repeat split; discriminate.
  - eexists; eexists; split; [reflexivity|]. repeat split; discriminate.
  - eexists; eexists; split; [reflexivity|]. repeat split; discriminate.
Qed.

Lemma skip_ws_head (c : N) (tl : jsstring) :
  is_ws c = false -> skip_ws (c :: tl) = c :: tl.
Proof. intro H. cbn [skip_ws]. now rewrite H. Qed.

Lemma weight_positive (v : value) : (1 <= weight v)%nat.
Proof. destruct v; simpl; lia. Qed.

(** Reading back the elements of an array, given that each of them is read
    back. *)
Lemma parse_elements_join (items : list value) :
  items <> [] ->
  Forall json_exact items ->
  Forall (fun v => forall fuel rest,
            (weight v <= fuel)%nat -> number_ends rest ->
            parse_value fuel (stringify v ++ rest) = Some (v, rest)) items ->
  forall fuel rest,
    (list_sum (List.map (fun x => S (weight x)) items) <= fuel)%nat ->
    parse_elements fuel
      (join_comma (List.map stringify items) ++ 93%N :: rest)
    = Some (items, rest).
Proof.
  induction items as [|x items IH]; [congruence|].
  intros _ Hex Hall fuel rest Hfuel.
  inversion Hex as [|? ? Hx Hex']; subst.
  inversion Hall as [|? ? Hpx Hall']; subst.
  cbn [List.map list_sum fold_right fst snd] in Hfuel.
  destruct fuel as [|fuel]; [lia|]. cbn [parse_elements].
  destruct items as [|y items].
  - cbn [List.map join_comma].
    rewrite Hpx; [|cbn [List.map list_sum fold_right fst snd] in Hfuel; lia
                  |cbn; repeat split; discriminate].
    reflexivity.
  - assert (Hj : join_comma (List.map stringify (x :: y :: items))
                 = stringify x
                     ++ 44%N :: join_comma (List.map stringify (y :: items)))
      by reflexivity.
    rewrite Hj, <- app_assoc. cbn [app].
    rewrite Hpx; [|lia|cbn; repeat split; discriminate].
    cbn [skip_ws is_ws N.eqb Pos.eqb orb].
    rewrite IH; [reflexivity|discriminate|assumption|assumption|].
    pose proof (weight_positive x). unfold list_sum. lia.
Qed.

(** The same for the members of an object. *)
Lemma parse_members_join (props : list (jsstring * value)) :
  props <> [] ->
  Forall (fun kv => forall fuel rest,
            (weight (snd kv) <= fuel)%nat -> number_ends rest ->
            parse_value fuel (stringify (snd kv) ++ rest)
            = Some (snd kv, rest)) props ->
  forall fuel rest,
    (list_sum (List.map (fun kv => S (weight (snd kv))) props) <= fuel)%nat ->
    parse_members fuel
      (join_comma
         (List.map (fun kv => quote (fst kv) ++ 58%N :: stringify (snd kv))
            props) ++ 125%N :: rest)
    = Some (props, rest).
Proof.
  induction props as [|[k v] props IH]; [congruence|].
  intros _ Hall fuel rest Hfuel.
  inversion Hall as [|? ? Hpx Hall']; subst. cbn [fst snd] in *.
  cbn [List.map list_sum fold_right fst snd] in Hfuel.
  destruct fuel as [|fuel]; [lia|]. cbn [parse_members].
  destruct props as [|kv' props].
  - cbn [List.map join_comma fst snd]. rewrite <- app_assoc.
    destruct (read_string_quote k ((58%N :: stringify v) ++ 125%N :: rest))
      as (tl & -> & Hread).
    cbn [skip_ws is_ws N.eqb Pos.eqb orb]. rewrite Hread.
    cbn [app skip_ws is_ws N.eqb Pos.eqb orb].
    rewrite Hpx; [|cbn [List.map list_sum fold_right fst snd] in Hfuel; lia
                  |cbn; repeat split; discriminate].
    reflexivity.
  - assert (Hj : join_comma
                   (List.map
                      (fun kv => quote (fst kv) ++ 58%N :: stringify (snd kv))
                      ((k, v) :: kv' :: props))
                 = (quote k ++ 58%N :: stringify v)
                     ++ 44%N
                     :: join_comma
                          (List.map
                             (fun kv =>
                                quote (fst kv) ++ 58%N :: stringify (snd kv))
                             (kv' :: props)))
      by reflexivity.
    rewrite Hj, <- !app_assoc.
    match goal with
    | |- context [quote k ++ ?r] =>
        destruct (read_string_quote k r) as (tl & -> & Hread)
    end.
    cbn [skip_ws is_ws N.eqb Pos.eqb orb]. rewrite Hread.
    cbn [app skip_ws is_ws N.eqb Pos.eqb orb].
    rewrite Hpx; [|lia|cbn; repeat split; discriminate].
    cbn [skip_ws is_ws N.eqb Pos.eqb orb].
    rewrite IH; [reflexivity|discriminate|assumption|].
    pose proof (weight_positive v). unfold list_sum. lia.
Qed.

Lemma Forall_impl_in {A : Type} (P Q : A -> Prop) (l : list A) :
  Forall P l -> Forall (fun a => P a -> Q a) l -> Forall Q l.
Proof.
  induction 1 as [|a l Ha Hl IH]; intro H; constructor;
    inversion H; subst; auto.
Qed.

Lemma parse_stringify_value (v : value) :
  json_exact v ->
  forall fuel rest,
    (weight v <= fuel)%nat -> number_ends rest ->
    parse_value fuel (stringify v ++ rest) = Some (v, rest).
Proof.
  induction v as [|b|n|s|items IH|props IH] using value_induction;
    intros Hex fuel rest Hfuel Hrest;
    (destruct fuel as [|fuel]; [pose proof (weight_positive VNull);
                                cbn [weight] in Hfuel; lia|]).
  - reflexivity.
  - destruct b; reflexivity.
  - inversion Hex as [| |z Hz| | |]; subst.
    cbn [stringify]. rewrite number_to_string_safe by assumption.
    destruct (signed_digits_head z) as (c & tl & E & Hc).
    pose proof (read_number_string z rest Hrest) as Hread.
    rewrite E in *. cbn [app] in *. cbn [parse_value].
    assert (Hws : is_ws c = false /\ (c =? 34)%N = false
                  /\ (c =? 91)%N = false /\ (c =? 123)%N = false
                  /\ (c =? 110)%N = false /\ (c =? 116)%N = false
                  /\ (c =? 102)%N = false).
    { destruct Hc as [->|Hd]; [repeat split|].
      unfold is_digit in Hd. apply andb_true_iff in Hd.
      destruct Hd as [L U]. apply N.leb_le in L, U.
      unfold is_ws. repeat split;
        repeat (apply orb_false_iff; split); apply N.eqb_neq; lia. }
    destruct Hws as (W & H1 & H2 & H3 & H4 & H5 & H6).
    rewrite (skip_ws_head c _ W), H1, H2, H3, H4, H5, H6, Hread. reflexivity.
  - cbn [stringify].
    destruct (read_string_quote s rest) as (tl & -> & Hread).
    cbn [parse_value skip_ws is_ws N.eqb Pos.eqb orb]. now rewrite Hread.
  - inversion Hex as [| | | |? Hitems|]; subst.
    cbn [stringify app]. rewrite <- app_assoc. cbn [app].
    cbn [parse_value skip_ws is_ws N.eqb Pos.eqb orb].
    destruct items as [|x items]; [reflexivity|].
    assert (Hh : exists c tl,
               join_comma (List.map stringify (x :: items)) ++ 93%N :: rest
               = c :: tl /\ is_ws c = false /\ c <> 93%N).
    { inversion Hitems as [|? ? Hx _]; subst.
      destruct (stringify_head Hx) as (c & tl & E & W & N1 & _).
      cbn [List.map join_comma]. rewrite E.
      destruct (List.map stringify items); cbn [app];
        eexists; eexists; (split; [reflexivity|now split]). }
    destruct Hh as (c & tl & E & W & N1).
    rewrite E, (skip_ws_head c _ W). apply N.eqb_neq in N1. rewrite N1.
    rewrite <- E, parse_elements_join; try assumption;
      [reflexivity|discriminate| |cbn [weight] in Hfuel; lia].
    eapply Forall_impl_in; [exact Hitems|]. revert IH. apply Forall_impl.
    intros v Hv; auto.
  - inversion Hex as [| | | | |? Hkeys Hprops]; subst.
    cbn [stringify app]. rewrite <- app_assoc. cbn [app].
    cbn [parse_value skip_ws is_ws N.eqb Pos.eqb orb].
    destruct props as [|[k x] props]; [reflexivity|].
    assert (Hh : exists tl,
               join_comma
                 (List.map
                    (fun kv => quote (fst kv) ++ 58%N :: stringify (snd kv))
                    ((k, x) :: props)) ++ 125%N :: rest
               = 34%N :: tl).
    { cbn [List.map join_comma fst snd]. unfold quote.
      destruct (List.map _ props); cbn [app]; eexists; reflexivity. }
    destruct Hh as (tl & E).
    rewrite E. cbn [skip_ws is_ws N.eqb Pos.eqb orb].
    rewrite <- E, parse_members_join;
      [|discriminate| |cbn [weight] in Hfuel; lia].
    + cbn [wrap]. now rewrite object_of_members_ok.
    + eapply Forall_impl_in; [exact Hprops|]. revert IH. apply Forall_impl.
      intros v Hv; auto.
Qed.

Lemma join_comma_length (parts : list jsstring) :
  parts <> [] ->
  S (List.length (join_comma parts))
  = list_sum (List.map (fun p => S (List.length p)) parts).
Proof.
  unfold list_sum.
  induction parts as [|p parts IH]; [congruence|]. intros _.
  destruct parts as [|q parts].
  - cbn. lia.
  - change (join_comma (p :: q :: parts))
      with (p ++ 44%N :: join_comma (q :: parts)).
    rewrite length_app. cbn [List.length List.map fold_right] in *.
    rewrite <- IH by discriminate. lia.
Qed.

Lemma list_sum_le {A : Type} (f g : A -> nat) (l : list A) :
  Forall (fun a => (f a <= g a)%nat) l ->
  (list_sum (List.map f l) <= list_sum (List.map g l))%nat.
Proof.
  unfold list_sum.
  induction 1 as [|a l Ha Hl IH]; cbn [List.map fold_right]; lia.
Qed.

Lemma weight_length (v : value) :
  json_exact v -> (weight v <= List.length (stringify v))%nat.
Proof.
  induction v as [|b|n|s|items IH|props IH] using value_induction;
    intro Hex.
  - cbn. lia.
  - destruct b; cbn; lia.
  - destruct (stringify_head Hex) as (c & tl & -> & _). cbn. lia.
  - cbn. lia.
  - inversion Hex as [| | | |? Hitems|]; subst.
    cbn [weight stringify List.length]. rewrite length_app.
    destruct items as [|x items]; [cbn; lia|].
    pose proof (@join_comma_length (List.map stringify (x :: items))
                  ltac:(discriminate)) as J.
    rewrite map_map in J.
    pose proof (Forall_impl_in _ Hitems IH) as H.
    assert (L : (list_sum (List.map (fun v => S (weight v)) (x :: items))
                 <= list_sum (List.map (fun v => S (List.length (stringify v)))
                                (x :: items)))%nat).
    { apply list_sum_le. revert H. apply Forall_impl. intros; lia. }
    cbn [List.length]. lia.
  - inversion Hex as [| | | | |? Hkeys Hprops]; subst.
    cbn [weight stringify List.length]. rewrite length_app.
    destruct props as [|kv props]; [cbn; lia|].
    match goal with
    | |- context [join_comma ?parts] =>
        pose proof (@join_comma_length parts ltac:(discriminate)) as J
    end.
    rewrite map_map in J.
    pose proof (Forall_impl_in _ Hprops IH) as H.
    assert (L : (list_sum (List.map (fun kv => S (weight (snd kv)))
                             (kv :: props))
                 <= list_sum
                      (List.map
                         (fun kv =>
                            S (List.length
                                 (quote (fst kv)
                                    ++ 58%N :: stringify (snd kv))))
                         (kv :: props)))%nat).
    { apply list_sum_le. revert H. apply Forall_impl. intros a Ha.
      rewrite length_app. cbn [List.length]. lia. }
    cbn [List.length]. lia.
Qed.

(** [JSON.parse(JSON.stringify(v))] is [v]. *)
Lemma JSON_parse_stringify (v : value) :
  json_exact v -> JSON_parse (JSON_stringify v) = Some v.
Proof.
  intro Hex. unfold JSON_parse, JSON_stringify.
  pose proof (@parse_stringify_value v Hex (S (List.length (stringify v))) [])
    as H.
  rewrite List.app_nil_r in H. rewrite H; [reflexivity| |exact I].
  pose proof (weight_length Hex). lia.
Qed.

(** ** The fuel of the parser *)

Lemma skip_ws_length (s : jsstring) :
  (List.length (skip_ws s) <= List.length s)%nat.
Proof.
  induction s as [|c s IH]; cbn [skip_ws]; [apply Nat.le_refl|].
  destruct (is_ws c); cbn [List.length]; lia.
Qed.

Lemma skip_ws_cons (s r : jsstring) (c : N) :
  skip_ws s = c :: r -> (S (List.length r) <= List.length s)%nat.
Proof.
  intro H. pose proof (skip_ws_length s) as L. rewrite H in L. exact L.
Qed.

Lemma prepend_some {A B : Type} (a : A) (r : option (list A * B))
  (l : list A) (b : B) :
  prepend a r = Some (l, b) -> exists l', r = Some (l', b) /\ l = a :: l'.
Proof.
  destruct r as [[l' b']|]; cbn; [|discriminate].
  intro H. injection H as <- <-. eauto.
Qed.

Lemma wrap_some {A B C : Type} (f : A -> B) (r : option (A * C))
  (y : B) (c : C) :
  wrap f r = Some (y, c) -> exists a, r = Some (a, c) /\ y = f a.
Proof.
  destruct r as [[a c']|]; cbn; [|discriminate].
  intro H. injection H as <- <-. eauto.
Qed.

Lemma read_string_length (s x r : jsstring) :
  read_string s = Some (x, r) -> (List.length r < List.length s)%nat.
Proof.
  remember (List.length s) as n eqn:Hn. revert s x r Hn.
  induction n as [n IH] using lt_wf_ind. intros s x r Hn H.
  destruct s as [|c s]; [discriminate|]. cbn [read_string] in H.
  cbn [List.length] in Hn.
  destruct (c =? 34)%N.
  { injection H as <- <-. lia. }
  destruct (c =? 92)%N.
  - destruct s as [|e s]; [discriminate|].
    destruct (e =? 117)%N.
    + destruct s as [|h1 [|h2 [|h3 [|h4 s]]]]; try discriminate.
      destruct (hex4 h1 h2 h3 h4); [|discriminate].
      apply prepend_some in H. destruct H as (l' & H & _).
      cbn [List.length] in Hn.
      specialize (IH (List.length s) ltac:(lia) s l' r eq_refl H). lia.
    + destruct (unescape e); [|discriminate].
      apply prepend_some in H. destruct H as (l' & H & _).
      cbn [List.length] in Hn.
      specialize (IH (List.length s) ltac:(lia) s l' r eq_refl H). lia.
  - destruct (c <? 32)%N; [discriminate|].
    apply prepend_some in H. destruct H as (l' & H & _).
    specialize (IH (List.length s) ltac:(lia) s l' r eq_refl H). lia.
Qed.

Lemma read_uint_length (s r : jsstring) (u : Decimal.uint) :
  read_uint s = (u, r) -> (List.length r <= List.length s)%nat.
Proof.
  revert u r. induction s as [|c s IH]; intros u r H; cbn [read_uint] in H.
  - injection H as <- <-. apply Nat.le_refl.
  - destruct (is_digit c).
    + destruct (read_uint s) as [u' r'] eqn:E. injection H as <- <-.
      specialize (IH u' r' eq_refl). cbn [List.length]. lia.
    + injection H as <- <-. apply Nat.le_refl.
Qed.

Lemma read_fraction_length (s r : jsstring) (u : Decimal.uint) :
  read_fraction s = Some (u, r) -> (List.length r <= List.length s)%nat.
Proof.
  unfold read_fraction. destruct s as [|c s].
  - intro H. injection H as <- <-. apply Nat.le_refl.
  - destruct (c =? 46)%N.
    + destruct (read_uint s) as [u' r'] eqn:E.
      apply read_uint_length in E.
      destruct u'; intro H; try discriminate; injection H as <- <-;
        cbn [List.length]; lia.
    + intro H. injection H as <- <-. apply Nat.le_refl.
Qed.

Lemma read_exponent_length (s r : jsstring) (e : Z) :
  read_exponent s = Some (e, r) -> (List.length r <= List.length s)%nat.
Proof.
  unfold read_exponent. destruct s as [|c s].
  - intro H. injection H as <- <-. apply Nat.le_refl.
  - destruct ((c =? 101) || (c =? 69))%N.
    + assert (X : forall negative r1,
                 (List.length r1 <= List.length s)%nat ->
                 match read_uint r1 with
                 | (Decimal.Nil, _) => None
                 | (u, r2) =>
                     Some (if negative : bool then (- Z.of_N (N.of_uint u))%Z
                           else Z.of_N (N.of_uint u), r2)
                 end = Some (e, r) ->
                 (List.length r <= List.length (c :: s))%nat).
      { intros negative r1 L H.
        destruct (read_uint r1) as [u' r'] eqn:E.
        apply read_uint_length in E.
        destruct u'; try discriminate; injection H as <- <-;
          cbn [List.length]; lia. }
      destruct s as [|d s']; [apply (X false); apply Nat.le_refl|].
      destruct (d =? 43)%N; [apply (X false); cbn [List.length]; lia|].
      destruct (d =? 45)%N; [apply (X true); cbn [List.length]; lia|].
      apply (X false). apply Nat.le_refl.
    + intro H. injection H as <- <-. apply Nat.le_refl.
Qed.

Lemma read_unsigned_length (negative : bool) (s r : jsstring) (n : number) :
  read_unsigned negative s = Some (n, r) ->
  (List.length r < List.length s)%nat.
Proof.
  unfold read_unsigned. destruct s as [|c s]; [discriminate|].
  destruct (is_digit c) eqn:Hd; [|discriminate].
  assert (X : forall ip s2,
             (List.length s2 <= List.length s)%nat ->
             match read_fraction s2 with
             | None => None
             | Some (frac, s3) =>
                 match read_exponent s3 with
                 | None => None
                 | Some (e, s4) =>
                     let m := Z.of_N (N.of_uint (Decimal.app ip frac)) in
                     Some (mk_number (if negative then (- m)%Z else m)
                             (e - Z.of_nat (Decimal.nb_digits frac)), s4)
                 end
             end = Some (n, r) ->
             (List.length r < List.length (c :: s))%nat).
  { intros ip s2 L H.
    destruct (read_fraction s2) as [[frac s3]|] eqn:Ef; [|discriminate].
    destruct (read_exponent s3) as [[e s4]|] eqn:Ee; [|discriminate].
    apply read_fraction_length in Ef. apply read_exponent_length in Ee.
    injection H as _ <-. cbn [List.length]. lia. }
  destruct (c =? 48)%N; [apply X; apply Nat.le_refl|].
  destruct (read_uint (c :: s)) as [ip s2] eqn:E.
  apply X. cbn [read_uint] in E. rewrite Hd in E.
  destruct (read_uint s) as [u' r'] eqn:E'. injection E as _ <-.
  now apply read_uint_length in E'.
Qed.

Lemma read_number_length (s r : jsstring) (n : number) :
  read_number s = Some (n, r) -> (List.length r < List.length s)%nat.
Proof.
  unfold read_number. destruct s as [|c s]; [discriminate|].
  destruct (c =? 45)%N; intro H; apply read_unsigned_length in H;
    cbn [List.length] in *; lia.
Qed.

Lemma starts_with_length (p s r : jsstring) :
  starts_with p s = Some r ->
  (List.length r + List.length p = List.length s)%nat.
Proof.
  revert s. induction p as [|c p IH]; intros s H; cbn [starts_with] in H.
  - injection H as <-. cbn. lia.
  - destruct s as [|d s]; [discriminate|].
    destruct (c =? d)%N; [|discriminate].
    apply IH in H. cbn [List.length]. lia.
Qed.

Lemma keyword_length (word : string) (v v' : value) (s r : jsstring) :
  word <> EmptyString ->
  keyword word v s = Some (v', r) -> (List.length r < List.length s)%nat.
Proof.
  intros Hw H. unfold keyword in H.
  destruct (starts_with (js word) s) as [r'|] eqn:E; [|discriminate].
  injection H as _ <-. apply starts_with_length in E.
  destruct word; [congruence|]. cbn in E. lia.
Qed.

(** A parse that succeeds consumes text, and succeeds again with as much
    fuel as it consumed. *)
Lemma parse_fuel (fuel : nat) :
  (forall s v r,
     parse_value fuel s = Some (v, r) ->
     (List.length r < List.length s)%nat
     /\ forall fuel', (List.length s - List.length r <= fuel')%nat ->
                      parse_value fuel' s = Some (v, r))
  /\ (forall s vs r,
        parse_elements fuel s = Some (vs, r) ->
        (List.length r < List.length s)%nat
        /\ forall fuel', (List.length s - List.length r <= fuel')%nat ->
                         parse_elements fuel' s = Some (vs, r))
  /\ (forall s ms r,
        parse_members fuel s = Some (ms, r) ->
        (List.length r < List.length s)%nat
        /\ forall fuel', (List.length s - List.length r <= fuel')%nat ->
                         parse_members fuel' s = Some (ms, r)).
Proof.
  induction fuel as [|fuel (IHV & IHE & IHM)];
    [repeat split; discriminate|].
  split; [|split].
  - (* a value *)
    intros s v r H. cbn [parse_value] in H.
    destruct (skip_ws s) as [|c r0] eqn:Es; [discriminate|].
    pose proof (skip_ws_cons _ Es) as Ls.
    assert (Simple :
      (List.length r < List.length (c :: r0))%nat ->
      (forall g, parse_value (S g) s = parse_value (S fuel) s) ->
      (List.length r < List.length s)%nat
      /\ forall fuel', (List.length s - List.length r <= fuel')%nat ->
                       parse_value fuel' s = Some (v, r)).
    { intros L Same. cbn [List.length] in L. split; [lia|].
      intros [|g] Hg; [lia|]. rewrite Same. cbn [parse_value].
      rewrite Es. exact H. }
    destruct (c =? 34)%N eqn:E34.
    { apply Simple.
      - apply wrap_some in H. destruct H as (x & H & _).
        apply read_string_length in H. cbn [List.length]. lia.
      - intro g. cbn [parse_value]. now rewrite Es, E34. }
    destruct (c =? 91)%N eqn:E91.
    { destruct (skip_ws r0) as [|c' r'] eqn:Er; [discriminate|].
      pose proof (skip_ws_cons _ Er) as Lr.
      destruct (c' =? 93)%N eqn:E93.
      - apply Simple.
        + injection H as _ <-. cbn [List.length]. lia.
        + intro g. cbn [parse_value]. now rewrite Es, E34, E91, Er, E93.
      - apply wrap_some in H. destruct H as (vs & H & ->).
        destruct (IHE _ _ _ H) as (L & Again). split; [lia|].
        intros [|g] Hg; [lia|]. cbn [parse_value].
        rewrite Es, E34, E91, Er, E93, Again; [reflexivity|lia]. }
    destruct (c =? 123)%N eqn:E123.
    { destruct (skip_ws r0) as [|c' r'] eqn:Er; [discriminate|].
      pose proof (skip_ws_cons _ Er) as Lr.
      destruct (c' =? 125)%N eqn:E125.
      - apply Simple.
        + injection H as _ <-. cbn [List.length]. lia.
        + intro g. cbn [parse_value].
          now rewrite Es, E34, E91, E123, Er, E125.
      - apply wrap_some in H. destruct H as (ms & H & ->).
        destruct (IHM _ _ _ H) as (L & Again). split; [lia|].
        intros [|g] Hg; [lia|]. cbn [parse_value].
        rewrite Es, E34, E91, E123, Er, E125, Again; [reflexivity|lia]. }
    apply Simple.
    + destruct (c =? 110)%N;
        [apply keyword_length in H; [exact H|discriminate]|].
      destruct (c =? 116)%N;
        [apply keyword_length in H; [exact H|discriminate]|].
      destruct (c =? 102)%N;
        [apply keyword_length in H; [exact H|discriminate]|].
      apply wrap_some in H. destruct H as (n & H & _).
      now apply read_number_length in H.
    + intro g. cbn [parse_value]. now rewrite Es, E34, E91, E123.
  - (* the elements of an array *)
    intros s vs r H. cbn [parse_elements] in H.
    destruct (parse_value fuel s) as [[v s1]|] eqn:Ev; [|discriminate].
    destruct (IHV _ _ _ Ev) as (Lv & Again).
    destruct (skip_ws s1) as [|c s2] eqn:Es; [discriminate|].
    pose proof (skip_ws_cons _ Es) as Ls.
    destruct (c =? 44)%N eqn:E44.
    + apply prepend_some in H. destruct H as (vs' & H & ->).
      destruct (IHE _ _ _ H) as (Le & Again'). split; [lia|].
      intros [|g] Hg; [lia|]. cbn [parse_elements].
      rewrite Again by lia. rewrite Es, E44, Again' by lia. reflexivity.
    + destruct (c =? 93)%N eqn:E93; [|discriminate].
      injection H as <- <-. split; [lia|].
      intros [|g] Hg; [lia|]. cbn [parse_elements].
      rewrite Again by lia. now rewrite Es, E44, E93.
  - (* the members of an object *)
    intros s ms r H. cbn [parse_members] in H.
    destruct (skip_ws s) as [|q s1] eqn:Es; [discriminate|].
    pose proof (skip_ws_cons _ Es) as Ls.
    destruct (q =? 34)%N eqn:Eq; [|discriminate].
    destruct (read_string s1) as [[k s2]|] eqn:Ek; [|discriminate].
    pose proof (read_string_length _ Ek) as Lk.
    destruct (skip_ws s2) as [|colon s3] eqn:Es2; [discriminate|].
    pose proof (skip_ws_cons _ Es2) as Ls2.
    destruct (colon =? 58)%N eqn:Ec; [|discriminate].
    destruct (parse_value fuel s3) as [[v s4]|] eqn:Ev; [|discriminate].
    destruct (IHV _ _ _ Ev) as (Lv & Again).
    destruct (skip_ws s4) as [|c s5] eqn:Es4; [discriminate|].
    pose proof (skip_ws_cons _ Es4) as Ls4.
    destruct (c =? 44)%N eqn:E44.
    + apply prepend_some in H. destruct H as (ms' & H & ->).
      destruct (IHM _ _ _ H) as (Lm & Again'). split; [lia|].
      intros [|g] Hg; [lia|]. cbn [parse_members].
      rewrite Es, Eq, Ek, Es2, Ec, Again by lia.
      rewrite Es4, E44, Again' by lia. reflexivity.
    + destruct (c =? 125)%N eqn:E125; [|discriminate].
      injection H as <- <-. split; [lia|].
      intros [|g] Hg; [lia|]. cbn [parse_members].
      rewrite Es, Eq, Ek, Es2, Ec, Again by lia.
      now rewrite Es4, E44, E125.
Qed.

(** [JSON_parse] gives the parser all the fuel it can use. *)
Lemma JSON_parse_spec (text : jsstring) (v : value) :
  JSON_parse text = Some v <-> json_text text v.
Proof.
  unfold JSON_parse, json_text. split.
  - destruct (parse_value _ text) as [[v' r]|] eqn:E; [|discriminate].
    destruct (skip_ws r) eqn:Er; [|discriminate].
    intro H. injection H as <-. eauto.
  - intros (fuel & r & H & Hr).
    destruct (parse_fuel fuel) as (HV & _).
    destruct (HV _ _ _ H) as (_ & Again).
    rewrite Again by lia. now rewrite Hr.
Qed.

(** ** The parser and the printer at work *)

(** The persisted layout, written out with line breaks and spaces. *)
Example parse_persisted_layout :
  JSON_parse
    (json "[
  {
    'code': 'abc123',
    'longUrl': 'https://example.com/page',
    'createdAt': 1700000000000,
    'expiryTs': 1700003600000,
    'visits': [
      {'ts': 1700000100000, 'ref': '(direct)', 'os': 'macOS',
       'lang': 'en-US', 'tz': 'America/New_York', 'screen': '1920x1080'}
    ]
  }
]")
  = Some (links_value
            [ mkLink (js "abc123") (js "https://example.com/page")
                1700000000000 (Some (NInt 1700003600000)) [example_visit] ]).
Proof. vm_compute. reflexivity. Qed.

Example stringify_record :
  JSON_stringify
    (links_value
       [ mkLink (js "AbC123") (js "https://example.org/") 1700000000001
           None [] ])
  = json "[{'code':'AbC123','longUrl':'https://example.org/',"
      ++ json "'createdAt':1700000000001,'expiryTs':null,'visits':[]}]".
Proof. vm_compute. reflexivity. Qed.

(** Numbers: fractions and exponents are read exactly, and written the way
    [Number::toString] writes them. *)
Example parse_numbers :
  JSON_parse (json "[-0, 2.50, 1e3, 12.5e1, 120e-1, 1.5E-7, 1e21, 0.000001]")
  = Some (VArr [ VNum (NInt 0); VNum (NDec 25 1); VNum (NInt 1000);
                 VNum (NInt 125); VNum (NInt 12); VNum (NDec 15 8);
                 VNum (NInt 1000000000000000000000); VNum (NDec 1 6) ]).
Proof. vm_compute. reflexivity. Qed.

Example stringify_numbers :
  JSON_stringify
    (VArr [ VNum (NDec 25 1); VNum (NDec 15 8); VNum (NDec 1 6);
            VNum (NInt 1000000000000000000000); VNum (NInt (-42));
            VNum (NDec (-1234) 8); VNum NNaN; VNum (NInf false) ])
  = json "[2.5,1.5e-7,0.000001,1e+21,-42,-0.00001234,null,null]".
Proof. vm_compute. reflexivity. Qed.

(** Strings: escapes are decoded; control characters and lone surrogates
    are written as escapes, a surrogate pair as it is. *)
Example parse_escapes :
  JSON_parse (json "'a\nA\/\u00e9\ud83d\uDE00'")
  = Some (VStr [97; 10; 65; 47; 233; 55357; 56832]%N).
Proof. vm_compute. reflexivity. Qed.

Example stringify_escapes :
  JSON_stringify (VStr [97; 10; 34; 1; 55357; 56832; 55357; 233]%N)
  = [34; 97; 92; 110; 92; 34; 92; 117; 48; 48; 48; 49; 55357; 56832;
     92; 117; 100; 56; 51; 100; 233; 34]%N.
Proof. vm_compute. reflexivity. Qed.

(** Objects: a repeated name keeps its place and takes the last value, and
    array indices come first. *)
Example parse_object_order :
  JSON_parse (json "{'b': 1, '10': 2, 'a': 3, '2': 4, 'b': 5, '01': 6}")
  = Some (VObj [ (js "2", VNum (NInt 4)); (js "10", VNum (NInt 2));
                 (js "b", VNum (NInt 5)); (js "a", VNum (NInt 3));
                 (js "01", VNum (NInt 6)) ]).
Proof. vm_compute. reflexivity. Qed.

(** Texts that [JSON.parse] refuses. *)
Example parse_refuses :
  List.map JSON_parse
    [ []; json "[1,]"; json "01"; json "{'a':1,}"; json "[1] x";
      json "nul"; json "-"; json "1."; json ".5"; json "'\x'";
      json "{a:1}"; json "[1 2]"; js "'a'"; json "'a" ]
  = repeat None 14.
Proof. vm_compute. reflexivity. Qed.

(* ===================================================================== *)
(** * The link store: [loadLinks] and [saveLinks] *)
(* ===================================================================== *)

Lemma visit_value_exact (v : VisitRecord) :
  well_formed_visit v -> json_exact (visit_value v).
Proof.
  intro H. unfold visit_value. apply exact_obj; [reflexivity|].
  repeat constructor. exact H.
Qed.

Lemma link_value_exact (l : LinkRecord) :
  well_formed_link l -> json_exact (link_value l).
Proof.
  intros (Hc & He & Hv). unfold link_value.
  apply exact_obj; [reflexivity|].
  repeat (apply Forall_cons || apply Forall_nil); cbn [snd];
    try constructor; try assumption.
  - destruct (expiryTs l) as [[z| | |]|]; try contradiction;
      now constructor.
  - apply Forall_map. revert Hv. apply Forall_impl.
    exact visit_value_exact.
Qed.

Lemma links_value_exact (links : list LinkRecord) :
  well_formed links -> json_exact (links_value links).
Proof.
  intro H. apply exact_arr. apply Forall_map. revert H.
  apply Forall_impl. exact link_value_exact.
Qed.

(** [loadLinks] reads the slot and nothing else. *)
Lemma loadLinks_eq (w : World) :
  loadLinks w
  = (Returned
       (match JSON_parse
                (match localStorage w STORAGE_KEY with
                 | Some t => str_or t (js "[]")
                 | None => js "[]"
                 end) with
        | Some v => v
        | None => VArr []
        end), w).
Proof.
  unfold loadLinks, bind, getItem. cbn beta iota.
  destruct (JSON_parse _); reflexivity.
Qed.

Lemma saveLinks_stored (v : value) (w : World) :
  localStorage (snd (saveLinks v w)) STORAGE_KEY = Some (JSON_stringify v).
Proof. reflexivity. Qed.

Lemma stringify_nonempty (v : value) :
  json_exact v -> str_or (JSON_stringify v) (js "[]") = JSON_stringify v.
Proof.
  intro H. destruct (stringify_head H) as (c & tl & E & _).
  unfold JSON_stringify. now rewrite E.
Qed.

(** A slot that holds the text of a value loads as that value. *)
Lemma loadLinks_of_text (v : value) (w : World) :
  json_exact v ->
  localStorage w STORAGE_KEY = Some (JSON_stringify v) ->
  loadLinks w = (Returned v, w).
Proof.
  intros H E. rewrite loadLinks_eq, E.
  now rewrite stringify_nonempty, JSON_parse_stringify.
Qed.

(** What is saved is what is loaded next. *)
Lemma load_after_save (v : value) (w : World) :
  json_exact v ->
  loadLinks (snd (saveLinks v w)) = (Returned v, snd (saveLinks v w)).
Proof.
  intro H. apply loadLinks_of_text; [exact H|apply saveLinks_stored].
Qed.

Lemma json_text_nonempty (text : jsstring) (v : value) :
  json_text text v -> text <> [].
Proof.
  intros (fuel & r & H & _) ->. destruct fuel; discriminate H.
Qed.

(** C2, what the code does: when the slot is missing, empty or does not
    hold a JSON text, [loadLinks] returns the empty array and throws
    nothing, as the claim says; when it holds a JSON text, [loadLinks]
    returns the value of that text, whether it is an array or not.  The
    test for an array that the claim asks for is missing: the default
    [[]], the [catch] and every caller take the result for an array. *)
Theorem loadLinks_fails_soft (w : World) :
  ((localStorage w STORAGE_KEY = None
    \/ localStorage w STORAGE_KEY = Some []
    \/ exists text,
         localStorage w STORAGE_KEY = Some text
         /\ forall v, ~ json_text text v) ->
   loadLinks w = (Returned (VArr []), w))
  /\ (forall text v,
        localStorage w STORAGE_KEY = Some text ->
        json_text text v ->
        loadLinks w = (Returned v, w)).
Proof.
  split.
  - intros [H|[H|(text & H & Hp)]]; rewrite loadLinks_eq, H;
      try reflexivity.
    destruct text as [|c text]; [reflexivity|].
    unfold str_or, nonempty.
    destruct (JSON_parse (c :: text)) as [v|] eqn:E; [|reflexivity].
    apply JSON_parse_spec in E. now elim (Hp v).
  - intros text v H Hp. rewrite loadLinks_eq, H.
    pose proof (json_text_nonempty Hp) as Hne.
    apply JSON_parse_spec in Hp.
    destruct text as [|c text]; [congruence|].
    unfold str_or, nonempty. now rewrite Hp.
Qed.

(** A slot with broken text, a slot with an empty array between spaces,
    and a slot with [{}]: the object comes back, not an empty array. *)
Lemma loadLinks_fails_soft_witness :
  loadLinks (example_browser (Some (js "{oops")) [])
  = (Returned (VArr []), example_browser (Some (js "{oops")) [])
  /\ loadLinks (example_browser (Some (js " [ ] ")) [])
     = (Returned (VArr []), example_browser (Some (js " [ ] ")) [])
  /\ loadLinks (example_browser (Some (js "{}")) [])
     = (Returned (VObj []), example_browser (Some (js "{}")) []).
Proof.
  split; [|split].
  - apply (proj1 (loadLinks_fails_soft _)). right. right.
    exists (js "{oops"). split; [reflexivity|].
    intros v H. apply JSON_parse_spec in H. discriminate H.
  - apply (proj2 (loadLinks_fails_soft _) (js " [ ] ")).
    + reflexivity.
    + apply JSON_parse_spec. reflexivity.
  - apply (proj2 (loadLinks_fails_soft _) (js "{}")).
    + reflexivity.
    + apply JSON_parse_spec. reflexivity.
Defined.

(** The failing input of C2: the text [{}] is not a JSON array, and
    [loadLinks] returns the object it denotes, not an empty sequence. *)
Lemma loadLinks_object_not_empty :
  ~ ((forall items, ~ json_text (js "{}") (VArr items)) ->
     fst (loadLinks (example_browser (Some (js "{}")) []))
     = Returned (VArr [])).
Proof.
  intro H.
  assert (E : fst (loadLinks (example_browser (Some (js "{}")) []))
              = Returned (VObj [])) by reflexivity.
  rewrite E in H. discriminate H.
  intros items Hj. apply JSON_parse_spec in Hj. discriminate Hj.
Qed.

Lemma map_injective {A B : Type} (f : A -> B) (l l' : list A) :
  (forall a a', f a = f a' -> a = a') ->
  List.map f l = List.map f l' -> l = l'.
Proof.
  intro Hf. revert l'. induction l as [|a l IH]; intros [|a' l'] H;
    try discriminate; [reflexivity|].
  cbn [List.map] in H. injection H as Ha Hl.
  f_equal; [now apply Hf|now apply IH].
Qed.

Lemma visit_value_injective (v v' : VisitRecord) :
  visit_value v = visit_value v' -> v = v'.
Proof.
  destruct v, v'. unfold visit_value. cbn [ts ref os lang tz screen].
  intro H. injection H as -> -> -> -> -> ->. reflexivity.
Qed.

Lemma link_value_injective (l l' : LinkRecord) :
  link_value l = link_value l' -> l = l'.
Proof.
  destruct l as [c u t e vs], l' as [c' u' t' e' vs'].
  unfold link_value. cbn [code longUrl createdAt expiryTs visits].
  intro H. injection H as -> -> -> He Hv.
  apply (map_injective _ _ _ visit_value_injective) in Hv. subst vs'.
  destruct e, e'; try discriminate; [injection He as ->|]; reflexivity.
Qed.

(** Two collections with the same layout are the same collection. *)
Lemma links_value_injective (links links' : list LinkRecord) :
  links_value links = links_value links' -> links = links'.
Proof.
  unfold links_value. intro H. injection H as H.
  revert H. apply map_injective. exact link_value_injective.
Qed.

(** C9: a collection of well-formed records that is saved is loaded back
    equal, field for field, and saving what was loaded leaves the store as
    it is. *)
Theorem save_load_round_trip (links : list LinkRecord) (w : World) :
  well_formed links ->
  let saved := snd (saveLinks (links_value links) w) in
  loadLinks saved = (Returned (links_value links), saved)
  /\ (forall links',
        fst (loadLinks saved) = Returned (links_value links') ->
        links' = links)
  /\ (forall loaded,
        fst (loadLinks saved) = Returned loaded ->
        forall key,
          localStorage (snd (saveLinks loaded saved)) key
          = localStorage saved key).
Proof.
  intro H. pose proof (links_value_exact H) as Hex. cbv zeta.
  pose proof (load_after_save w Hex) as L.
  split; [exact L|split].
  - intros links' Hl. rewrite L in Hl. cbn [fst] in Hl.
    apply links_value_injective. congruence.
  - intros loaded Hl key. rewrite L in Hl. cbn [fst] in Hl.
    injection Hl as <-.
    unfold saveLinks, setItem. cbn [snd localStorage].
    destruct (str_eqb key STORAGE_KEY); reflexivity.
Qed.

(* ===================================================================== *)
(** * The redirect resolver *)
(* ===================================================================== *)

Lemma example_links_well_formed : well_formed example_links.
Proof.
  unfold well_formed, example_links, well_formed_link, well_formed_visit,
    safe_integer.
  repeat (apply Forall_cons || apply Forall_nil || split); cbn; lia.
Qed.

(** The collection of the example survives the round trip. *)
Lemma save_load_round_trip_witness :
  loadLinks (snd (saveLinks (links_value example_links)
                    (example_browser None [])))
  = (Returned (links_value example_links),
     snd (saveLinks (links_value example_links) (example_browser None []))).
Proof.
  exact (proj1 (save_load_round_trip (example_browser None [])
                  example_links_well_formed)).
Defined.

Lemma has_code_link (c : jsstring) (l : LinkRecord) :
  has_code c (link_value l) = str_eqb (code l) c.
Proof. reflexivity. Qed.

Lemma find_code_absent (c : jsstring) (links : list LinkRecord) (i : nat) :
  Forall (fun l => code l <> c) links ->
  find_code c (List.map link_value links) i = Returned None.
Proof.
  intro H. revert i. induction H as [|l links Hl _ IH]; intro i;
    [reflexivity|].
  cbn [List.map find_code]. rewrite has_code_link.
  apply str_eqb_neq in Hl. rewrite Hl. apply IH.
Qed.

Lemma find_code_first (c : jsstring) (before after : list LinkRecord)
  (l : LinkRecord) (i : nat) :
  Forall (fun x => code x <> c) before -> code l = c ->
  find_code c (List.map link_value (before ++ l :: after)) i
  = Returned (Some ((i + List.length before)%nat, link_value l)).
Proof.
  intros H Hl. revert i. induction H as [|x before Hx _ IH]; intro i.
  - cbn [app List.map find_code List.length]. rewrite has_code_link.
    apply str_eqb_eq in Hl. rewrite Hl, Nat.add_0_r. reflexivity.
  - cbn [app List.map find_code List.length]. rewrite has_code_link.
    apply str_eqb_neq in Hx. rewrite Hx, IH.
    now rewrite Nat.add_succ_comm.
Qed.

(** The first record with a given code. *)
Lemma first_with_code (c : jsstring) (links : list LinkRecord) :
  (exists l, In l links /\ code l = c) ->
  exists before l after,
    links = before ++ l :: after /\ code l = c
    /\ Forall (fun x => code x <> c) before.
Proof.
  induction links as [|x links IH]; intros (l & Hin & Hl); [destruct Hin|].
  destruct (str_eqb (code x) c) eqn:E.
  - apply str_eqb_eq in E. exists [], x, links. repeat split; auto.
  - apply str_eqb_neq in E. destruct Hin as [->|Hin]; [contradiction|].
    destruct IH as (before & y & after & -> & Hy & Hb); [now exists l|].
    exists (x :: before), y, after. repeat split; auto.
Qed.

Lemma set_nth_middle {A : Type} (before after : list A) (a b : A) :
  set_nth (List.length before) b (before ++ a :: after)
  = before ++ b :: after.
Proof. induction before as [|x before IH]; cbn; congruence. Qed.

Lemma set_nth_map_middle {A B : Type} (f : A -> B) (before after : list A)
  (a b : A) :
  set_nth (List.length before) (f b) (List.map f (before ++ a :: after))
  = List.map f (before ++ b :: after).
Proof.
  rewrite !map_app. cbn [List.map].
  rewrite <- (length_map f before). apply set_nth_middle.
Qed.

Lemma new_visit_eq (w : World) :
  new_visit w = (Returned (visit_value (visit_now w)), snd (now w)).
Proof. reflexivity. Qed.

Lemma push_visit_link (l : LinkRecord) (w : World) :
  push_visit (link_value l) w
  = (Returned (link_value (log_visit (visit_now w) l)), snd (now w)).
Proof.
  unfold push_visit.
  change (get (link_value l) (js "visits"))
    with (Some (VArr (List.map visit_value (visits l)))).
  unfold bind. rewrite new_visit_eq. cbn [link_value ret].
  unfold link_value, log_visit. cbn [code longUrl createdAt expiryTs visits].
  rewrite map_app. reflexivity.
Qed.

(** The run of [handleRedirect] when the loaded collection holds the code of
    the fragment: one clock reading for the visit, then [saveLinks], then
    [location.replace]. *)
Lemma handleRedirect_found (w : World) (c : jsstring)
  (before after : list LinkRecord) (l : LinkRecord) :
  match_redirect (strip_hash (location_hash w)) = Some c ->
  fst (loadLinks w) = Returned (links_value (before ++ l :: after)) ->
  code l = c ->
  Forall (fun x => code x <> c) before ->
  handleRedirect w
  = (saveLinks
       (links_value (before ++ log_visit (visit_now w) l :: after)) ;;
     location_replace (Some (VStr (longUrl l)))) (snd (now w)).
Proof.
  intros Hm Hload Hl Hb. unfold handleRedirect.
  unfold bind at 1. unfold read at 1. cbn beta iota. rewrite Hm.
  unfold bind at 1. rewrite loadLinks_eq in *. cbn [fst] in Hload.
  injection Hload as Hload. rewrite Hload.
  unfold bind at 1. unfold links_value at 1. cbn [find_link].
  rewrite (@find_code_first c before after l 0 Hb Hl). cbn [Nat.add].
  unfold bind at 1. rewrite push_visit_link.
  unfold bind at 1. cbn [fst snd]. unfold links_value at 1.
  rewrite set_nth_map_middle. reflexivity.
Qed.

(** A fragment [#/r/<code>] or [#r/<code>] gives its code, when the code is
    not empty and has no line terminator. *)
Lemma match_redirect_fragment (c : jsstring) :
  c <> [] ->
  forallb (fun u => negb (is_line_terminator u)) c = true ->
  match_redirect (strip_hash (js "#/r/" ++ c)) = Some c
  /\ match_redirect (strip_hash (js "#r/" ++ c)) = Some c.
Proof.
  intros Hne Hlt.
  assert (E : match_redirect (js "r/" ++ c) = Some c).
  { unfold match_redirect. cbn [js list_ascii_of_string List.map app
      starts_with]. cbn. rewrite Hlt.
    destruct c; [congruence|reflexivity]. }
  split; exact E.
Qed.

Lemma handleRedirect_found_effects (w : World) (links' : list LinkRecord)
  (url : jsstring) :
  let run :=
    (saveLinks (links_value links') ;;
     location_replace (Some (VStr url))) (snd (now w)) in
  fst run = Returned tt
  /\ localStorage (snd run) STORAGE_KEY
     = Some (JSON_stringify (links_value links'))
  /\ navigations (snd run) = NavReplace (Some (VStr url)) :: navigations w
  /\ (forall key, str_eqb key STORAGE_KEY = false ->
        localStorage (snd run) key = localStorage w key).
Proof.
  cbn. repeat split. intros key H. now rewrite H.
Qed.



(** The resolver at work on the store of the example. *)
Example redirect_example :
  let w := example_browser (Some example_store) (js "#/r/abc123") in
  fst (handleRedirect w) = Returned tt
  /\ localStorage (snd (handleRedirect w)) STORAGE_KEY
     = Some
         (json "[{'code':'abc123','longUrl':'https://example.com/page',"
            ++ json "'createdAt':1700000000000,'expiryTs':1700003600000,"
            ++ json "'visits':[{'ts':1700000100000,'ref':'(direct)',"
            ++ json "'os':'macOS','lang':'en-US','tz':'America/New_York',"
            ++ json "'screen':'1920x1080'},{'ts':1700000000000,"
            ++ json "'ref':'(direct)','os':'Linux','lang':'en-US',"
            ++ json "'tz':'Europe/Paris','screen':'1920x1080'}]},"
            ++ json "{'code':'AbC123','longUrl':'https://example.org/',"
            ++ json "'createdAt':1700000000001,'expiryTs':null,"
            ++ json "'visits':[]}]")
  /\ navigations (snd (handleRedirect w))
     = [NavReplace (Some (VStr (js "https://example.com/page")))]
  /\ ticks (snd (handleRedirect w)) = 1%nat.
Proof. vm_compute. repeat split. Qed.

Lemma find_code_no_match (c : jsstring) (items : list value) (i : nat) :
  Forall (fun l => has_code c l = false) items ->
  find_code c items i = Returned None
  \/ find_code c items i = Thrown TypeError.
Proof.
  intro H. revert i. induction H as [|l items Hl _ IH]; intro i;
    [now left|].
  cbn [find_code]. rewrite Hl. destruct l; auto.
Qed.

(** C4: [handleRedirect] changes nothing - no write to the store, no
    navigation - when the fragment does not match, and when it matches but
    no loaded record has the code.  In both cases it returns; should the
    loaded value not be a collection of records, it may throw, still
    without a write or a navigation. *)
Theorem redirect_without_match_does_nothing (w : World) :
  (match_redirect (strip_hash (location_hash w)) = None ->
   handleRedirect w = (Returned tt, w))
  /\ (forall c links,
        match_redirect (strip_hash (location_hash w)) = Some c ->
        fst (loadLinks w) = Returned (links_value links) ->
        (forall l, In l links -> code l <> c) ->
        handleRedirect w = (Returned tt, w))
  /\ (forall c,
        match_redirect (strip_hash (location_hash w)) = Some c ->
        (forall items,
           fst (loadLinks w) = Returned (VArr items) ->
           Forall (fun l => has_code c l = false) items) ->
        snd (handleRedirect w) = w).
Proof.
  split; [|split].
  - intro Hm. unfold handleRedirect, bind, read. cbn beta iota.
    now rewrite Hm.
  - intros c links Hm Hload Hno. unfold handleRedirect.
    unfold bind at 1. unfold read at 1. cbn beta iota. rewrite Hm.
    unfold bind at 1. rewrite loadLinks_eq in *. cbn [fst] in Hload.
    injection Hload as Hload. rewrite Hload.
    unfold bind at 1. unfold links_value at 1. cbn [find_link].
    rewrite find_code_absent; [reflexivity|].
    now apply Forall_forall.
  - intros c Hm Hno. unfold handleRedirect.
    unfold bind at 1. unfold read at 1. cbn beta iota. rewrite Hm.
    unfold bind at 1. rewrite loadLinks_eq in *. cbn [fst] in Hno.
    destruct (match JSON_parse _ with Some v => v | None => VArr [] end)
      as [|b|n|s|items|props]; try reflexivity.
    unfold bind at 1. cbn [find_link].
    destruct (@find_code_no_match c items 0 (Hno items eq_refl)) as [E|E];
      rewrite E; reflexivity.
Qed.

(** A fragment that is no redirect, and a code that the store does not
    have. *)
Lemma redirect_without_match_does_nothing_witness :
  handleRedirect (example_browser (Some example_store) (js "#/settings"))
  = (Returned tt, example_browser (Some example_store) (js "#/settings"))
  /\ handleRedirect
       (example_browser (Some example_store) (js "#/r/doesnotexist"))
     = (Returned tt,
        example_browser (Some example_store) (js "#/r/doesnotexist")).
Proof.
  split.
  - apply (proj1 (redirect_without_match_does_nothing _)). reflexivity.
  - apply (proj1 (proj2 (redirect_without_match_does_nothing _))
             (js "doesnotexist") example_links).
    + reflexivity.
    + vm_compute. reflexivity.
    + intros l [<-|[<-|[]]]; discriminate.
Defined.

Lemma find_code_links (c : jsstring) (links : list LinkRecord) :
  (Forall (fun l => code l <> c) links
   /\ find_code c (List.map link_value links) 0 = Returned None)
  \/ (exists before l after,
        links = before ++ l :: after /\ code l = c
        /\ Forall (fun x => code x <> c) before
        /\ find_code c (List.map link_value links) 0
           = Returned (Some (List.length before, link_value l))).
Proof.
  destruct (existsb (fun l => str_eqb (code l) c) links) eqn:E.
  - right. apply existsb_exists in E. destruct E as (l0 & Hin & Hl0).
    apply str_eqb_eq in Hl0.
    destruct (@first_with_code c links (ex_intro _ l0 (conj Hin Hl0)))
      as (before & l & after & -> & Hl & Hb).
    exists before, l, after. repeat split; auto.
    now rewrite (@find_code_first c before after l 0 Hb Hl).
  - left. assert (H : Forall (fun l => code l <> c) links).
    { apply Forall_forall. intros l Hin Hl.
      assert (X : existsb (fun l => str_eqb (code l) c) links = true).
      { apply existsb_exists. exists l. split; [exact Hin|].
        now apply str_eqb_eq. }
      congruence. }
    split; [exact H|now apply find_code_absent].
Qed.

(** C5: the lookup of [handleRedirect] compares codes exactly.  On a
    collection of records it finds nothing exactly when no record has the
    very code asked for, whatever the codes are up to letter case; and what
    it finds is the first record whose code is that code, character for
    character. *)
Theorem lookup_is_exact_match (links : list LinkRecord) (c : jsstring) :
  (find_code c (List.map link_value links) 0 = Returned None
   <-> forall l, In l links -> code l <> c)
  /\ ((exists i v,
         find_code c (List.map link_value links) 0 = Returned (Some (i, v)))
      <-> exists l, In l links /\ code l = c)
  /\ (forall i v,
        find_code c (List.map link_value links) 0 = Returned (Some (i, v)) ->
        exists l,
          v = link_value l /\ nth_error links i = Some l /\ code l = c
          /\ forall j x, (j < i)%nat -> nth_error links j = Some x ->
                         code x <> c).
Proof.
  destruct (find_code_links c links)
    as [[Hno E]|(before & l & after & -> & Hl & Hb & E)].
  - split; [|split].
    + split; [intros _; now apply Forall_forall|intros _; exact E].
    + split.
      * intros (i & v & H). congruence.
      * intros (l & Hin & Hl). rewrite Forall_forall in Hno.
        now elim (Hno l Hin).
    + intros i v H. congruence.
  - split; [|split].
    + split; [congruence|]. intro H. elim (H l); [|exact Hl].
      apply in_or_app. right. now left.
    + split.
      * intros _. exists l. split; [|exact Hl].
        apply in_or_app. right. now left.
      * intros _. eauto.
    + intros i v H. rewrite E in H. injection H as <- <-.
      exists l. repeat split; auto.
      * rewrite nth_error_app2, Nat.sub_diag by lia. reflexivity.
      * intros j x Hj Hx. rewrite nth_error_app1 in Hx by exact Hj.
        rewrite Forall_forall in Hb. apply Hb.
        eapply nth_error_In. exact Hx.
Qed.

(** [ABC123] is not found among [abc123] and [AbC123]. *)
Lemma lookup_is_exact_match_witness :
  find_code (js "ABC123") (List.map link_value example_links) 0
  = Returned None.
Proof.
  apply (proj2 (proj1 (lookup_is_exact_match example_links (js "ABC123")))).
  intros l [<-|[<-|[]]]; discriminate.
Defined.

(** The collection of the example has two codes that differ from [ABC123]
    in letter case only. *)
Lemma example_codes_differ_in_case :
  Forall (fun l => toLowerCase (code l) = toLowerCase (js "ABC123"))
    example_links.
Proof. repeat constructor. Qed.

(** C10: when [handleRedirect] finds the record, the collection it saves
    differs from the one it loaded in one place only.  It has the same
    length; every record but the one found is the same at the same
    position; the one found keeps [code], [longUrl], [createdAt] and
    [expiryTs], and its [visits] are the old ones followed by one visit.
    No other slot of the storage is written. *)
Theorem redirect_changes_only_visits (w : World) (c : jsstring)
  (links : list LinkRecord) :
  match_redirect (strip_hash (location_hash w)) = Some c ->
  fst (loadLinks w) = Returned (links_value links) ->
  (exists l, In l links /\ code l = c) ->
  exists i l links' l',
    nth_error links i = Some l
    /\ code l = c
    /\ localStorage (snd (handleRedirect w)) STORAGE_KEY
       = Some (JSON_stringify (links_value links'))
    /\ List.length links' = List.length links
    /\ (forall j, j <> i -> nth_error links' j = nth_error links j)
    /\ nth_error links' i = Some l'
    /\ code l' = code l
    /\ longUrl l' = longUrl l
    /\ createdAt l' = createdAt l
    /\ expiryTs l' = expiryTs l
    /\ visits l' = visits l ++ [visit_now w]
    /\ (forall key, str_eqb key STORAGE_KEY = false ->
          localStorage (snd (handleRedirect w)) key = localStorage w key).
Proof.
  intros Hm Hload Hex.
  destruct (@first_with_code c links Hex)
    as (before & l & after & -> & Hl & Hb).
  pose proof (@handleRedirect_found w c before after l Hm Hload Hl Hb) as Hrun.
  destruct (handleRedirect_found_effects w
              (before ++ log_visit (visit_now w) l :: after) (longUrl l))
    as (_ & R2 & _ & R4).
  rewrite <- Hrun in R2, R4.
  exists (List.length before), l,
    (before ++ log_visit (visit_now w) l :: after), (log_visit (visit_now w) l).
  repeat split; try assumption; try reflexivity.
  - rewrite nth_error_app2, Nat.sub_diag by lia. reflexivity.
  - rewrite !length_app. reflexivity.
  - intros j Hj. destruct (Nat.lt_ge_cases j (List.length before)) as [L|L].
    + now rewrite !nth_error_app1 by exact L.
    + rewrite !nth_error_app2 by exact L.
      destruct (j - List.length before)%nat eqn:D; [lia|reflexivity].
  - rewrite nth_error_app2, Nat.sub_diag by lia. reflexivity.
Qed.

(** The same on the store of the example, with the fragment [#r/abc123]. *)
Lemma redirect_changes_only_visits_witness :
  exists i l links' l',
    nth_error example_links i = Some l
    /\ code l = js "abc123"
    /\ localStorage
         (snd (handleRedirect
                 (example_browser (Some example_store) (js "#r/abc123"))))
         STORAGE_KEY
       = Some (JSON_stringify (links_value links'))
    /\ List.length links' = List.length example_links
    /\ (forall j, j <> i -> nth_error links' j = nth_error example_links j)
    /\ nth_error links' i = Some l'
    /\ code l' = code l
    /\ longUrl l' = longUrl l
    /\ createdAt l' = createdAt l
    /\ expiryTs l' = expiryTs l
    /\ visits l'
       = visits l
           ++ [visit_now
                 (example_browser (Some example_store) (js "#r/abc123"))]
    /\ (forall key, str_eqb key STORAGE_KEY = false ->
          localStorage
            (snd (handleRedirect
                    (example_browser (Some example_store) (js "#r/abc123"))))
            key
          = localStorage
              (example_browser (Some example_store) (js "#r/abc123")) key).
Proof.
  apply (@redirect_changes_only_visits
           (example_browser (Some example_store) (js "#r/abc123"))
           (js "abc123") example_links).
  - reflexivity.
  - vm_compute. reflexivity.
  - eexists. split; [left; reflexivity|reflexivity].
Defined.

(* ===================================================================== *)
(** * The creation flow *)
(* ===================================================================== *)

Lemma nonempty_false (s : jsstring) : nonempty s = false <-> s = [].
Proof. destruct s; simpl; split; congruence. Qed.

Lemma nonempty_true (s : jsstring) : nonempty s = true <-> s <> [].
Proof. destruct s; simpl; split; congruence. Qed.

Lemma toLowerCase_nil (s : jsstring) : toLowerCase s = [] -> s = [].
Proof. destruct s; simpl; congruence. Qed.

Lemma existing_codes_has (links : list LinkRecord) (s : jsstring) :
  existsb (str_eqb s) (existing_codes links) = true
  <-> exists l, In l links /\ s = toLowerCase (code l).
Proof.
  unfold existing_codes. rewrite existsb_exists. split.
  - intros (x & Hin & Hx). apply in_map_iff in Hin.
    destruct Hin as (l & <- & Hin). apply str_eqb_eq in Hx. eauto.
  - intros (l & Hin & ->). exists (toLowerCase (code l)).
    split; [|apply str_eqb_refl].
    now apply (in_map (fun x => toLowerCase (code x))).
Qed.

Lemma has_errors_iff (e : Errors) :
  has_errors e = true
  <-> err_longUrl e <> None \/ err_validityMinutes e <> None
      \/ err_preferredCode e <> None.
Proof.
  unfold has_errors.
  destruct (err_longUrl e), (err_validityMinutes e), (err_preferredCode e);
    split; intro H; try reflexivity; try discriminate;
    try (left; discriminate); try (right; left; discriminate);
    try (right; right; discriminate).
  destruct H as [H|[H|H]]; congruence.
Qed.

Section CreationFacts.

Variable URL_protocol : jsstring -> option jsstring.
Variable StringToNumber : jsstring -> number.

Local Notation "'check'" := (validate URL_protocol StringToNumber).
Local Notation "'submit'" := (onSubmit URL_protocol StringToNumber).

(** When [validate] answers "Code taken". *)
Lemma validate_code_taken (row : Row) (links : list LinkRecord) :
  err_preferredCode (check row (existing_codes links))
  = Some (js "Code taken")
  <-> row_preferredCode row <> []
      /\ sanitizeCode (row_preferredCode row) <> []
      /\ exists l,
           In l links
           /\ toLowerCase (sanitizeCode (row_preferredCode row))
              = toLowerCase (code l).
Proof.
  unfold validate. cbn [err_preferredCode].
  destruct (nonempty (row_preferredCode row)) eqn:Ep.
  - apply nonempty_true in Ep.
    destruct (nonempty (sanitizeCode (row_preferredCode row))) eqn:Es;
      cbn [negb].
    + apply nonempty_true in Es.
      destruct (existsb _ (existing_codes links)) eqn:Ex.
      * apply existing_codes_has in Ex. tauto.
      * split; [discriminate|]. intros (_ & _ & H).
        apply existing_codes_has in H. congruence.
    + apply nonempty_false in Es. split; [discriminate|].
      intros (_ & H & _). contradiction.
  - apply nonempty_false in Ep. split; [discriminate|].
    intros (H & _). contradiction.
Qed.

(** C8: a preferred code is refused as taken exactly when, after
    [sanitizeCode] and in lower case, it is the lower-cased code of a
    record of the store; the row then has an error.  The codes of the
    store are codes as the program makes them: not empty, and of letters,
    digits, [_] and [-], on which lower case is that of the language. *)
Theorem code_taken_ignores_case (links : list LinkRecord) (row : Row) :
  (forall l, In l links -> valid_code (code l) = true) ->
  (err_preferredCode (check row (existing_codes links))
   = Some (js "Code taken")
   <-> exists l,
         In l links
         /\ toLowerCase (sanitizeCode (row_preferredCode row))
            = toLowerCase (code l))
  /\ (err_preferredCode (check row (existing_codes links))
      = Some (js "Code taken") ->
      has_errors (check row (existing_codes links)) = true).
Proof.
  intro Hvalid.
  assert (Hne : forall l, In l links -> code l <> []).
  { intros l Hin. pose proof (Hvalid l Hin) as H. unfold valid_code in H.
    apply andb_true_iff in H. now apply nonempty_true. }
  split; [split|].
  - intro H. apply validate_code_taken in H.
    destruct H as (_ & _ & H). exact H.
  - intros (l & Hin & Hl). apply validate_code_taken.
    assert (Hs : sanitizeCode (row_preferredCode row) <> []).
    { intro E. rewrite E in Hl. symmetry in Hl.
      apply toLowerCase_nil in Hl. now apply (Hne l). }
    split; [|split; [exact Hs|exists l; split; assumption]].
    intro E. apply Hs. rewrite E. reflexivity.
  - intro H. apply has_errors_iff. right. right. rewrite H. discriminate.
Qed.

(** The rows with errors are the invalid rows. *)
Lemma has_errors_invalid (links : list LinkRecord) (r : Row) :
  has_errors (check r (existing_codes links)) = true
  <-> invalid_row URL_protocol StringToNumber links r.
Proof.
  unfold invalid_row.
  assert (Hu : err_longUrl (check r (existing_codes links)) <> None
               <-> isValidUrl URL_protocol (row_longUrl r) = false).
  { unfold validate. cbn [err_longUrl].
    destruct (isValidUrl _ _); split; congruence. }
  assert (Hv : err_validityMinutes (check r (existing_codes links))
               <> None
               <-> row_validityMinutes r <> []
                   /\ forall z,
                        StringToNumber (row_validityMinutes r) = NInt z ->
                        (z <= 0)%Z).
  { unfold validate. cbn [err_validityMinutes].
    destruct (nonempty (row_validityMinutes r)) eqn:En.
    - apply nonempty_true in En.
      destruct (StringToNumber (row_validityMinutes r)) as [z| | |];
        cbn [Number_isInteger negb orb num_le_zero].
      + destruct (Z.leb_spec z 0).
        * split; [intros _; split; [exact En|]|discriminate].
          intros z' E. injection E as <-. assumption.
        * split; [congruence|]. intros (_ & H'). specialize (H' z eq_refl).
          lia.
      + split; [|discriminate]. intros _. split; [exact En|discriminate].
      + split; [|discriminate]. intros _. split; [exact En|discriminate].
      + split; [|discriminate]. intros _. split; [exact En|discriminate].
    - apply nonempty_false in En. split; [congruence|]. tauto. }
  assert (Hc : err_preferredCode (check r (existing_codes links))
               <> None
               <-> row_preferredCode r <> []
                   /\ (sanitizeCode (row_preferredCode r) = []
                       \/ exists l,
                            In l links
                            /\ toLowerCase (sanitizeCode (row_preferredCode r))
                               = toLowerCase (code l))).
  { unfold validate. cbn [err_preferredCode].
    destruct (nonempty (row_preferredCode r)) eqn:Ep.
    - apply nonempty_true in Ep.
      destruct (nonempty (sanitizeCode (row_preferredCode r))) eqn:Es;
        cbn [negb].
      + apply nonempty_true in Es.
        destruct (existsb _ (existing_codes links)) eqn:Ex.
        * apply existing_codes_has in Ex.
          split; [tauto|discriminate].
        * split; [congruence|]. intros (_ & [H|H]); [contradiction|].
          apply existing_codes_has in H. congruence.
      + apply nonempty_false in Es. split; [tauto|discriminate].
    - apply nonempty_false in Ep. split; [congruence|]. tauto. }
  rewrite <- Hu, <- Hv, <- Hc. apply has_errors_iff.
Qed.

(** C6: when a row of the batch is invalid, [onSubmit] only marks the rows
    and shows the alert.  No record is created: the collection and the
    created batch are as before, no time or random byte is taken from the
    browser, and no slot of the storage is written. *)
Theorem invalid_batch_is_rejected (app : AppState) (w : World) :
  (exists r, In r (rows app)
             /\ invalid_row URL_protocol StringToNumber (links app) r) ->
  exists app',
    submit app w
    = (Returned app', snd (alert (js "Fix errors first.") w))
    /\ links app' = links app
    /\ createdBatch app' = createdBatch app
    /\ List.map row_longUrl (rows app') = List.map row_longUrl (rows app)
    /\ localStorage (snd (submit app w))
       = localStorage w
    /\ ticks (snd (submit app w)) = ticks w
    /\ drawn (snd (submit app w)) = drawn w.
Proof.
  intros (r & Hin & Hinv). apply has_errors_invalid in Hinv.
  unfold onSubmit.
  set (validated :=
         List.map
           (fun r0 =>
              mkRow (row_longUrl r0) (row_validityMinutes r0)
                (row_preferredCode r0)
                (check r0
                   (existing_codes (links app))))
           (rows app)).
  assert (E : existsb (fun r0 => has_errors (row_errors r0)) validated
              = true).
  { apply existsb_exists.
    exists (mkRow (row_longUrl r) (row_validityMinutes r)
              (row_preferredCode r)
              (check r
                 (existing_codes (links app)))).
    split; [|exact Hinv]. unfold validated.
    apply (in_map (fun r0 => mkRow _ _ _ _) _ _ Hin). }
  rewrite E. eexists. split; [reflexivity|].
  repeat split. cbn [rows]. unfold validated. now rewrite map_map.
Qed.

(** When no row has an error, [onSubmit] hands the batch to
    [submitToBackend], puts the created records before the old ones and
    saves the collection. *)
Lemma valid_batch_is_created (app : AppState) (w : World) :
  (forall r, In r (rows app) ->
             has_errors
               (check r
                  (existing_codes (links app))) = false) ->
  submit app w
  = (created <-
       submitToBackend
         (List.map (batch_item StringToNumber) (rows app)) ;;
     saveLinks (links_value (created ++ links app)) ;;
     ret (mkApp (created ++ links app) [blank_row] created false)) w.
Proof.
  intro H. unfold onSubmit.
  set (validated :=
         List.map
           (fun r0 =>
              mkRow (row_longUrl r0) (row_validityMinutes r0)
                (row_preferredCode r0)
                (check r0
                   (existing_codes (links app))))
           (rows app)).
  assert (E : existsb (fun r0 => has_errors (row_errors r0)) validated
              = false).
  { apply not_true_is_false. intro X. apply existsb_exists in X.
    destruct X as (x & Hin & Hx). unfold validated in Hin.
    apply in_map_iff in Hin. destruct Hin as (r & <- & Hin).
    cbn [row_errors] in Hx. rewrite (H r Hin) in Hx. discriminate. }
  rewrite E. unfold validated. rewrite map_map.
  reflexivity.
Qed.

(** C3 does not hold of the code: a batch that passes [validate] can hold
    the same preferred code twice; both records are created, and the store
    has two records with one code. *)
Theorem duplicate_codes_in_one_batch (w : World) :
  isValidUrl URL_protocol (js "https://example.com/a") = true ->
  isValidUrl URL_protocol (js "https://example.com/b") = true ->
  exists app',
    fst (submit
           (mkApp [] duplicate_rows [] false) w)
    = Returned app'
    /\ List.map code (links app') = [js "abc"; js "abc"]
    /\ ~ NoDup (existing_codes (links app')).
Proof.
  intros Ha Hb.
  assert (Hvalid :
    forall r, In r (rows (mkApp [] duplicate_rows [] false)) ->
              has_errors
                (check r
                   (existing_codes (links (mkApp [] duplicate_rows [] false))))
              = false).
  { intros r [<-|[<-|[]]]; unfold validate, has_errors;
      cbn [row_longUrl row_validityMinutes row_preferredCode
           err_longUrl err_validityMinutes err_preferredCode nonempty];
      rewrite ?Ha, ?Hb; vm_compute; reflexivity. }
  rewrite (valid_batch_is_created _ w Hvalid).
  exists (mkApp
            [ mkLink (js "abc") (js "https://example.com/a")
                (clock w (ticks w)) None [];
              mkLink (js "abc") (js "https://example.com/b")
                (clock w (S (ticks w))) None [] ]
            [blank_row]
            [ mkLink (js "abc") (js "https://example.com/a")
                (clock w (ticks w)) None [];
              mkLink (js "abc") (js "https://example.com/b")
                (clock w (S (ticks w))) None [] ]
            false).
  split; [vm_compute; reflexivity|]. split; [reflexivity|].
  cbn [links existing_codes List.map code]. intro H.
  apply NoDup_cons_iff in H. destruct H as [H _].
  apply H. left. reflexivity.
Qed.

End CreationFacts.

(** A store with [AbC123] refuses the preferred code [abc123]. *)
Lemma code_taken_ignores_case_witness :
  err_preferredCode
    (validate scheme_only decimal_only taken_row
       (existing_codes mixed_case_store))
  = Some (js "Code taken").
Proof.
  apply (proj2 (proj1 (@code_taken_ignores_case scheme_only decimal_only
                         mixed_case_store taken_row
                         ltac:(intros l [<-|[]]; reflexivity)))).
  eexists. split; [left; reflexivity|reflexivity].
Defined.

(** A batch of a valid row and a row whose code is taken creates nothing. *)
Lemma invalid_batch_is_rejected_witness :
  exists app',
    onSubmit scheme_only decimal_only
      (mkApp mixed_case_store [fine_row; taken_row] [] false)
      (example_browser None [])
    = (Returned app',
       snd (alert (js "Fix errors first.") (example_browser None [])))
    /\ links app' = mixed_case_store.
Proof.
  destruct (@invalid_batch_is_rejected scheme_only decimal_only
              (mkApp mixed_case_store [fine_row; taken_row] [] false)
              (example_browser None []))
    as (app' & H & Hl & _).
  - exists taken_row. split; [right; left; reflexivity|].
    right. right. split; [discriminate|]. right.
    eexists. split; [left; reflexivity|reflexivity].
  - exists app'. split; assumption.
Defined.

(** The same on the platform of the examples. *)
Lemma duplicate_codes_in_one_batch_witness :
  exists app',
    fst (onSubmit scheme_only decimal_only
           (mkApp [] duplicate_rows [] false) (example_browser None []))
    = Returned app'
    /\ List.map code (links app') = [js "abc"; js "abc"]
    /\ ~ NoDup (existing_codes (links app')).
Proof.
  apply (@duplicate_codes_in_one_batch scheme_only decimal_only
           (example_browser None [])); reflexivity.
Defined.

(** A batch without errors is created in full, here with one code taken
    from the form and one drawn at random. *)
Example valid_batch_example :
  exists app',
    fst (onSubmit scheme_only decimal_only
           (mkApp mixed_case_store
              [ fine_row;
                mkRow (js " https://example.com/e ") [] (js "my code!")
                  no_errors ]
              [] false)
           (example_browser None []))
    = Returned app'
    /\ List.map code (links app')
       = [js "012345"; js "mycode"; js "AbC123"]
    /\ List.map expiryTs (links app')
       = [Some (NInt 1700001800000); None; None]
    /\ List.map longUrl (links app')
       = [js "https://example.com/d"; js "https://example.com/e";
          js "https://example.org/"].
Proof.
  match goal with
  | |- exists app', fst ?run = _ /\ _ =>
      destruct (fst run) as [app'|e] eqn:E; vm_compute in E;
      [injection E as <-|discriminate E]
  end.
  eexists. split; [reflexivity|]. repeat split.
Qed.

(* ===================================================================== *)
(** * Statistics *)
(* ===================================================================== *)

Lemma is_active_eq (l : LinkRecord) (w : World) :
  is_active l w
  = match expiryTs l with
    | None => (Returned true, w)
    | Some e =>
        if num_truthy e then (Returned (num_gt e (clock w (ticks w))),
                              snd (now w))
        else (Returned true, w)
    end.
Proof.
  unfold is_active. destruct (expiryTs l) as [e|]; [|reflexivity].
  destruct (num_truthy e); reflexivity.
Qed.

Lemma count_active_returns (links : list LinkRecord) (w : World) :
  exists n w',
    count_active links w = (Returned n, w')
    /\ (n <= List.length links)%nat.
Proof.
  revert w. induction links as [|l links IH]; intro w.
  - exists 0%nat, w. split; [reflexivity|apply Nat.le_refl].
  - cbn [count_active]. unfold bind at 1. rewrite is_active_eq.
    destruct (expiryTs l) as [e|]; [destruct (num_truthy e)|].
    + destruct (IH (snd (now w))) as (n & w' & E & Hn).
      unfold bind at 1. rewrite E. cbn [ret].
      destruct (num_gt e (clock w (ticks w)));
        eexists; eexists; (split; [reflexivity|cbn [List.length]; lia]).
    + destruct (IH w) as (n & w' & E & Hn).
      unfold bind at 1. rewrite E. cbn [ret].
      eexists; eexists; (split; [reflexivity|cbn [List.length]; lia]).
    + destruct (IH w) as (n & w' & E & Hn).
      unfold bind at 1. rewrite E. cbn [ret].
      eexists; eexists; (split; [reflexivity|cbn [List.length]; lia]).
Qed.

(** C7, as the code has it: with [t] the time read from the clock, a record
    is counted active exactly when its [expiryTs] is [null], or is a number
    that is falsy (zero, or NaN), or is greater than [t], and expired
    otherwise.  Nothing else of the record is looked at, and [stats] counts
    every record as either active or expired. *)
Theorem active_is_derived (l : LinkRecord) (w : World) :
  let t := clock w (ticks w) in
  (fst (is_active l w) = Returned true
   <-> expiryTs l = None
       \/ exists e, expiryTs l = Some e
                    /\ (num_truthy e = false \/ num_gt e t = true))
  /\ (fst (is_active l w) = Returned false
      <-> exists e, expiryTs l = Some e
                    /\ num_truthy e = true /\ num_gt e t = false)
  /\ (forall z, expiryTs l = Some (NInt z) ->
        (fst (is_active l w) = Returned true <-> z = 0%Z \/ (t < z)%Z))
  /\ (forall l', expiryTs l' = expiryTs l -> is_active l' w = is_active l w)
  /\ (forall links,
        exists s, fst (stats links w) = Returned s
                  /\ total s = List.length links
                  /\ (active s + expired s = total s)%nat).
Proof.
  intro t. rewrite is_active_eq. repeat split.
  - destruct (expiryTs l) as [e|]; [|now left]. intro H. right.
    exists e. split; [reflexivity|].
    destruct (num_truthy e); [right|now left].
    cbn [fst] in H. now injection H.
  - intros [H|(e & H & Hc)]; rewrite H; [reflexivity|].
    destruct (num_truthy e); [|reflexivity].
    destruct Hc as [Hc|Hc]; [discriminate|]. cbn [fst]. fold t.
    now rewrite Hc.
  - destruct (expiryTs l) as [e|]; [|discriminate]. intro H.
    exists e. split; [reflexivity|].
    destruct (num_truthy e); [|discriminate].
    split; [reflexivity|]. cbn [fst] in H. now injection H.
  - intros (e & H & Ht & Hg). rewrite H, Ht. cbn [fst]. fold t.
    now rewrite Hg.
  - rewrite H. cbn [num_truthy]. destruct (Z.eqb_spec z 0) as [->|Hz];
      cbn [negb]; [now left|].
    cbn [fst num_gt]. fold t. intro E. injection E as E.
    apply Z.ltb_lt in E. now right.
  - rewrite H. cbn [num_truthy]. destruct (Z.eqb_spec z 0) as [->|Hz];
      cbn [negb]; [reflexivity|].
    intros [E|E]; [contradiction|]. cbn [fst num_gt]. fold t.
    apply Z.ltb_lt in E. now rewrite E.
  - intros l' H. now rewrite is_active_eq, H.
  - intro links. unfold stats.
    destruct (count_active_returns links w) as (n & w' & E & Hn).
    unfold bind. rewrite E. cbn [ret fst].
    eexists. split; [reflexivity|]. cbn [total active expired]. lia.
Qed.

(** A record that expires an hour after the clock of the example. *)
Lemma active_is_derived_witness :
  fst (is_active
         (mkLink (js "abc123") (js "https://example.com/page") 1700000000000
            (Some (NInt 1700003600000)) [])
         (example_browser None []))
  = Returned true.
Proof.
  apply (proj2 (proj1 (proj2 (proj2
           (active_is_derived
              (mkLink (js "abc123") (js "https://example.com/page")
                 1700000000000 (Some (NInt 1700003600000)) [])
              (example_browser None [])))) 1700003600000%Z eq_refl)).
  right. cbn. lia.
Defined.

(** C7 as stated fails on an [expiryTs] of zero: it is not [null] and not
    after the current time, and the record is counted active. *)
Lemma zero_expiry_is_active :
  let l := mkLink (js "abc123") (js "https://example.com/page") (-60000)
             (Some (NInt 0)) [] in
  let w := example_browser None [] in
  ~ (fst (is_active l w) = Returned true
     <-> expiryTs l = None
         \/ exists e, expiryTs l = Some e
                      /\ num_gt e (clock w (ticks w)) = true).
Proof.
  intros l w [H _]. destruct (H eq_refl) as [E|(e & E & G)].
  - discriminate E.
  - injection E as <-. discriminate G.
Qed.

(* ===================================================================== *)
(** * Codes: [sanitizeCode] and [randomCode] *)
(* ===================================================================== *)

Lemma code_char_no_space (c : N) : is_code_char c = true -> is_space c = false.
Proof.
  intro H. destruct (is_space c) eqn:S; [exfalso|reflexivity].
  unfold is_code_char, is_digit in H. unfold is_space in S.
  repeat (rewrite orb_true_iff in H || rewrite andb_true_iff in H
          || rewrite N.leb_le in H || rewrite N.eqb_eq in H).
  repeat (rewrite orb_true_iff in S || rewrite andb_true_iff in S
          || rewrite N.leb_le in S || rewrite N.eqb_eq in S).
  lia.
Qed.

Lemma trim_start_id (s : jsstring) :
  forallb is_code_char s = true -> trim_start s = s.
Proof.
  destruct s as [|c s]; [reflexivity|]. cbn [forallb trim_start].
  intro H. apply andb_true_iff in H. destruct H as [H _].
  now rewrite (code_char_no_space _ H).
Qed.

Lemma forallb_rev {A : Type} (p : A -> bool) (l : list A) :
  forallb p (rev l) = forallb p l.
Proof.
  induction l as [|a l IH]; [reflexivity|]. cbn [rev forallb].
  rewrite forallb_app, IH. cbn [forallb]. rewrite andb_true_r.
  apply andb_comm.
Qed.

Lemma trim_id (s : jsstring) : forallb is_code_char s = true -> trim s = s.
Proof.
  intro H. unfold trim. rewrite (trim_start_id _ H).
  rewrite trim_start_id by now rewrite forallb_rev.
  apply rev_involutive.
Qed.

Lemma forallb_filter_same {A : Type} (p : A -> bool) (l : list A) :
  forallb p (filter p l) = true.
Proof.
  induction l as [|a l IH]; [reflexivity|]. cbn [filter].
  destruct (p a) eqn:E; [cbn [forallb]; now rewrite E|exact IH].
Qed.

Lemma filter_id_iff {A : Type} (p : A -> bool) (l : list A) :
  filter p l = l <-> forallb p l = true.
Proof.
  split.
  - intro H. rewrite <- H. apply forallb_filter_same.
  - induction l as [|a l IH]; [reflexivity|]. cbn [forallb filter].
    intro H. apply andb_true_iff in H. destruct H as [Ha Hl].
    rewrite Ha. f_equal. now apply IH.
Qed.

Lemma sanitizeCode_filter (s : jsstring) :
  sanitizeCode s = filter is_code_char s.
Proof. unfold sanitizeCode. apply trim_id. apply forallb_filter_same. Qed.

Lemma sanitizeCode_id (s : jsstring) :
  forallb is_code_char s = true -> sanitizeCode s = s.
Proof. intro H. rewrite sanitizeCode_filter. now apply filter_id_iff. Qed.

(** X1: [sanitizeCode] keeps the letters, digits, [_] and [-] of its input,
    in order, and nothing else; the [trim] at its end never removes
    anything.  It is idempotent, and it leaves a string as it is exactly
    when the string has no other character. *)
Theorem sanitizeCode_keeps_code_chars (s : jsstring) :
  sanitizeCode s = filter is_code_char s
  /\ forallb is_code_char (sanitizeCode s) = true
  /\ sanitizeCode (sanitizeCode s) = sanitizeCode s
  /\ (sanitizeCode s = s <-> forallb is_code_char s = true).
Proof.
  pose proof (sanitizeCode_filter s) as E.
  assert (K : forallb is_code_char (sanitizeCode s) = true)
    by (rewrite E; apply forallb_filter_same).
  split; [exact E|]. split; [exact K|]. split.
  - now apply sanitizeCode_id.
  - rewrite E. apply filter_id_iff.
Qed.

Lemma chars_are_code_chars : forallb is_code_char chars = true.
Proof. vm_compute. reflexivity. Qed.

Lemma chars_length : N.of_nat (List.length chars) = 62%N.
Proof. vm_compute. reflexivity. Qed.

Lemma random_char_in_chars (n : N) :
  In (nth (N.to_nat (n mod N.of_nat (List.length chars))) chars 0%N) chars.
Proof.
  apply nth_In. rewrite chars_length.
  pose proof (N.mod_lt n 62 ltac:(discriminate)) as L.
  change (List.length chars) with 62%nat. lia.
Qed.

Lemma in_chars_random_char (c : N) : In c chars -> is_random_char c = true.
Proof.
  intro H. unfold is_random_char. apply existsb_exists.
  exists c. split; [exact H|apply N.eqb_refl].
Qed.

Lemma random_chars_code_chars (s : jsstring) :
  forallb is_random_char s = true -> forallb is_code_char s = true.
Proof.
  intro H. apply forallb_forall. intros c Hc.
  rewrite forallb_forall in H. pose proof (H c Hc) as R.
  unfold is_random_char in R. apply existsb_exists in R.
  destruct R as (x & Hx & E). apply N.eqb_eq in E. subst x.
  pose proof chars_are_code_chars as A. rewrite forallb_forall in A.
  now apply A.
Qed.

Lemma advance_zero (w : World) : advance 0 0 w = w.
Proof. destruct w. reflexivity. Qed.

Lemma advance_advance (t d t' d' : nat) (w : World) :
  advance t d (advance t' d' w) = advance (t + t') (d + d') w.
Proof.
  unfold advance. cbn [localStorage location_hash document_referrer
    navigator_userAgent navigator_language resolved_timeZone screen_width
    screen_height clock ticks entropy drawn navigations alerts].
  now rewrite !Nat.add_assoc.
Qed.

(** The run of [randomCode]: the i-th character comes from the i-th byte
    drawn. *)
Lemma randomCode_run (len : nat) (w : World) :
  randomCode len w
  = (Returned
       (List.map
          (fun i =>
             nth (N.to_nat ((entropy w (i + drawn w) mod 256)
                            mod N.of_nat (List.length chars))) chars 0%N)
          (seq 0 len)),
     advance 0 len w).
Proof.
  revert w. induction len as [|len IH]; intro w.
  - cbn [randomCode seq List.map]. unfold ret. now rewrite advance_zero.
  - cbn [randomCode]. unfold bind at 1. unfold random_byte at 1.
    cbn beta iota. unfold bind at 1. rewrite IH. unfold ret.
    cbn [seq List.map]. rewrite <- seq_shift, map_map.
    cbn [entropy drawn Nat.add]. f_equal.
    + f_equal. f_equal. apply map_ext. intro i.
      now rewrite Nat.add_succ_r.
    + unfold advance. cbn [localStorage location_hash document_referrer
        navigator_userAgent navigator_language resolved_timeZone
        screen_width screen_height clock ticks entropy drawn navigations
        alerts]. now rewrite Nat.add_succ_r.
Qed.

(** X2: [randomCode(len)] returns [len] characters, each one of the 62
    letters and digits of [chars], so that [sanitizeCode] would keep all of
    them.  It takes [len] random bytes and does nothing else to the
    browser; it cannot throw. *)
Theorem randomCode_draws_letters_and_digits (len : nat) (w : World) :
  exists s,
    randomCode len w = (Returned s, advance 0 len w)
    /\ List.length s = len
    /\ Forall (fun c => In c chars) s
    /\ forallb is_code_char s = true
    /\ sanitizeCode s = s.
Proof.
  rewrite randomCode_run. eexists. split; [reflexivity|].
  assert (Hin : Forall (fun c => In c chars)
                  (List.map
                     (fun i =>
                        nth (N.to_nat ((entropy w (i + drawn w) mod 256)
                                       mod N.of_nat (List.length chars)))
                          chars 0%N)
                     (seq 0 len))).
  { apply Forall_map. apply Forall_forall. intros i _.
    apply random_char_in_chars. }
  assert (Hc : forallb is_code_char
                 (List.map
                    (fun i =>
                       nth (N.to_nat ((entropy w (i + drawn w) mod 256)
                                      mod N.of_nat (List.length chars)))
                         chars 0%N)
                    (seq 0 len)) = true).
  { apply forallb_forall. intros c Hc. rewrite Forall_forall in Hin.
    pose proof chars_are_code_chars as A.
    rewrite forallb_forall in A. apply A. now apply Hin. }
  split; [now rewrite length_map, length_seq|].
  split; [exact Hin|]. split; [exact Hc|].
  now apply sanitizeCode_id.
Qed.

(** X3: [randomCode] does not draw its characters evenly.  Of the 256
    values of a byte, five are turned into each of the digits [0] to [7]
    and four into each other character, because 256 is not a multiple of
    62. *)
Theorem randomCode_is_biased (c : N) :
  In c chars ->
  List.length
    (filter
       (fun b =>
          (nth (N.to_nat (N.of_nat b mod N.of_nat (List.length chars)))
             chars 0 =? c)%N)
       (seq 0 256))
  = if (c <? 56)%N then 5%nat else 4%nat.
Proof.
  intro H.
  assert (A : forallb
                (fun c =>
                   Nat.eqb
                     (List.length
                        (filter
                           (fun b =>
                              (nth (N.to_nat (N.of_nat b
                                              mod N.of_nat (List.length chars)))
                                 chars 0 =? c)%N)
                           (seq 0 256)))
                     (if (c <? 56)%N then 5%nat else 4%nat))
                chars = true) by (vm_compute; reflexivity).
  rewrite forallb_forall in A. apply Nat.eqb_eq. now apply A.
Qed.

(** The letter [a] is the character of four bytes. *)
Lemma randomCode_is_biased_witness :
  List.length
    (filter
       (fun b =>
          (nth (N.to_nat (N.of_nat b mod N.of_nat (List.length chars)))
             chars 0 =? 97)%N)
       (seq 0 256))
  = 4%nat.
Proof.
  apply (@randomCode_is_biased 97%N). vm_compute. tauto.
Defined.

(* ===================================================================== *)
(** * The device *)
(* ===================================================================== *)

Lemma str_or_nonempty (s d : jsstring) : d <> [] -> str_or s d <> [].
Proof.
  intro H. unfold str_or. destruct s; [exact H|discriminate].
Qed.

(** X4: [deviceMeta] reads the browser and changes nothing.  The family it
    reports is one of six names; language and time zone are never empty.
    The family is [iOS] only when the lower-cased user agent names an
    iPhone, iPad or iPod and has none of [windows], [mac] and [android] in
    it: the test for [mac] comes first. *)
Theorem deviceMeta_reports (w : World) :
  let ua := toLowerCase (navigator_userAgent w) in
  exists family language zone size,
    deviceMeta w
    = (Returned [ (js "os", VStr family); (js "lang", VStr language);
                  (js "tz", VStr zone); (js "screen", VStr size) ], w)
    /\ In family [ js "Windows"; js "macOS"; js "Android"; js "iOS";
                   js "Linux"; js "Other" ]
    /\ language <> []
    /\ zone <> []
    /\ (family = js "iOS"
        <-> (contains (js "iphone") ua || contains (js "ipad") ua
             || contains (js "ipod") ua) = true
            /\ contains (js "windows") ua = false
            /\ contains (js "mac") ua = false
            /\ contains (js "android") ua = false).
Proof.
  intro ua.
  exists (os_family ua), (str_or (navigator_language w) (js "en")),
    (str_or (resolved_timeZone w) (js "UTC")),
    (dimension (screen_width w) ++ 120%N :: dimension (screen_height w)).
  split; [reflexivity|].
  split; [|split; [apply str_or_nonempty; discriminate|
           split; [apply str_or_nonempty; discriminate|]]].
  - unfold os_family.
    destruct (contains (js "windows") ua); [now left|].
    destruct (contains (js "mac") ua); [right; now left|].
    destruct (contains (js "android") ua); [right; right; now left|].
    destruct (contains (js "iphone") ua || contains (js "ipad") ua
              || contains (js "ipod") ua);
      [right; right; right; now left|].
    destruct (contains (js "linux") ua);
      [right; right; right; right; now left|].
    right; right; right; right; right; now left.
  - unfold os_family.
    destruct (contains (js "windows") ua);
      [split; [discriminate|intros (_ & H & _); discriminate H]|].
    destruct (contains (js "mac") ua);
      [split; [discriminate|intros (_ & _ & H & _); discriminate H]|].
    destruct (contains (js "android") ua);
      [split; [discriminate|intros (_ & _ & _ & H); discriminate H]|].
    destruct (contains (js "iphone") ua || contains (js "ipad") ua
              || contains (js "ipod") ua); [tauto|].
    destruct (contains (js "linux") ua);
      (split; [discriminate|intros (H & _); discriminate H]).
Qed.

(** The user agent of an iPhone says [like Mac OS X], and is reported as
    [macOS]; the one of an Android phone says [Linux], and is reported as
    [Android]. *)
Example deviceMeta_on_phones :
  os_family
    (toLowerCase
       (js "Mozilla/5.0 (iPhone; CPU iPhone OS 16_0 like Mac OS X) Safari"))
  = js "macOS"
  /\ os_family
       (toLowerCase (js "Mozilla/5.0 (Linux; Android 13; Pixel 7) Chrome"))
     = js "Android".
Proof. vm_compute. split; reflexivity. Qed.

(* ===================================================================== *)
(** * The backend *)
(* ===================================================================== *)

Lemma create_run (item : BatchItem) (w : World) :
  exists l d,
    create item w = (Returned l, advance 1 d w)
    /\ (d <= 6)%nat
    /\ created_from item (clock w (ticks w)) l.
Proof.
  unfold create.
  assert (R : exists s,
             randomCode 6 w = (Returned s, advance 0 6 w)
             /\ List.length s = 6%nat /\ forallb is_random_char s = true).
  { rewrite randomCode_run. eexists. split; [reflexivity|].
    split; [now rewrite length_map|].
    apply forallb_forall. intros c Hc. apply in_map_iff in Hc.
    destruct Hc as (i & <- & _). apply in_chars_random_char.
    apply random_char_in_chars. }
  destruct R as (s & Hs & Hlen & Hchars).
  assert (Random :
    exists l d,
      (code <- randomCode 6 ;;
       createdAt <- now ;;
       ret (mkLink code (item_longUrl item) createdAt
              match item_validityMinutes item with
              | Some v =>
                  if num_truthy v
                  then Some (num_scale_add createdAt v 60000) else None
              | None => None
              end [])) w
      = (Returned l, advance 1 d w)
      /\ (d <= 6)%nat
      /\ longUrl l = item_longUrl item
      /\ createdAt l = clock w (ticks w)
      /\ visits l = []
      /\ expiryTs l
         = match item_validityMinutes item with
           | Some v =>
               if num_truthy v
               then Some (num_scale_add (clock w (ticks w)) v 60000)
               else None
           | None => None
           end
      /\ List.length (code l) = 6%nat
      /\ forallb is_random_char (code l) = true).
  { unfold bind at 1. rewrite Hs. unfold bind, now, Date_now, ret.
    eexists. exists 6%nat. split; [reflexivity|].
    repeat split; try assumption. apply Nat.le_refl. }
  destruct (item_preferredCode item) as [p|] eqn:Ep.
  - destruct (nonempty p) eqn:En.
    + eexists. exists 0%nat. split; [reflexivity|].
      split; [lia|]. unfold created_from. rewrite Ep, En.
      repeat split.
    + destruct Random as (l & d & E & Hd & H1 & H2 & H3 & H4 & H5 & H6).
      exists l, d. split; [exact E|]. split; [exact Hd|].
      unfold created_from. rewrite Ep, En. repeat split; assumption.
  - destruct Random as (l & d & E & Hd & H1 & H2 & H3 & H4 & H5 & H6).
    exists l, d. split; [exact E|]. split; [exact Hd|].
    unfold created_from. rewrite Ep. repeat split; assumption.
Qed.

(** The run of [submitToBackend]. *)
Lemma submitToBackend_run (batch : list BatchItem) (w : World) :
  exists created d,
    submitToBackend batch w
    = (Returned created, advance (List.length batch) d w)
    /\ List.length created = List.length batch
    /\ (d <= 6 * List.length batch)%nat
    /\ forall i item,
         nth_error batch i = Some item ->
         exists l,
           nth_error created i = Some l
           /\ created_from item (clock w (i + ticks w)) l.
Proof.
  unfold submitToBackend. revert w.
  induction batch as [|item batch IH]; intro w.
  - exists [], 0%nat. cbn [map_M List.length]. unfold ret.
    rewrite advance_zero. repeat split; [lia|].
    intros [|i] item H; discriminate H.
  - destruct (create_run item w) as (l & d0 & El & Hd0 & Hl).
    destruct (IH (advance 1 d0 w)) as (created & d & E & Hlen & Hd & Hall).
    exists (l :: created), (d + d0)%nat.
    cbn [map_M]. unfold bind at 1. rewrite El. unfold bind at 1.
    rewrite E. unfold ret. rewrite advance_advance, Nat.add_1_r.
    cbn [List.length]. repeat split; [now rewrite Hlen|lia|].
    intros [|i] it H; cbn [nth_error] in *.
    + injection H as <-. exists l. split; [reflexivity|exact Hl].
    + destruct (Hall i it H) as (l' & Hn & Hc). exists l'.
      split; [exact Hn|]. cbn [clock ticks advance] in Hc.
      unfold advance in Hc. cbn [clock ticks] in Hc.
      now rewrite Nat.add_succ_r in Hc.
Qed.


(** X6: a link created with a validity of [z] minutes, [z] a positive
    integer, expires [z * 60000] milliseconds after its creation: it is
    counted active at every clock reading before [createdAt + z * 60000]
    and expired from that reading on.  The clock does not read a negative
    time when the link is created, and the instant of expiry is at most
    2^53, so that the sum the program computes is that integer. *)
Theorem created_link_lifetime (item : BatchItem) (w : World) (z : Z) :
  item_validityMinutes item = Some (NInt z) ->
  (0 < z)%Z ->
  (0 <= clock w (ticks w))%Z ->
  safe_integer (clock w (ticks w) + z * 60000) ->
  exists l w',
    submitToBackend [item] w = (Returned [l], w')
    /\ createdAt l = clock w (ticks w)
    /\ expiryTs l = Some (NInt (createdAt l + z * 60000))
    /\ forall w2,
         fst (is_active l w2)
         = Returned (clock w2 (ticks w2) <? createdAt l + z * 60000)%Z.
Proof.
  intros Hv Hz Hc _.
  destruct (create_run item w) as (l & d & El & _ & Hl).
  destruct Hl as (_ & Hat & _ & Hex & _).
  rewrite Hv in Hex. cbn [num_truthy num_scale_add] in Hex.
  destruct (Z.eqb_spec z 0) as [->|_]; [lia|]. cbn [negb] in Hex.
  exists l, (advance 1 d w). unfold submitToBackend. cbn [map_M].
  unfold bind at 1. rewrite El. unfold bind, ret.
  split; [reflexivity|]. split; [exact Hat|].
  split; [now rewrite Hat|].
  intro w2. rewrite is_active_eq, Hex. cbn [num_truthy].
  destruct (Z.eqb_spec (clock w (ticks w) + z * 60000) 0) as [E|_]; [lia|].
  cbn [negb fst num_gt]. now rewrite Hat.
Qed.

(** A link made to last thirty minutes in the browser of the examples. *)
Lemma created_link_lifetime_witness :
  exists l w',
    submitToBackend [mkItem (js "https://example.com/d") (Some (NInt 30)) None]
      (example_browser None [])
    = (Returned [l], w')
    /\ createdAt l = 1700000000000%Z
    /\ expiryTs l = Some (NInt (createdAt l + 30 * 60000))
    /\ forall w2,
         fst (is_active l w2)
         = Returned (clock w2 (ticks w2) <? createdAt l + 30 * 60000)%Z.
Proof.
  apply (@created_link_lifetime
           (mkItem (js "https://example.com/d") (Some (NInt 30)) None)
           (example_browser None []) 30%Z).
  - reflexivity.
  - lia.
  - cbn. lia.
  - unfold safe_integer. cbn. lia.
Defined.

(* ===================================================================== *)
(** * The creation flow: what an accepted batch creates *)
(* ===================================================================== *)

Lemma valid_code_sanitized (s : jsstring) :
  sanitizeCode s <> [] -> valid_code (sanitizeCode s) = true.
Proof.
  intro H. unfold valid_code. apply andb_true_iff. split.
  - now apply nonempty_true.
  - rewrite sanitizeCode_filter. apply forallb_filter_same.
Qed.

Lemma valid_code_six (s : jsstring) :
  List.length s = 6%nat -> forallb is_random_char s = true ->
  valid_code s = true.
Proof.
  intros L H. unfold valid_code. rewrite (random_chars_code_chars _ H).
  destruct s; [discriminate L|reflexivity].
Qed.

Section AcceptedBatch.

Variable URL_protocol : jsstring -> option jsstring.
Variable StringToNumber : jsstring -> number.

Local Notation "'check'" := (validate URL_protocol StringToNumber).
Local Notation "'submit'" := (onSubmit URL_protocol StringToNumber).
Local Notation "'invalid'" := (invalid_row URL_protocol StringToNumber).

Lemma onSubmit_accepted_run (app : AppState) (w : World) :
  (forall r, In r (rows app) -> ~ invalid (links app) r) ->
  exists created d,
    submit app w
    = (Returned (mkApp (created ++ links app) [blank_row] created false),
       snd (saveLinks (links_value (created ++ links app))
              (advance (List.length (rows app)) d w)))
    /\ List.length created = List.length (rows app)
    /\ (d <= 6 * List.length (rows app))%nat
    /\ forall i r,
         nth_error (rows app) i = Some r ->
         exists l,
           nth_error created i = Some l
           /\ created_from (batch_item StringToNumber r)
                (clock w (i + ticks w)) l.
Proof.
  intro Hok.
  assert (Hno : forall r, In r (rows app) ->
                          has_errors (check r (existing_codes (links app)))
                          = false).
  { intros r Hin. apply not_true_is_false. intro H.
    apply has_errors_invalid in H. now apply (Hok r Hin). }
  rewrite (valid_batch_is_created _ _ _ w Hno).
  destruct (submitToBackend_run
              (List.map (batch_item StringToNumber) (rows app)) w)
    as (created & d & E & Hlen & Hd & Hall).
  rewrite length_map in *.
  exists created, d. unfold bind at 1. rewrite E. unfold bind, ret.
  cbn [fst snd]. split; [reflexivity|]. split; [exact Hlen|].
  split; [exact Hd|]. intros i r Hr.
  apply (Hall i (batch_item StringToNumber r)).
  now rewrite nth_error_map, Hr.
Qed.

(** What a row without error asks for as its code. *)
Lemma accepted_row_code (links : list LinkRecord) (r : Row) :
  ~ invalid links r ->
  item_preferredCode (batch_item StringToNumber r)
  = (if nonempty (row_preferredCode r)
     then Some (sanitizeCode (row_preferredCode r)) else None)
  /\ (row_preferredCode r <> [] ->
      sanitizeCode (row_preferredCode r) <> []
      /\ forall old, In old links ->
                     toLowerCase (sanitizeCode (row_preferredCode r))
                     <> toLowerCase (code old)).
Proof.
  intro Hok. unfold invalid_row in Hok. unfold batch_item.
  cbn [item_preferredCode].
  destruct (row_preferredCode r) as [|c p] eqn:Ep.
  - split; [reflexivity|congruence].
  - assert (Hs : sanitizeCode (c :: p) <> []).
    { intro E. apply Hok. right. right. split; [discriminate|now left]. }
    split.
    + cbn [nonempty]. apply nonempty_true in Hs. now rewrite Hs.
    + intros _. split; [exact Hs|]. intros old Hin E. apply Hok.
      right. right. split; [discriminate|]. right. eauto.
Qed.


(** X8: in an accepted batch, a row that asks for a code gets what
    [sanitizeCode] leaves of it - characters may be dropped without an
    error - and that code differs, also up to letter case, from the code
    of every record that was in the store.  A row that asks for none gets
    six of the 62 letters and digits of [randomCode].  The codes of the
    store are made of letters, digits, [_] and [-], on which lower case is
    that of the language. *)
Theorem accepted_codes (app : AppState) (w : World) :
  (forall old, In old (links app) ->
               forallb is_code_char (code old) = true) ->
  (forall r, In r (rows app) -> ~ invalid (links app) r) ->
  exists app',
    fst (submit app w) = Returned app'
    /\ forall i r,
         nth_error (rows app) i = Some r ->
         exists l,
           nth_error (links app') i = Some l
           /\ (row_preferredCode r <> [] ->
               code l = sanitizeCode (row_preferredCode r)
               /\ forall old,
                    In old (links app) ->
                    toLowerCase (code l) <> toLowerCase (code old))
           /\ (row_preferredCode r = [] ->
               List.length (code l) = 6%nat
               /\ forallb is_random_char (code l) = true).
Proof.
  intros _ Hok.
  destruct (onSubmit_accepted_run app w Hok)
    as (created & d & E & Hlen & _ & Hall).
  eexists. rewrite E. split; [reflexivity|]. cbn [links].
  intros i r Hr. destruct (Hall i r Hr) as (l & Hl & _ & _ & _ & _ & Hc).
  assert (Hin : In r (rows app)) by (eapply nth_error_In; exact Hr).
  destruct (accepted_row_code (Hok r Hin)) as (Hp & Hfree).
  rewrite Hp in Hc.
  exists l. split.
  - rewrite nth_error_app1; [exact Hl|].
    apply nth_error_Some. congruence.
  - split.
    + intro Hne. destruct (Hfree Hne) as (Hs & Hold).
      apply nonempty_true in Hne. rewrite Hne in Hc.
      apply nonempty_true in Hs. rewrite Hs in Hc.
      split; [exact Hc|]. intros old Hin'. rewrite Hc. now apply Hold.
    + intro He. rewrite He in Hc. exact Hc.
Qed.



End AcceptedBatch.



(** A row that asks for [my code!] gets [mycode]. *)
Lemma accepted_codes_witness :
  exists app' l,
    fst (onSubmit scheme_only decimal_only
           (mkApp mixed_case_store
              [mkRow (js "https://example.com/e") [] (js "my code!")
                 no_errors] [] false)
           (example_browser None []))
    = Returned app'
    /\ nth_error (links app') 0 = Some l
    /\ code l = js "mycode".
Proof.
  destruct (@accepted_codes scheme_only decimal_only
              (mkApp mixed_case_store
                 [mkRow (js "https://example.com/e") [] (js "my code!")
                    no_errors] [] false)
              (example_browser None []))
    as (app' & E & H).
  - intros old [<-|[]]. reflexivity.
  - intros r [<-|[]] Hinv. apply has_errors_invalid in Hinv.
    vm_compute in Hinv. discriminate.
  - destruct (H 0%nat _ eq_refl) as (l & Hl & Hc & _).
    exists app', l. split; [exact E|]. split; [exact Hl|].
    apply Hc. discriminate.
Defined.

(* ===================================================================== *)
(** * The form: [setRow], [addRow], [removeRow] *)
(* ===================================================================== *)

Lemma map_indexed_length {A B : Type} (f : A -> nat -> B) (l : list A)
  (k : nat) :
  List.length (map_indexed f l k) = List.length l.
Proof.
  revert k. induction l as [|a l IH]; intro k; cbn; congruence.
Qed.

Lemma map_indexed_nth {A B : Type} (f : A -> nat -> B) (l : list A)
  (k j : nat) :
  nth_error (map_indexed f l k) j
  = option_map (fun a => f a (j + k)%nat) (nth_error l j).
Proof.
  revert k j. induction l as [|a l IH]; intros k [|j]; cbn; try reflexivity.
  rewrite IH. now rewrite Nat.add_succ_r.
Qed.

Lemma filter_indexed_skip {A : Type} (l : list A) (i k : nat) :
  (i < k)%nat ->
  filter_indexed (fun _ idx => negb (Nat.eqb idx i)) l k = l.
Proof.
  revert k. induction l as [|a l IH]; intros k H; [reflexivity|].
  cbn [filter_indexed].
  destruct (Nat.eqb_spec k i) as [E|_]; [lia|]. cbn [negb].
  f_equal. apply IH. lia.
Qed.

Lemma filter_indexed_remove {A : Type} (l : list A) (i k : nat) :
  filter_indexed (fun _ idx => negb (Nat.eqb idx (i + k))) l k
  = firstn i l ++ skipn (S i) l.
Proof.
  revert i k. induction l as [|a l IH]; intros i k.
  - now destruct i.
  - cbn [filter_indexed]. destruct i as [|i].
    + cbn [Nat.add]. rewrite Nat.eqb_refl. cbn [negb firstn skipn app].
      apply filter_indexed_skip. lia.
    + destruct (Nat.eqb_spec k (S i + k)) as [E|_]; [lia|]. cbn [negb].
      cbn [firstn skipn app]. f_equal.
      replace (S i + k)%nat with (i + S k)%nat by lia. apply IH.
Qed.

(** X11: [setRow(i, patch)] puts the keys of [patch] into row [i] and into
    no other row; the number and the order of the rows, the collection and
    the created batch stay.  A patch of one input keeps the other inputs of
    the row and its errors, so the messages of the last submission stay
    until the next one; an index beyond the rows changes nothing. *)
Theorem setRow_changes_one_row (i : nat) (patch : Patch) (app : AppState) :
  links (setRow i patch app) = links app
  /\ createdBatch (setRow i patch app) = createdBatch app
  /\ List.length (rows (setRow i patch app)) = List.length (rows app)
  /\ (forall j, j <> i ->
        nth_error (rows (setRow i patch app)) j = nth_error (rows app) j)
  /\ nth_error (rows (setRow i patch app)) i
     = option_map (fun r => spread r patch) (nth_error (rows app) i)
  /\ (forall r, patch_errors patch = None ->
                row_errors (spread r patch) = row_errors r)
  /\ (List.length (rows app) <= i -> rows (setRow i patch app) = rows app)%nat.
Proof.
  unfold setRow. cbn [links createdBatch rows].
  split; [reflexivity|]. split; [reflexivity|].
  split; [apply map_indexed_length|].
  assert (Other : forall j, j <> i ->
            nth_error
              (map_indexed
                 (fun row idx =>
                    if Nat.eqb idx i then spread row patch else row)
                 (rows app) 0) j
            = nth_error (rows app) j).
  { intros j Hj. rewrite map_indexed_nth, Nat.add_0_r.
    destruct (Nat.eqb_spec j i) as [E|_]; [contradiction|].
    now destruct (nth_error (rows app) j). }
  split; [exact Other|]. split.
  - rewrite map_indexed_nth, Nat.add_0_r, Nat.eqb_refl. reflexivity.
  - split.
    + intros r H. unfold spread. cbn [row_errors]. now rewrite H.
    + intro Hlen. apply nth_error_ext. intro j.
      destruct (Nat.eq_dec j i) as [->|Hj]; [|now apply Other].
      rewrite map_indexed_nth, Nat.add_0_r, Nat.eqb_refl.
      apply nth_error_None in Hlen. now rewrite Hlen.
Qed.

Lemma removeRow_rows_eq (i : nat) (app : AppState) :
  rows (removeRow i app) = firstn i (rows app) ++ skipn (S i) (rows app).
Proof.
  unfold removeRow. cbn [rows].
  rewrite <- (filter_indexed_remove (rows app) i 0).
  now rewrite Nat.add_0_r.
Qed.

(** X12: [removeRow(i)] takes out the row at index [i] and keeps the other
    rows in their order: one row less when [i] is an index of the form,
    and no change otherwise.  The function itself would take out the only
    row of a form; that the form keeps a row is left to the page, which
    shows [Remove] when there are two rows or more. *)
Theorem removeRow_takes_one_row (i : nat) (app : AppState) :
  rows (removeRow i app) = firstn i (rows app) ++ skipn (S i) (rows app)
  /\ links (removeRow i app) = links app
  /\ ((i < List.length (rows app))%nat ->
      S (List.length (rows (removeRow i app))) = List.length (rows app))
  /\ ((List.length (rows app) <= i)%nat ->
      rows (removeRow i app) = rows app)
  /\ (forall r, rows app = [r] -> rows (removeRow 0 app) = []).
Proof.
  pose proof (removeRow_rows_eq i app) as E.
  split; [exact E|]. split; [reflexivity|]. split; [|split].
  - intro H. rewrite E, length_app, length_firstn, length_skipn. lia.
  - intro H. rewrite E, firstn_all2 by exact H.
    rewrite skipn_all2 by lia. apply List.app_nil_r.
  - intros r Hr. unfold removeRow. cbn [rows]. now rewrite Hr.
Qed.

Lemma addRow_rows (app : AppState) :
  rows (addRow app)
  = (if Nat.ltb (List.length (rows app)) 5 then rows app ++ [blank_row]
     else rows app)
  /\ links (addRow app) = links app.
Proof.
  unfold addRow. now destruct (Nat.ltb (List.length (rows app)) 5).
Qed.

(* ===================================================================== *)
(** * The page: [onSubmit] on what was loaded, and the events of the form *)
(* ===================================================================== *)

Lemma lower_codes_returns (items : list value) :
  forallb has_string_code items = true ->
  exists existing, lower_codes items = Returned existing.
Proof.
  induction items as [|l items IH]; [now exists []|].
  cbn [forallb lower_codes]. intro H. apply andb_true_iff in H.
  destruct H as (Hl & Hi). unfold has_string_code in Hl. unfold lower_code.
  destruct (get l (js "code")) as [[|b|n|c|a|o]|]; try discriminate Hl.
  destruct (IH Hi) as (cs & E). rewrite E. now eexists.
Qed.

Lemma lower_codes_throws (items : list value) :
  forallb has_string_code items = false ->
  lower_codes items = Thrown TypeError.
Proof.
  induction items as [|l items IH]; [discriminate|].
  cbn [forallb lower_codes]. unfold has_string_code, lower_code.
  destruct (get l (js "code")) as [[|b|n|c|a|o]|]; try reflexivity.
  cbn [andb]. intro H. now rewrite (IH H).
Qed.

Lemma lower_codes_links (links : list LinkRecord) :
  lower_codes (List.map link_value links) = Returned (existing_codes links).
Proof.
  induction links as [|l links IH]; [reflexivity|].
  cbn [List.map lower_codes existing_codes].
  change (lower_code (link_value l)) with (Returned (toLowerCase (code l))).
  unfold existing_codes in IH. now rewrite IH.
Qed.

Lemma with_codes_items (v : value) :
  with_codes v = true ->
  exists items, v = VArr items /\ forallb has_string_code items = true.
Proof.
  destruct v as [|b|n|s|items|props]; try discriminate.
  intro H. now exists items.
Qed.

Lemma links_have_codes (links : list LinkRecord) :
  forallb has_string_code (List.map link_value links) = true.
Proof.
  apply forallb_forall. intros v H. apply in_map_iff in H.
  destruct H as (l & <- & _). reflexivity.
Qed.

Section Form.

Variable URL_protocol : jsstring -> option jsstring.
Variable StringToNumber : jsstring -> number.

Local Notation "'submit'" := (onSubmit_page URL_protocol StringToNumber).
Local Notation "'run'" := (handle_all URL_protocol StringToNumber).

(** On a collection of records, [onSubmit] on the state of the page does
    what [onSubmit] on the records does. *)
Lemma onSubmit_page_records (app : AppState) (w : World) :
  submit (page_of app) w
  = (match fst (onSubmit URL_protocol StringToNumber app w) with
     | Returned app' => Returned (page_of app')
     | Thrown e => Thrown e
     end,
     snd (onSubmit URL_protocol StringToNumber app w)).
Proof.
  unfold onSubmit_page, onSubmit, page_of.
  cbn [page_links page_rows page_createdBatch page_creating].
  unfold links_value at 1. rewrite lower_codes_links. cbv zeta.
  destruct (existsb (fun r => has_errors (row_errors r))
              (List.map
                 (fun r =>
                    mkRow (row_longUrl r) (row_validityMinutes r)
                      (row_preferredCode r)
                      (validate URL_protocol StringToNumber r
                         (existing_codes (links app))))
                 (rows app))); [reflexivity|].
  unfold bind.
  destruct (submitToBackend _ w) as [[created|e] w1]; [|reflexivity].
  unfold saveLinks, setItem, ret. cbn [fst snd links rows createdBatch
    creating]. unfold links_value. now rewrite map_app.
Qed.

(** The code of a created record is a code as the program makes them. *)
Lemma created_code_valid (r : Row) (t : Z) (l : LinkRecord) :
  created_from (batch_item StringToNumber r) t l ->
  valid_code (code l) = true.
Proof.
  intros (_ & _ & _ & _ & H). unfold batch_item in H.
  cbn [item_preferredCode] in H.
  destruct (nonempty (sanitizeCode (row_preferredCode r))) eqn:E.
  - rewrite E in H. rewrite H. apply valid_code_sanitized.
    now apply nonempty_true.
  - destruct H as (L & C). now apply valid_code_six.
Qed.

Lemma onSubmit_page_throws (p : PageState) (w : World) :
  with_codes (page_links p) = false -> submit p w = (Thrown TypeError, w).
Proof.
  unfold onSubmit_page, with_codes.
  destruct (page_links p) as [|b|n|s|items|props]; try reflexivity.
  intro H. now rewrite (lower_codes_throws _ H).
Qed.

(** The two runs of [onSubmit] on a collection whose items have codes: the
    batch is refused, or it is created. *)
Lemma onSubmit_page_run (p : PageState) (w : World) (items : list value) :
  page_links p = VArr items ->
  forallb has_string_code items = true ->
  (exists validated,
     submit p w
     = (Returned (mkPage (VArr items) validated (page_createdBatch p)
                    (page_creating p)),
        snd (alert (js "Fix errors first.") w))
     /\ List.length validated = List.length (page_rows p))
  \/ (exists created d,
        submit p w
        = (Returned (mkPage (VArr (List.map link_value created ++ items))
                       [blank_row] created false),
           snd (saveLinks (VArr (List.map link_value created ++ items))
                  (advance (List.length (page_rows p)) d w)))
        /\ List.length created = List.length (page_rows p)
        /\ forall i r,
             nth_error (page_rows p) i = Some r ->
             exists l,
               nth_error created i = Some l
               /\ created_from (batch_item StringToNumber r)
                    (clock w (i + ticks w)) l).
Proof.
  intros El Hc. destruct (lower_codes_returns _ Hc) as (existing & Ee).
  unfold onSubmit_page. rewrite El, Ee. cbv zeta.
  destruct (existsb (fun r => has_errors (row_errors r))
              (List.map
                 (fun r =>
                    mkRow (row_longUrl r) (row_validityMinutes r)
                      (row_preferredCode r)
                      (validate URL_protocol StringToNumber r existing))
                 (page_rows p))).
  - left. eexists. split; [reflexivity|]. now rewrite length_map.
  - right. rewrite map_map.
    change (List.map
              (fun x =>
                 batch_item StringToNumber
                   (mkRow (row_longUrl x) (row_validityMinutes x)
                      (row_preferredCode x)
                      (validate URL_protocol StringToNumber x existing)))
              (page_rows p))
      with (List.map (batch_item StringToNumber) (page_rows p)).
    destruct (submitToBackend_run
                (List.map (batch_item StringToNumber) (page_rows p)) w)
      as (created & d & E & Hlen & _ & Hall).
    rewrite length_map in *.
    exists created, d. unfold bind at 1. rewrite E. unfold bind, ret.
    cbn [fst snd]. split; [reflexivity|]. split; [exact Hlen|].
    intros i r Hr. apply (Hall i (batch_item StringToNumber r)).
    now rewrite nth_error_map, Hr.
Qed.

(** X9: [onSubmit] throws a [TypeError], and has done nothing by then,
    exactly when the [links] of the page are not an array of items that
    each have a string as their [code]; on such an array it returns.  It
    never navigates.  It leaves the old items as they are, in their
    order, behind the records it creates: none for a refused batch, one
    per row for an accepted one.  Every item has a string as its code
    afterwards, and when every old code is made of letters, digits, [_]
    and [-] and is not empty, so is every code afterwards. *)
Theorem onSubmit_only_prepends (p : PageState) (w : World) :
  (with_codes (page_links p) = false -> submit p w = (Thrown TypeError, w))
  /\ (with_codes (page_links p) = true ->
      exists items created p' w',
        page_links p = VArr items
        /\ submit p w = (Returned p', w')
        /\ page_links p' = VArr (List.map link_value created ++ items)
        /\ (created = [] \/ List.length created = List.length (page_rows p))
        /\ navigations w' = navigations w
        /\ with_codes (page_links p') = true
        /\ (forallb item_code_ok items = true ->
            forallb item_code_ok (List.map link_value created ++ items)
            = true)).
Proof.
  split; [apply onSubmit_page_throws|]. intro Hw.
  destruct (with_codes_items _ Hw) as (items & El & Hc).
  destruct (@onSubmit_page_run p w items El Hc)
    as [(validated & E & _)|(created & d & E & Hlen & Hall)].
  - exists items, []. eexists. eexists. split; [exact El|].
    split; [exact E|]. cbn [page_links List.map app with_codes].
    split; [reflexivity|]. split; [now left|]. split; [reflexivity|].
    split; [exact Hc|]. auto.
  - exists items, created. eexists. eexists. split; [exact El|].
    split; [exact E|]. cbn [page_links with_codes].
    split; [reflexivity|]. split; [now right|]. split; [reflexivity|].
    split.
    + rewrite forallb_app, Hc, andb_true_r. apply links_have_codes.
    + intro Hold. rewrite forallb_app, Hold, andb_true_r.
      apply forallb_forall. intros v Hv. apply in_map_iff in Hv.
      destruct Hv as (l & <- & Hin).
      change (item_code_ok (link_value l)) with (valid_code (code l)).
      apply In_nth_error in Hin. destruct Hin as (i & Hi).
      assert (Hlt : (i < List.length (page_rows p))%nat).
      { rewrite <- Hlen. apply nth_error_Some. congruence. }
      destruct (nth_error (page_rows p) i) as [r|] eqn:Hr;
        [|apply nth_error_None in Hr; lia].
      destruct (Hall i r Hr) as (l' & Hl' & Hfrom).
      rewrite Hi in Hl'. injection Hl' as <-.
      exact (created_code_valid Hfrom).
Qed.

Lemma handle_keeps (ev : event) (p : PageState) (w : World)
  (items : list value) :
  page_links p = VArr items ->
  forallb has_string_code items = true ->
  (List.length (page_rows p) <= 5)%nat ->
  exists p' w' created,
    handle URL_protocol StringToNumber ev p w = (Returned p', w')
    /\ (List.length (page_rows p') <= 5)%nat
    /\ page_links p' = VArr (List.map link_value created ++ items)
    /\ forallb has_string_code (List.map link_value created ++ items)
       = true
    /\ navigations w' = navigations w.
Proof.
  intros El Hc H. destruct ev as [i patch| |i|]; cbn [handle].
  - exists (with_form p (setRow i patch (form_of p))), w, []. unfold ret.
    split; [reflexivity|]. split; [|now repeat split].
    cbn [with_form page_rows setRow rows form_of].
    now rewrite map_indexed_length.
  - exists (with_form p (addRow (form_of p))), w, []. unfold ret.
    split; [reflexivity|]. split; [|now repeat split].
    cbn [with_form page_rows]. rewrite (proj1 (addRow_rows (form_of p))).
    cbn [form_of rows].
    destruct (Nat.ltb_spec (List.length (page_rows p)) 5);
      [rewrite length_app; cbn [List.length]; lia|lia].
  - exists (with_form p (removeRow i (form_of p))), w, []. unfold ret.
    split; [reflexivity|]. split; [|now repeat split].
    cbn [with_form page_rows]. rewrite (removeRow_rows_eq i (form_of p)).
    cbn [form_of rows].
    rewrite length_app, length_firstn, length_skipn. lia.
  - destruct (@onSubmit_page_run p w items El Hc)
      as [(validated & E & Hlen)|(created & d & E & Hlen & _)].
    + eexists. eexists. exists []. split; [exact E|].
      cbn [page_rows page_links List.map app]. rewrite Hlen.
      now repeat split.
    + eexists. eexists. exists created. split; [exact E|].
      cbn [page_rows page_links List.length].
      split; [lia|]. split; [reflexivity|]. split; [|reflexivity].
      rewrite forallb_app, Hc, andb_true_r. apply links_have_codes.
Qed.

Lemma handle_all_keeps (evs : list event) :
  forall (p : PageState) (w : World) (items : list value),
    page_links p = VArr items ->
    forallb has_string_code items = true ->
    (List.length (page_rows p) <= 5)%nat ->
    exists p' w' created,
      run evs p w = (Returned p', w')
      /\ (List.length (page_rows p') <= 5)%nat
      /\ page_links p' = VArr (List.map link_value created ++ items)
      /\ navigations w' = navigations w.
Proof.
  induction evs as [|ev evs IH]; intros p w items El Hc H.
  - exists p, w, []. now repeat split.
  - destruct (@handle_keeps ev p w items El Hc H)
      as (p1 & w1 & c1 & E1 & H1 & L1 & C1 & N1).
    destruct (IH p1 w1 _ L1 C1 H1) as (p2 & w2 & c2 & E2 & H2 & L2 & N2).
    exists p2, w2, (c2 ++ c1). cbn [handle_all]. unfold bind.
    rewrite E1, E2. split; [reflexivity|]. split; [exact H2|].
    split; [now rewrite L2, map_app, app_assoc|congruence].
Qed.

(** X13: on a page whose [links] are an array of items that each have a
    string as their [code], whatever the user does with the form -
    editing, adding and removing rows, submitting - and in whatever order,
    no handler throws or navigates, the form never has more than five rows
    once it has at most five, and the items that were in the collection
    stay at its end, unchanged and in their order. *)
Theorem form_keeps_five_rows (evs : list event) (p : PageState)
  (w : World) :
  with_codes (page_links p) = true ->
  (List.length (page_rows p) <= 5)%nat ->
  exists items created p' w',
    page_links p = VArr items
    /\ run evs p w = (Returned p', w')
    /\ (List.length (page_rows p') <= 5)%nat
    /\ page_links p' = VArr (List.map link_value created ++ items)
    /\ navigations w' = navigations w.
Proof.
  intros Hw H. destruct (with_codes_items _ Hw) as (items & El & Hc).
  destruct (@handle_all_keeps evs p w items El Hc H)
    as (p' & w' & created & E & H' & L & N).
  exists items, created, p', w'. split; [exact El|].
  split; [exact E|]. split; [exact H'|]. split; [exact L|exact N].
Qed.

Lemma handle_offered (ev : event) (p : PageState) (w : World)
  (items : list value) :
  page_links p = VArr items ->
  forallb has_string_code items = true ->
  offered ev p = true ->
  (1 <= List.length (page_rows p))%nat ->
  exists p' w',
    handle URL_protocol StringToNumber ev p w = (Returned p', w')
    /\ (1 <= List.length (page_rows p'))%nat.
Proof.
  intros El Hc Hoff H. destruct ev as [i patch| |i|];
    cbn [handle offered] in *.
  - eexists. eexists. split; [reflexivity|].
    cbn [with_form page_rows setRow rows form_of].
    now rewrite map_indexed_length.
  - eexists. eexists. split; [reflexivity|].
    cbn [with_form page_rows]. rewrite (proj1 (addRow_rows (form_of p))).
    cbn [form_of rows].
    destruct (Nat.ltb (List.length (page_rows p)) 5); [|exact H].
    rewrite length_app. lia.
  - eexists. eexists. split; [reflexivity|].
    apply andb_true_iff in Hoff. destruct Hoff as (H1 & H2).
    apply Nat.ltb_lt in H1, H2.
    cbn [with_form page_rows]. rewrite (removeRow_rows_eq i (form_of p)).
    cbn [form_of rows].
    rewrite length_app, length_firstn, length_skipn. lia.
  - destruct (@onSubmit_page_run p w items El Hc)
      as [(validated & E & Hlen)|(created & d & E & _)].
    + eexists. eexists. split; [exact E|].
      cbn [page_rows]. now rewrite Hlen.
    + eexists. eexists. split; [exact E|].
      cbn [page_rows List.length]. lia.
Qed.

(** X14: on a page whose [links] are an array of items that each have a
    string as their [code], as long as the user does what the page offers
    - [Remove] is shown only when there are two rows or more, [Add
    another] only below five - the form has between one and five rows
    after every event, and no handler throws. *)
Theorem form_has_a_row (evs : list event) (p : PageState) (w : World) :
  with_codes (page_links p) = true ->
  (1 <= List.length (page_rows p) <= 5)%nat ->
  all_offered URL_protocol StringToNumber evs p w = true ->
  exists p' w',
    run evs p w = (Returned p', w')
    /\ (1 <= List.length (page_rows p') <= 5)%nat.
Proof.
  revert p w. induction evs as [|ev evs IH]; intros p w Hw (Lo & Hi) Hoff.
  - exists p, w. split; [reflexivity|]. split; assumption.
  - destruct (with_codes_items _ Hw) as (items & El & Hc).
    cbn [all_offered] in Hoff. apply andb_true_iff in Hoff.
    destruct Hoff as (Hev & Hrest).
    destruct (@handle_offered ev p w items El Hc Hev Lo)
      as (p1 & w1 & E1 & Lo1).
    destruct (@handle_keeps ev p w items El Hc Hi)
      as (p1' & w1' & c1 & E1' & Hi1 & L1 & C1 & _).
    rewrite E1 in E1'. injection E1' as <- <-.
    rewrite E1 in Hrest.
    assert (Hw1 : with_codes (page_links p1) = true) by now rewrite L1.
    destruct (IH p1 w1 Hw1 (conj Lo1 Hi1) Hrest) as (p2 & w2 & E2 & H2).
    exists p2, w2. cbn [handle_all]. unfold bind. rewrite E1.
    split; [exact E2|exact H2].
Qed.

End Form.

(** Four rows are added, two are taken out again, a URL is typed and the
    form is sent. *)
Lemma form_keeps_five_rows_witness :
  exists p',
    fst (handle_all scheme_only decimal_only
           [EvAddRow; EvAddRow; EvAddRow; EvAddRow; EvAddRow; EvAddRow;
            EvRemoveRow 7; EvRemoveRow 0;
            EvSetRow 0
              (mkPatch (Some (js "https://example.com/f")) None None None);
            EvSubmit]
           (initial_page (links_value mixed_case_store))
           (example_browser None []))
    = Returned p'
    /\ (List.length (page_rows p') <= 5)%nat.
Proof.
  destruct (@form_keeps_five_rows scheme_only decimal_only
              [EvAddRow; EvAddRow; EvAddRow; EvAddRow; EvAddRow; EvAddRow;
               EvRemoveRow 7; EvRemoveRow 0;
               EvSetRow 0
                 (mkPatch (Some (js "https://example.com/f")) None None
                    None);
               EvSubmit]
              (initial_page (links_value mixed_case_store))
              (example_browser None []))
    as (items & created & p' & w' & _ & E & H & _).
  - reflexivity.
  - cbn. lia.
  - exists p'. rewrite E. split; [reflexivity|exact H].
Defined.

(** A row is added and taken out again, a URL is typed and the form is
    sent. *)
Lemma form_has_a_row_witness :
  exists p',
    fst (handle_all scheme_only decimal_only
           [EvAddRow; EvRemoveRow 0;
            EvSetRow 0
              (mkPatch (Some (js "https://example.com/f")) None None None);
            EvSubmit]
           (initial_page (links_value mixed_case_store))
           (example_browser None []))
    = Returned p'
    /\ (1 <= List.length (page_rows p') <= 5)%nat.
Proof.
  destruct (@form_has_a_row scheme_only decimal_only
              [EvAddRow; EvRemoveRow 0;
               EvSetRow 0
                 (mkPatch (Some (js "https://example.com/f")) None None
                    None);
               EvSubmit]
              (initial_page (links_value mixed_case_store))
              (example_browser None []))
    as (p' & w' & E & H).
  - reflexivity.
  - cbn. lia.
  - vm_compute. reflexivity.
  - exists p'. rewrite E. split; [reflexivity|exact H].
Defined.

(* ===================================================================== *)
(** * Statistics over time and over visits *)
(* ===================================================================== *)

Lemma num_gt_earlier (e : number) (t1 t2 : Z) :
  (t1 <= t2)%Z -> num_gt e t2 = true -> num_gt e t1 = true.
Proof.
  intro H. destruct e as [z|m k| |neg]; cbn [num_gt]; auto.
  - rewrite !Z.ltb_lt. lia.
  - rewrite !Z.ltb_lt. intro G.
    assert (0 <= 10 ^ Z.pos k)%Z by (apply Z.pow_nonneg; lia). nia.
Qed.

Lemma stats_run (links : list LinkRecord) (w : World) :
  exists n w',
    count_active links w = (Returned n, w')
    /\ (n <= List.length links)%nat
    /\ stats links w
       = (Returned
            (mkStats (List.length links) n (List.length links - n)
               (fold_left (fun s l => (s + List.length (visits l))%nat)
                  links O)), w').
Proof.
  destruct (count_active_returns links w) as (n & w' & E & Hn).
  exists n, w'. split; [exact E|]. split; [exact Hn|].
  unfold stats, bind. now rewrite E.
Qed.

(** Who is counted at a later reading of the same clock is counted at an
    earlier one. *)
Lemma count_active_later (links : list LinkRecord) :
  forall (w1 w2 : World) (n1 n2 : nat) (w1' w2' : World),
    (forall n m, (n <= m)%nat -> (clock w1 n <= clock w1 m)%Z) ->
    (forall n, clock w2 n = clock w1 n) ->
    (ticks w1 <= ticks w2)%nat ->
    count_active links w1 = (Returned n1, w1') ->
    count_active links w2 = (Returned n2, w2') ->
    (n2 <= n1)%nat.
Proof.
  induction links as [|l links IH]; intros w1 w2 n1 n2 w1' w2' Hm Hc Ht E1 E2.
  - cbn in E1, E2. unfold ret in *. injection E1 as <- _.
    injection E2 as <- _. lia.
  - cbn [count_active] in E1, E2. unfold bind at 1 in E1.
    unfold bind at 1 in E2. rewrite is_active_eq in E1, E2.
    assert (Hlater : (clock w1 (ticks w1) <= clock w2 (ticks w2))%Z).
    { rewrite Hc. now apply Hm. }
    destruct (expiryTs l) as [e|]; [destruct (num_truthy e)|].
    + destruct (count_active_returns links (snd (now w1)))
        as (m1 & v1 & F1 & _).
      destruct (count_active_returns links (snd (now w2)))
        as (m2 & v2 & F2 & _).
      assert (Hrec : (m2 <= m1)%nat).
      { apply (IH (snd (now w1)) (snd (now w2)) m1 m2 v1 v2); auto.
        cbn. lia. }
      unfold bind in E1, E2. rewrite F1 in E1. rewrite F2 in E2.
      unfold ret in *. injection E1 as <- _. injection E2 as <- _.
      destruct (num_gt e (clock w2 (ticks w2))) eqn:G2.
      * rewrite (num_gt_earlier e Hlater G2). lia.
      * destruct (num_gt e (clock w1 (ticks w1))); lia.
    + destruct (count_active_returns links w1) as (m1 & v1 & F1 & _).
      destruct (count_active_returns links w2) as (m2 & v2 & F2 & _).
      assert (Hrec : (m2 <= m1)%nat)
        by (apply (IH w1 w2 m1 m2 v1 v2); auto).
      unfold bind in E1, E2. rewrite F1 in E1. rewrite F2 in E2.
      unfold ret in *. injection E1 as <- _. injection E2 as <- _. lia.
    + destruct (count_active_returns links w1) as (m1 & v1 & F1 & _).
      destruct (count_active_returns links w2) as (m2 & v2 & F2 & _).
      assert (Hrec : (m2 <= m1)%nat)
        by (apply (IH w1 w2 m1 m2 v1 v2); auto).
      unfold bind in E1, E2. rewrite F1 in E1. rewrite F2 in E2.
      unfold ret in *. injection E1 as <- _. injection E2 as <- _. lia.
Qed.

(** X15: with a clock that does not run backwards, the statistics of one
    collection taken later show no more active records and no fewer expired
    ones than taken earlier; the total and the clicks are the same.  An
    expired record does not become active again. *)
Theorem active_count_never_grows (links : list LinkRecord)
  (w1 w2 : World) :
  (forall n m, (n <= m)%nat -> (clock w1 n <= clock w1 m)%Z) ->
  (forall n, clock w2 n = clock w1 n) ->
  (ticks w1 <= ticks w2)%nat ->
  exists s1 s2,
    fst (stats links w1) = Returned s1
    /\ fst (stats links w2) = Returned s2
    /\ (active s2 <= active s1)%nat
    /\ (expired s1 <= expired s2)%nat
    /\ total s2 = total s1
    /\ clicks s2 = clicks s1.
Proof.
  intros Hm Hc Ht.
  destruct (stats_run links w1) as (n1 & v1 & E1 & L1 & S1).
  destruct (stats_run links w2) as (n2 & v2 & E2 & L2 & S2).
  pose proof (count_active_later links w1 w2 Hm Hc Ht E1 E2) as Hle.
  rewrite S1, S2. eexists. eexists.
  split; [reflexivity|]. split; [reflexivity|].
  cbn [active expired total clicks]. repeat split; lia.
Qed.

(** The statistics of the example, taken at once and five readings of the
    clock later. *)
Lemma active_count_never_grows_witness :
  exists s1 s2,
    fst (stats example_links (example_browser None [])) = Returned s1
    /\ fst (stats example_links
              (advance 5 0 (example_browser None [])))
       = Returned s2
    /\ (active s2 <= active s1)%nat.
Proof.
  destruct (@active_count_never_grows example_links
              (example_browser None [])
              (advance 5 0 (example_browser None [])))
    as (s1 & s2 & E1 & E2 & H & _).
  - intros n m H. cbn [clock example_browser]. lia.
  - intro n. reflexivity.
  - cbn [ticks example_browser advance]. lia.
  - exists s1, s2. split; [exact E1|]. split; [exact E2|exact H].
Defined.

Lemma fold_clicks (links : list LinkRecord) (a : nat) :
  fold_left (fun s l => (s + List.length (visits l))%nat) links a
  = (a + list_sum (List.map (fun l => List.length (visits l)) links))%nat.
Proof.
  revert a. induction links as [|l links IH]; intro a; cbn [fold_left
    List.map list_sum fold_right]; [lia|].
  rewrite IH. unfold list_sum. lia.
Qed.

Lemma count_active_same_expiry (before after : list LinkRecord)
  (l l' : LinkRecord) (w : World) :
  expiryTs l' = expiryTs l ->
  count_active (before ++ l' :: after) w
  = count_active (before ++ l :: after) w.
Proof.
  intro He. revert w.
  induction before as [|x before IH]; intro w; cbn [app count_active].
  - unfold is_active. now rewrite He.
  - unfold bind. destruct (is_active x w) as [[a|e] w1]; [|reflexivity].
    now rewrite IH.
Qed.

(** X16: a redirect that finds its record shows in the statistics as one
    click more and as nothing else: taken in the same browser, the
    statistics of the saved collection have the total, the active and the
    expired counts of the loaded one. *)
Theorem redirect_adds_one_click (w : World) (c : jsstring)
  (links : list LinkRecord) :
  match_redirect (strip_hash (location_hash w)) = Some c ->
  fst (loadLinks w) = Returned (links_value links) ->
  (exists l, In l links /\ code l = c) ->
  exists links',
    localStorage (snd (handleRedirect w)) STORAGE_KEY
    = Some (JSON_stringify (links_value links'))
    /\ forall w2,
         exists s s',
           fst (stats links w2) = Returned s
           /\ fst (stats links' w2) = Returned s'
           /\ total s' = total s
           /\ active s' = active s
           /\ expired s' = expired s
           /\ clicks s' = S (clicks s).
Proof.
  intros Hm Hload Hex.
  destruct (@first_with_code c links Hex)
    as (before & l & after & -> & Hl & Hb).
  exists (before ++ log_visit (visit_now w) l :: after). split.
  - rewrite (@handleRedirect_found w c before after l Hm Hload Hl Hb).
    reflexivity.
  - intro w2.
    destruct (stats_run (before ++ l :: after) w2) as (n & v & E & _ & S1).
    destruct (stats_run (before ++ log_visit (visit_now w) l :: after) w2)
      as (n' & v' & E' & _ & S2).
    rewrite (@count_active_same_expiry before after l
               (log_visit (visit_now w) l) w2 eq_refl) in E'.
    rewrite E in E'. injection E' as <- <-.
    rewrite S1, S2. eexists. eexists.
    split; [reflexivity|]. split; [reflexivity|].
    cbn [total active expired clicks].
    rewrite !length_app. cbn [List.length].
    split; [reflexivity|]. split; [reflexivity|]. split; [reflexivity|].
    rewrite !fold_clicks, !map_app. cbn [List.map].
    rewrite !list_sum_app. cbn [list_sum fold_right log_visit visits].
    rewrite length_app. cbn [List.length]. lia.
Qed.

(** The store of the example has one click; after [#/r/abc123] it has
    two. *)
Lemma redirect_adds_one_click_witness :
  exists links' s',
    localStorage
      (snd (handleRedirect
              (example_browser (Some example_store) (js "#/r/abc123"))))
      STORAGE_KEY
    = Some (JSON_stringify (links_value links'))
    /\ fst (stats links' (example_browser None [])) = Returned s'
    /\ clicks s' = 2%nat.
Proof.
  destruct (@redirect_adds_one_click
              (example_browser (Some example_store) (js "#/r/abc123"))
              (js "abc123") example_links)
    as (links' & Hs & H).
  - reflexivity.
  - vm_compute. reflexivity.
  - eexists. split; [left; reflexivity|reflexivity].
  - destruct (H (example_browser None []))
      as (s & s' & E & E' & _ & _ & _ & Hc).
    exists links', s'. split; [exact Hs|]. split; [exact E'|].
    rewrite Hc. f_equal.
    vm_compute in E. injection E as <-. reflexivity.
Defined.

(* ===================================================================== *)
(** * The redirect resolver: fragments, damaged stores, expired records *)
(* ===================================================================== *)

Lemma match_redirect_spec (h c : jsstring) :
  match_redirect h = Some c
  <-> h = 114%N :: 47%N :: c
      /\ c <> []
      /\ forallb (fun u => negb (is_line_terminator u)) c = true.
Proof.
  unfold match_redirect. change (js "r/") with [114%N; 47%N]. split.
  - destruct h as [|a [|b rest]]; cbn [starts_with]; try discriminate.
    + destruct (N.eqb 114 a); discriminate.
    + destruct (N.eqb_spec 114 a) as [<-|]; [|discriminate].
      destruct (N.eqb_spec 47 b) as [<-|]; [|discriminate].
      destruct (nonempty rest
                && forallb (fun u => negb (is_line_terminator u)) rest)
        eqn:E; [|discriminate].
      intro H. injection H as <-. apply andb_true_iff in E.
      destruct E as (E1 & E2).
      split; [reflexivity|]. split; [now destruct rest|exact E2].
  - intros (-> & Hne & Hlt). cbn [starts_with]. cbn [N.eqb Pos.eqb].
    rewrite Hlt. destruct c; [congruence|reflexivity].
Qed.

Lemma strip_hash_redirect (hash c : jsstring) :
  strip_hash hash = 114%N :: 47%N :: c
  <-> hash = 35%N :: 47%N :: 114%N :: 47%N :: c
      \/ hash = 35%N :: 114%N :: 47%N :: c
      \/ hash = 114%N :: 47%N :: c.
Proof.
  split.
  - intro H. destruct hash as [|c0 r]; [discriminate|].
    cbn [strip_hash] in H.
    destruct (N.eqb_spec c0 35) as [->|Hne].
    + destruct r as [|d r']; [discriminate|].
      destruct (N.eqb_spec d 47) as [->|Hd].
      * left. now rewrite H.
      * right; left. now rewrite H.
    + right; right. exact H.
  - intros [-> | [-> | ->]]; reflexivity.
Qed.

(** X17: the fragments that [handleRedirect] takes for a redirect are
    [#/r/<code>], [#r/<code>] and [r/<code>] with a code that is not empty
    and has no line terminator, and no others; the code is what follows,
    as it stands - it may hold any other character, a [/] or a space
    too. *)
Theorem redirect_fragments (hash c : jsstring) :
  match_redirect (strip_hash hash) = Some c
  <-> (hash = js "#/r/" ++ c \/ hash = js "#r/" ++ c \/ hash = js "r/" ++ c)
      /\ c <> []
      /\ forallb (fun u => negb (is_line_terminator u)) c = true.
Proof.
  change (js "#/r/" ++ c) with (35%N :: 47%N :: 114%N :: 47%N :: c).
  change (js "#r/" ++ c) with (35%N :: 114%N :: 47%N :: c).
  change (js "r/" ++ c) with (114%N :: 47%N :: c).
  split.
  - intro H. apply match_redirect_spec in H. destruct H as (Hs & Hne & Hlt).
    apply strip_hash_redirect in Hs. auto.
  - intros (Hh & Hne & Hlt). apply match_redirect_spec.
    apply strip_hash_redirect in Hh. auto.
Qed.

Lemma handleRedirect_loaded (w : World) (c : jsstring) (v : value) :
  match_redirect (strip_hash (location_hash w)) = Some c ->
  fst (loadLinks w) = Returned v ->
  handleRedirect w
  = (found <- find_link c v ;;
     match found with
     | None => ret tt
     | Some (i, link) =>
         link' <- push_visit link ;;
         saveLinks
           (match v with
            | VArr items => VArr (set_nth i link' items)
            | _ => v
            end) ;;
         location_replace (get link' (js "longUrl"))
     end) w.
Proof.
  intros Hm Hload. unfold handleRedirect.
  unfold bind at 1. unfold read at 1. cbn beta iota. rewrite Hm.
  unfold bind at 1. rewrite loadLinks_eq in *. cbn [fst] in Hload.
  injection Hload as Hload. now rewrite Hload.
Qed.

Lemma find_code_null (c : jsstring) (before after : list value) (i : nat) :
  Forall (fun x => x <> VNull /\ has_code c x = false) before ->
  find_code c (before ++ VNull :: after) i = Thrown TypeError.
Proof.
  intro H. revert i. induction H as [|x before (Hx & Hc) _ IH]; intro i.
  - reflexivity.
  - cbn [app find_code]. rewrite Hc, IH. destruct x; congruence.
Qed.

(** X18: what [handleRedirect] does on a store that the program did not
    write.  With a fragment that names a code it throws a [TypeError],
    and neither writes nor navigates, when the stored text is JSON for
    something that is not an array, when [null] stands in the array before
    any record with the code, and when the record found has no array of
    [visits]. *)
Theorem redirect_on_damaged_store (w : World) (c : jsstring) :
  match_redirect (strip_hash (location_hash w)) = Some c ->
  (forall v,
     fst (loadLinks w) = Returned v ->
     (forall items, v <> VArr items) ->
     handleRedirect w = (Thrown TypeError, w))
  /\ (forall before after,
        fst (loadLinks w) = Returned (VArr (before ++ VNull :: after)) ->
        Forall (fun x => x <> VNull /\ has_code c x = false) before ->
        handleRedirect w = (Thrown TypeError, w))
  /\ (forall items i link,
        fst (loadLinks w) = Returned (VArr items) ->
        find_code c items 0 = Returned (Some (i, link)) ->
        (forall visits, get link (js "visits") <> Some (VArr visits)) ->
        fst (handleRedirect w) = Thrown TypeError
        /\ localStorage (snd (handleRedirect w)) = localStorage w
        /\ navigations (snd (handleRedirect w)) = navigations w).
Proof.
  intro Hm. split; [|split].
  - intros v Hload Hv. rewrite (handleRedirect_loaded w Hm Hload).
    destruct v as [|b|n|s|items|props]; try reflexivity.
    now elim (Hv items).
  - intros before after Hload Hb.
    rewrite (handleRedirect_loaded w Hm Hload).
    unfold bind at 1. cbn [find_link].
    now rewrite (find_code_null c after 0 Hb).
  - intros items i link Hload Hfind Hv.
    assert (P : push_visit link w = (Thrown TypeError, w)
                \/ push_visit link w = (Thrown TypeError, snd (now w))).
    { unfold push_visit.
      destruct (get link (js "visits")) as [[|b|n|s|visits|props]|];
        try (now elim (Hv visits)); try (now left);
        right; unfold bind; now rewrite new_visit_eq. }
    assert (E : handleRedirect w = (Thrown TypeError, w)
                \/ handleRedirect w = (Thrown TypeError, snd (now w))).
    { rewrite (handleRedirect_loaded w Hm Hload).
      unfold bind. cbn [find_link]. rewrite Hfind. cbn beta iota.
      destruct P as [P|P]; rewrite P; [now left|now right]. }
    destruct E as [E|E]; rewrite E; repeat split; reflexivity.
Qed.

(** The slot holds [{}]: JSON, and no array. *)
Lemma redirect_on_damaged_store_witness :
  handleRedirect (example_browser (Some (js "{}")) (js "#/r/abc123"))
  = (Thrown TypeError,
     example_browser (Some (js "{}")) (js "#/r/abc123")).
Proof.
  destruct (@redirect_on_damaged_store
              (example_browser (Some (js "{}")) (js "#/r/abc123"))
              (js "abc123") eq_refl) as (H & _).
  apply (H (VObj [])); [reflexivity|discriminate].
Defined.

(** X19: [handleRedirect] does not look at [expiryTs].  A record that the
    statistics count as expired is resolved like any other: the visit is
    logged and the browser is sent to its [longUrl]. *)
Theorem expired_link_still_redirects (w : World)
  (before after : list LinkRecord) (l : LinkRecord) :
  match_redirect (strip_hash (location_hash w)) = Some (code l) ->
  fst (loadLinks w) = Returned (links_value (before ++ l :: after)) ->
  Forall (fun x => code x <> code l) before ->
  fst (is_active l w) = Returned false ->
  fst (handleRedirect w) = Returned tt
  /\ navigations (snd (handleRedirect w))
     = NavReplace (Some (VStr (longUrl l))) :: navigations w
  /\ localStorage (snd (handleRedirect w)) STORAGE_KEY
     = Some (JSON_stringify
               (links_value
                  (before ++ log_visit (visit_now w) l :: after)))
  /\ fst (is_active (log_visit (visit_now w) l) w) = Returned false.
Proof.
  intros Hm Hload Hb Hexp.
  rewrite (@handleRedirect_found w (code l) before after l Hm Hload
             eq_refl Hb).
  split; [reflexivity|]. split; [reflexivity|]. split; [reflexivity|].
  unfold is_active in *. exact Hexp.
Qed.

(** A record that expired long ago is resolved. *)
Lemma expired_link_still_redirects_witness :
  fst (is_active expired_link
         (example_browser (Some expired_store) (js "#/r/old001")))
  = Returned false
  /\ navigations
       (snd (handleRedirect
               (example_browser (Some expired_store) (js "#/r/old001"))))
     = [NavReplace (Some (VStr (js "https://example.com/old")))].
Proof.
  destruct (@expired_link_still_redirects
              (example_browser (Some expired_store) (js "#/r/old001"))
              [] [] expired_link)
    as (_ & H & _).
  - reflexivity.
  - vm_compute. reflexivity.
  - constructor.
  - reflexivity.
  - split; [reflexivity|exact H].
Defined.

Lemma code_char_no_terminator (c : N) :
  is_code_char c = true -> negb (is_line_terminator c) = true.
Proof.
  intro H. destruct (is_line_terminator c) eqn:S; [exfalso|reflexivity].
  unfold is_code_char, is_digit in H. unfold is_line_terminator in S.
  repeat (rewrite orb_true_iff in H || rewrite andb_true_iff in H
          || rewrite N.leb_le in H || rewrite N.eqb_eq in H).
  repeat (rewrite orb_true_iff in S || rewrite N.eqb_eq in S).
  lia.
Qed.

Lemma valid_code_fragment (c : jsstring) :
  valid_code c = true ->
  match_redirect (strip_hash (js "#/r/" ++ c)) = Some c.
Proof.
  unfold valid_code. intro H. apply andb_true_iff in H.
  destruct H as (Hne & Hc). apply match_redirect_fragment.
  - now apply nonempty_true.
  - apply forallb_forall. intros u Hu. apply code_char_no_terminator.
    rewrite forallb_forall in Hc. now apply Hc.
Qed.

Lemma loadLinks_with_hash (hash : jsstring) (w : World) :
  fst (loadLinks (with_hash hash w)) = fst (loadLinks w).
Proof. now rewrite !loadLinks_eq. Qed.

(** X20: the address [#/r/<code>] that the page shows for a record leads
    [handleRedirect] to a record with that code: to the first one in the
    collection, which is the record itself when the codes of the collection
    are distinct.  The code has to be one that [sanitizeCode] would keep
    whole. *)
Theorem short_link_resolves (w : World) (links : list LinkRecord)
  (l : LinkRecord) :
  fst (loadLinks w) = Returned (links_value links) ->
  In l links ->
  valid_code (code l) = true ->
  exists first,
    In first links
    /\ code first = code l
    /\ (NoDup (List.map code links) -> first = l)
    /\ fst (handleRedirect (with_hash (short_link l) w)) = Returned tt
    /\ navigations (snd (handleRedirect (with_hash (short_link l) w)))
       = NavReplace (Some (VStr (longUrl first))) :: navigations w.
Proof.
  intros Hload Hin Hc.
  destruct (@first_with_code (code l) links
              (ex_intro _ l (conj Hin eq_refl)))
    as (before & first & after & E & Hf & Hb).
  assert (Hfirst : In first links).
  { rewrite E. apply in_or_app. right. now left. }
  exists first. split; [exact Hfirst|]. split; [exact Hf|]. split.
  - intro Hnd. clear Hload Hb. revert Hnd Hin Hfirst Hf. clear.
    induction links as [|x links IH]; [contradiction|].
    cbn [List.map]. intros Hnd Hin Hfirst Hf.
    apply NoDup_cons_iff in Hnd. destruct Hnd as (Hx & Hnd).
    destruct Hin as [->|Hin], Hfirst as [->|Hfirst]; auto.
    + elim Hx. rewrite <- Hf. now apply in_map.
    + elim Hx. rewrite Hf. now apply in_map.
  - assert (Hm : match_redirect
                   (strip_hash
                      (location_hash (with_hash (short_link l) w)))
                 = Some (code l)) by (apply valid_code_fragment, Hc).
    assert (Hl : fst (loadLinks (with_hash (short_link l) w))
                 = Returned (links_value (before ++ first :: after)))
      by (rewrite loadLinks_with_hash, Hload, E; reflexivity).
    rewrite (@handleRedirect_found (with_hash (short_link l) w) (code l)
               before after first Hm Hl Hf Hb).
    split; reflexivity.
Qed.

(** The address shown for the first record of the example. *)
Lemma short_link_resolves_witness :
  navigations
    (snd (handleRedirect
            (with_hash (js "#/r/abc123")
               (example_browser (Some example_store) []))))
  = [NavReplace (Some (VStr (js "https://example.com/page")))].
Proof.
  destruct (@short_link_resolves
              (example_browser (Some example_store) []) example_links
              (mkLink (js "abc123") (js "https://example.com/page")
                 1700000000000 (Some (NInt 1700003600000))
                 [example_visit]))
    as (first & _ & _ & Hsame & _ & H).
  - vm_compute. reflexivity.
  - left. reflexivity.
  - reflexivity.
  - rewrite Hsame in H; [exact H|].
    repeat constructor; cbn; intuition discriminate.
Defined.

(* ===================================================================== *)
(** * The page load *)
(* ===================================================================== *)

(** X21: a page load with a redirect fragment sends the browser to the
    long URL and leaves the store as it was: the second effect of [App]
    saves the collection that was read before [handleRedirect] ran, over
    the one with the new visit.  The visit is gone; a later [loadLinks]
    gives the collection without it. *)
Theorem mount_drops_logged_visit (w : World) (c : jsstring)
  (links : list LinkRecord) :
  well_formed links ->
  localStorage w STORAGE_KEY = Some (JSON_stringify (links_value links)) ->
  match_redirect (strip_hash (location_hash w)) = Some c ->
  (exists l, In l links /\ code l = c) ->
  exists l,
    In l links
    /\ code l = c
    /\ fst (App_mount w) = Returned (links_value links)
    /\ navigations (snd (App_mount w))
       = NavReplace (Some (VStr (longUrl l))) :: navigations w
    /\ (forall key, localStorage (snd (App_mount w)) key = localStorage w key)
    /\ loadLinks (snd (App_mount w))
       = (Returned (links_value links), snd (App_mount w)).
Proof.
  intros Hwf Hslot Hm Hex.
  pose proof (@loadLinks_of_text (links_value links) w
                (links_value_exact Hwf) Hslot) as Hload.
  destruct (@first_with_code c links Hex)
    as (before & l & after & E & Hl & Hb).
  assert (Hrun : handleRedirect w
                 = (saveLinks
                      (links_value
                         (before ++ log_visit (visit_now w) l :: after)) ;;
                    location_replace (Some (VStr (longUrl l))))
                     (snd (now w))).
  { apply (@handleRedirect_found w c before after l Hm); auto.
    now rewrite Hload, E. }
  assert (Hmount :
    App_mount w
    = (Returned (links_value links),
       snd (saveLinks (links_value links) (snd (handleRedirect w))))).
  { unfold App_mount. unfold bind at 1. rewrite Hload.
    unfold bind at 1. rewrite Hrun. reflexivity. }
  exists l. split; [rewrite E; apply in_or_app; right; now left|].
  split; [exact Hl|]. rewrite Hmount. split; [reflexivity|].
  split; [now rewrite Hrun|]. split.
  - intro key. unfold saveLinks, setItem. cbn [snd localStorage].
    destruct (str_eqb key STORAGE_KEY) eqn:K.
    + apply str_eqb_eq in K. now rewrite K, Hslot.
    + pose proof (@handleRedirect_found_effects w
                    (before ++ log_visit (visit_now w) l :: after)
                    (longUrl l)) as R.
      cbv zeta in R. destruct R as (_ & _ & _ & R).
      rewrite Hrun. now apply R.
  - apply load_after_save. now apply links_value_exact.
Qed.

(** The page is loaded with [#/r/abc123] on the store of the example: the
    browser is sent on, and the store holds what it held. *)
Lemma mount_drops_logged_visit_witness :
  navigations
    (snd (App_mount
            (example_browser (Some example_store) (js "#/r/abc123"))))
  = [NavReplace (Some (VStr (js "https://example.com/page")))]
  /\ localStorage
       (snd (App_mount
               (example_browser (Some example_store) (js "#/r/abc123"))))
       STORAGE_KEY
     = Some example_store.
Proof.
  destruct (@mount_drops_logged_visit
              (example_browser (Some example_store) (js "#/r/abc123"))
              (js "abc123") example_links)
    as (l & Hin & Hc & _ & Hn & Hs & _).
  - exact example_links_well_formed.
  - reflexivity.
  - reflexivity.
  - eexists. split; [left; reflexivity|reflexivity].
  - split; [|now rewrite Hs].
    rewrite Hn. destruct Hin as [<-|[<-|[]]]; [reflexivity|].
    discriminate Hc.
Defined.

(* ===================================================================== *)
(** * Random codes are not checked against the store *)
(* ===================================================================== *)

Lemma index_of_nth (c : N) (l : jsstring) :
  existsb (N.eqb c) l = true ->
  nth (index_of c l) l 0%N = c /\ (index_of c l < List.length l)%nat.
Proof.
  induction l as [|d l IH]; [discriminate|].
  cbn [existsb index_of]. rewrite (N.eqb_sym c d).
  destruct (N.eqb_spec d c) as [->|_].
  - intros _. cbn [nth List.length]. split; [reflexivity|lia].
  - cbn [orb]. intro H. destruct (IH H) as (E & L).
    cbn [nth List.length]. split; [exact E|lia].
Qed.

Lemma map_nth_seq (s : jsstring) :
  List.map (fun i => nth i s 0%N) (seq 0 (List.length s)) = s.
Proof.
  apply nth_error_ext. intro n. rewrite nth_error_map.
  destruct (Nat.ltb_spec n (List.length s)) as [H|H].
  - rewrite (nth_error_nth' s 0%N H).
    assert (Hs : (n < List.length (seq 0 (List.length s)))%nat)
      by now rewrite length_seq.
    rewrite (nth_error_nth' _ 0%nat Hs), seq_nth by exact H.
    reflexivity.
  - assert (E1 : nth_error s n = None) by now apply nth_error_None.
    assert (E2 : nth_error (seq 0 (List.length s)) n = None)
      by (apply nth_error_None; now rewrite length_seq).
    now rewrite E1, E2.
Qed.

(** With the right bytes, [randomCode] returns any given string of its 62
    characters. *)
Lemma randomCode_spells (s : jsstring) (w : World) :
  forallb is_random_char s = true ->
  randomCode (List.length s) (with_entropy (bytes_for s (drawn w)) w)
  = (Returned s,
     advance 0 (List.length s) (with_entropy (bytes_for s (drawn w)) w)).
Proof.
  intro H. rewrite randomCode_run. f_equal. f_equal.
  etransitivity; [|apply map_nth_seq]. apply map_ext_in. intros i Hi.
  apply in_seq in Hi. cbn [entropy drawn with_entropy]. unfold bytes_for.
  rewrite Nat.add_sub.
  assert (Hc : is_random_char (nth i s 0%N) = true).
  { rewrite forallb_forall in H. apply H. apply nth_In. lia. }
  destruct (index_of_nth _ _ Hc) as (E & L).
  pose proof chars_length as C.
  assert (L' : (N.of_nat (index_of (nth i s 0%N) chars) < 62)%N) by lia.
  rewrite C.
  rewrite (N.mod_small (N.of_nat (index_of (nth i s 0%N) chars)) 256)
    by lia.
  rewrite N.mod_small by exact L'. now rewrite Nat2N.id.
Qed.

Section RandomCodes.

Variable URL_protocol : jsstring -> option jsstring.
Variable StringToNumber : jsstring -> number.

Local Notation "'submit'" := (onSubmit URL_protocol StringToNumber).
Local Notation "'invalid'" := (invalid_row URL_protocol StringToNumber).

(** X22: the code that [randomCode] draws for a row without a preferred
    code is not compared with the codes of the store.  For every record of
    the store whose code is six letters and digits there are random bytes
    with which the new record gets that very code; the new record then
    stands first, and the lookup of [handleRedirect] for the code finds
    it and no longer the old one. *)
Theorem random_code_is_not_checked (app : AppState) (w : World) (r : Row)
  (old : LinkRecord) :
  rows app = [r] ->
  row_preferredCode r = [] ->
  ~ invalid (links app) r ->
  In old (links app) ->
  List.length (code old) = 6%nat ->
  forallb is_random_char (code old) = true ->
  exists l,
    fst (submit app (with_entropy (bytes_for (code old) (drawn w)) w))
    = Returned (mkApp (l :: links app) [blank_row] [l] false)
    /\ code l = code old
    /\ longUrl l = trim (row_longUrl r)
    /\ createdAt l = clock w (ticks w)
    /\ visits l = []
    /\ find_code (code old) (List.map link_value (l :: links app)) 0
       = Returned (Some (0%nat, link_value l)).
Proof.
  intros Hrows Hpref Hok Hin Hlen Hchars.
  set (w' := with_entropy (bytes_for (code old) (drawn w)) w).
  assert (Hno : forall r0, In r0 (rows app) ->
                  has_errors
                    (validate URL_protocol StringToNumber r0
                       (existing_codes (links app))) = false).
  { rewrite Hrows. intros r0 [<-|[]]. apply not_true_is_false. intro H.
    apply has_errors_invalid in H. now apply Hok. }
  rewrite (@valid_batch_is_created URL_protocol StringToNumber app w' Hno).
  rewrite Hrows. cbn [List.map]. unfold submitToBackend. cbn [map_M].
  assert (Hitem : item_preferredCode (batch_item StringToNumber r) = None).
  { unfold batch_item. cbn [item_preferredCode]. now rewrite Hpref. }
  set (expiry :=
         match item_validityMinutes (batch_item StringToNumber r) with
         | Some v =>
             if num_truthy v
             then Some (num_scale_add (clock w (ticks w)) v 60000)
             else None
         | None => None
         end).
  assert (Hcreate :
    create (batch_item StringToNumber r) w'
    = (Returned
         (mkLink (code old) (trim (row_longUrl r)) (clock w (ticks w))
            expiry []),
       advance 1 6 w')).
  { unfold create. rewrite Hitem. unfold bind at 1.
    pose proof (randomCode_spells (code old) w Hchars) as R.
    rewrite Hlen in R. fold w' in R. rewrite R. reflexivity. }
  exists (mkLink (code old) (trim (row_longUrl r)) (clock w (ticks w))
            expiry []).
  split.
  - unfold bind at 1. unfold bind at 1. rewrite Hcreate. reflexivity.
  - cbn [code longUrl createdAt visits].
    split; [reflexivity|]. split; [reflexivity|]. split; [reflexivity|].
    split; [reflexivity|].
    cbn [List.map find_code]. rewrite has_code_link. cbn [code].
    now rewrite str_eqb_refl.
Qed.

End RandomCodes.

(** The store holds [old001]; with the bytes that spell it, a row without a
    preferred code gets [old001] again. *)
Lemma random_code_is_not_checked_witness :
  exists l,
    fst (onSubmit scheme_only decimal_only
           (mkApp [expired_link] [fine_row] [] false)
           (with_entropy (bytes_for (js "old001") 0)
              (example_browser None [])))
    = Returned (mkApp [l; expired_link] [blank_row] [l] false)
    /\ code l = js "old001".
Proof.
  destruct (@random_code_is_not_checked scheme_only decimal_only
              (mkApp [expired_link] [fine_row] [] false)
              (example_browser None []) fine_row expired_link)
    as (l & E & Hc & _).
  - reflexivity.
  - reflexivity.
  - intro Hinv. apply has_errors_invalid in Hinv.
    vm_compute in Hinv. discriminate.
  - left. reflexivity.
  - reflexivity.
  - reflexivity.
  - exists l. split; [exact E|exact Hc].
Defined.
